(** * pylxpweb: the Modbus transport and its collaborators

    A shallow embedding of [transports/_modbus_base.py]
    ([BaseModbusTransport]): register reads with retry and error
    tracking, register-group reads with adaptive pacing, the device-data
    reads built on them, parameter reads and writes, and the identity
    reads.  The asynchronous methods are embedded as computations in a
    small monad that threads the transport object and the device through
    every call, may raise a Python exception, and logs the frames put on
    the wire and the sleeps.

    Floating-point seconds are embedded as exact rationals ([Q]); the
    only operations the transport applies to them are a product with a
    power of two, a doubling and a [min]. *)

From Stdlib Require Import ZArith QArith Qminmax Lia Lqa String Ascii.
From stdpp Require Import base option list sorting gmap pretty.

Set Default Proof Using "Type".
Set Warnings "-register-all".
Local Open Scope Z_scope.

(** ** Exceptions *)

(** The exception classes that reach the transport.  A transport error
    carries the text of its message in abstract form and its
    [__cause__]. *)
Inductive Message :=
| MsgNotConnected                        (* "Transport not connected" *)
| MsgFailedToConnect                     (* "Failed to connect ..." *)
| MsgClientNotInitialized                (* "Modbus client not initialized" *)
| MsgModbusReadError (address : Z)       (* "Modbus read error at address ..." *)
| MsgInvalidResponse (address : Z)       (* "Invalid Modbus response at address ..." *)
| MsgTimeoutReading (input : bool) (address : Z)
| MsgFailedToRead (input : bool) (address : Z)
| MsgGroupFailed (group_name : string)   (* "Failed to read register group ..." *)
| MsgMidFailed                           (* "Failed to read MID registers ..." *)
| MsgModbusWriteError (address : Z)
| MsgTimeoutWriting (address : Z)
| MsgFailedToWrite (address : Z).

Inductive Exn :=
| ModbusIOException (mentions_timeout : bool)
| TimeoutError
| OSError
| OtherException          (* any other subclass of Exception *)
| TypeError               (* raised by [raise None] *)
| TransportConnectionError (msg : Message) (cause : option Exn)
| TransportReadError (msg : Message) (cause : option Exn)
| TransportTimeoutError (msg : Message) (cause : option Exn)
| TransportWriteError (msg : Message) (cause : option Exn).

(** [err.__cause__] *)
Definition cause_of (e : Exn) : option Exn :=
  match e with
  | TransportConnectionError _ c | TransportReadError _ c
  | TransportTimeoutError _ c | TransportWriteError _ c => c
  | _ => None
  end.

(** ** The wire *)

(** What one call of [client.read_input_registers] or
    [client.read_holding_registers] can do. *)
Inductive ReadOutcome :=
| Registers (regs : list Z)      (* a response carrying [registers] *)
| ErrorResponse                  (* [result.isError()]: Modbus exception response *)
| NoRegisters                    (* a response without [registers] *)
| Raises (e : Exn).              (* the client call raises *)

(** What one call of [client.write_register] / [client.write_registers]
    can do. *)
Inductive WriteOutcome :=
| WriteAccepted
| WriteErrorResponse
| WriteRaises (e : Exn).

(** A read request: [input = true] is function code 4 (input registers),
    [input = false] is function code 3 (holding registers). *)
Record ReadRequest := mkRead {
  rd_input : bool;
  rd_address : Z;
  rd_count : Z;
  rd_device_id : Z
}.

(** A write frame: function code 6 or function code 16. *)
Inductive WriteFrame :=
| WriteSingle (address value device_id : Z)                 (* FC6 *)
| WriteMultiple (address : Z) (values : list Z) (device_id : Z).  (* FC16 *)

Definition function_code (r : ReadRequest) : Z :=
  if rd_input r then 4 else 3.

Definition write_function_code (f : WriteFrame) : Z :=
  match f with
  | WriteSingle _ _ _ => 6
  | WriteMultiple _ _ _ => 16
  end.

(** What an observer of the transport sees, in order. *)
Inductive Event :=
| EvRead (r : ReadRequest)
| EvWrite (f : WriteFrame)
| EvBackoff (seconds : Q)     (* the sleep before a retry *)
| EvPace (seconds : Q)        (* the sleep between two register groups *)
| EvConnect
| EvClose.

(** ** The transport object *)

Record Transport := mkTransport {
  serial : string;                  (* BaseTransport._serial *)
  connected : bool;                 (* BaseTransport._connected *)
  client : bool;                    (* self._client is not None *)
  unit_id : Z;
  retries : Z;
  retry_delay : Q;
  inter_register_delay : Q;
  consecutive_errors : Z;
  max_consecutive_errors : Z;
  last_read_retried : bool
}.

(** The object [__init__] builds with its default arguments. *)
Definition init_transport (serial : string) : Transport :=
  {| serial := serial; connected := false; client := false; unit_id := 1;
     retries := 2; retry_delay := 1 # 2; inter_register_delay := 1 # 20;
     consecutive_errors := 0; max_consecutive_errors := 3;
     last_read_retried := false |}.

Definition set_connected (b : bool) (t : Transport) : Transport :=
  {| serial := serial t; connected := b; client := client t; unit_id := unit_id t;
     retries := retries t; retry_delay := retry_delay t;
     inter_register_delay := inter_register_delay t;
     consecutive_errors := consecutive_errors t;
     max_consecutive_errors := max_consecutive_errors t;
     last_read_retried := last_read_retried t |}.

Definition set_client (b : bool) (t : Transport) : Transport :=
  {| serial := serial t; connected := connected t; client := b; unit_id := unit_id t;
     retries := retries t; retry_delay := retry_delay t;
     inter_register_delay := inter_register_delay t;
     consecutive_errors := consecutive_errors t;
     max_consecutive_errors := max_consecutive_errors t;
     last_read_retried := last_read_retried t |}.

Definition set_consecutive_errors (n : Z) (t : Transport) : Transport :=
  {| serial := serial t; connected := connected t; client := client t; unit_id := unit_id t;
     retries := retries t; retry_delay := retry_delay t;
     inter_register_delay := inter_register_delay t;
     consecutive_errors := n;
     max_consecutive_errors := max_consecutive_errors t;
     last_read_retried := last_read_retried t |}.

Definition set_last_read_retried (b : bool) (t : Transport) : Transport :=
  {| serial := serial t; connected := connected t; client := client t; unit_id := unit_id t;
     retries := retries t; retry_delay := retry_delay t;
     inter_register_delay := inter_register_delay t;
     consecutive_errors := consecutive_errors t;
     max_consecutive_errors := max_consecutive_errors t;
     last_read_retried := b |}.

(** ** Decoding (transports/data.py and register_maps, by their contract) *)

Inductive BitWidth := Bits16 | Bits32.
Inductive Signedness := Unsigned | Signed.
Inductive Scale := SCALE_1 | SCALE_10 | SCALE_100 | SCALE_1000.

Record RegisterDefinition := mkDef {
  canonical_name : string;
  address : Z;
  bit_width : BitWidth;
  signedness : Signedness;
  scale : Scale
}.

Definition scale_factor (s : Scale) : Q :=
  match s with
  | SCALE_1 => 1
  | SCALE_10 => 1 # 10
  | SCALE_100 => 1 # 100
  | SCALE_1000 => 1 # 1000
  end.

Definition to_signed (bits : Z) (raw : Z) : Z :=
  if raw <? 2 ^ (bits - 1) then raw else raw - 2 ^ bits.

(** Modelled from the spec: the field decoder of transports/data.py is
    not among the sources.  Section 3 fixes its contract: a missing word
    gives [None]; a 32-bit field has its low word at the address and its
    high word at the next one and is decoded only when both are present;
    a signed 16-bit raw [r] stands for [r] below 32768 and [r - 65536]
    otherwise; the decoded number is the raw one times the scale
    factor. *)
Definition decode_field (regs : gmap Z Z) (d : RegisterDefinition) : option Q :=
  match bit_width d with
  | Bits16 =>
      match regs !! address d with
      | Some r =>
          let raw := match signedness d with
                     | Signed => to_signed 16 r
                     | Unsigned => r
                     end in
          Some (inject_Z raw * scale_factor (scale d))%Q
      | None => None
      end
  | Bits32 =>
      match regs !! address d, regs !! (address d + 1) with
      | Some lo, Some hi =>
          let r := hi * 65536 + lo in
          let raw := match signedness d with
                     | Signed => to_signed 32 r
                     | Unsigned => r
                     end in
          Some (inject_Z raw * scale_factor (scale d))%Q
      | _, _ => None
      end
  end.

(** Modelled from the spec: a record decoder (section 4.2) looks every
    field of the record up in the register map and stores what
    [decode_field] gives for it. *)
Definition decode_record (map : list RegisterDefinition) (regs : gmap Z Z)
    : list (string * option Q) :=
  (fun d => (canonical_name d, decode_field regs d)) <$> map.

Record BatteryBankData := mkBank {
  bank_voltage : Q;
  bank_registers : gmap Z Z;                 (* source of the aggregate fields *)
  individual_registers : option (gmap Z Z)   (* source of the per-module fields *)
}.

(** Modelled from the spec: [BatteryBankData.from_modbus_registers]
    (transports/data.py) is not among the sources.  Section 3: a bank
    record is emitted only when the bank-voltage register is above a
    small threshold; below it the caller sees "no battery present".  A
    missing bank-voltage register is not above the threshold. *)
Definition battery_from_modbus_registers (battery_voltage : RegisterDefinition)
    (threshold : Q) (input_registers : gmap Z Z)
    (individual_battery_registers : option (gmap Z Z)) : option BatteryBankData :=
  match decode_field input_registers battery_voltage with
  | Some v =>
      if Qlt_le_dec v threshold then None
      else Some (mkBank v input_registers individual_battery_registers)
  | None => None
  end.

(** Modelled from the spec: the constants of register_maps are not among
    the sources.  Section 4.1: individual battery-module data lives at
    base address 5000, 30 words per module. *)
Definition INDIVIDUAL_BATTERY_BASE_ADDRESS : Z := 5000.
Definition INDIVIDUAL_BATTERY_REGISTER_COUNT : Z := 30.

(** ** Packed ASCII strings *)

(** The two ASCII bytes of a word, low byte first. *)
Definition word_chars (w : Z) : list ascii :=
  [ ascii_of_N (Z.to_N (Z.land w 255));
    ascii_of_N (Z.to_N (Z.land (Z.shiftr w 8) 255)) ].

Definition decode_ascii (words : list Z) : string :=
  string_of_list_ascii (concat (word_chars <$> words)).

(** [str.strip()] *)
Definition is_space (c : ascii) : bool :=
  let n := N_of_ascii c in
  ((9 <=? n) && (n <=? 13) || (n =? 32))%N.

Fixpoint lstrip (l : list ascii) : list ascii :=
  match l with
  | c :: rest => if is_space c then lstrip rest else l
  | [] => []
  end.

Definition strip (s : string) : string :=
  string_of_list_ascii
    (rev (lstrip (rev (lstrip (list_ascii_of_string s))))).

(** ** The monad of transport methods *)

Inductive Res (A : Type) :=
| Ok (a : A)
| Raise (e : Exn).
Arguments Ok {A} a.
Arguments Raise {A} e.

(** The pymodbus client and the device behind it: any state machine
    answering read requests, write frames and connection attempts. *)
Class Client (Dev : Type) := {
  dev_read : Dev -> ReadRequest -> ReadOutcome * Dev;
  dev_write : Dev -> WriteFrame -> WriteOutcome * Dev;
  dev_connect : Dev -> bool * Dev
}.

(** The register maps and the decoders of the runtime records belong to
    modules that are not among the sources (register_maps, data.py);
    the transport is parametric in them. *)
Class RegisterMaps := {
  RuntimeData : Type;
  runtime_from_modbus_registers : gmap Z Z -> RuntimeData;
  MidboxRuntimeData : Type;
  midbox_from_modbus_registers : gmap Z Z -> MidboxRuntimeData;
  energy_register_map : list RegisterDefinition;
  battery_voltage : RegisterDefinition;
  NO_BATTERY_THRESHOLD : Q;
  INDIVIDUAL_BATTERY_MAX_COUNT : Z;
  SERIAL_REGISTER_COUNT : Z
}.

(** The order of [sorted(parameters.items())]: tuples compare by address,
    then by value. *)
Definition item_le (x y : Z * Z) : Prop :=
  x.1 < y.1 ∨ (x.1 = y.1 ∧ x.2 <= y.2).

#[global] Instance item_le_dec x y : Decision (item_le x y) :=
  or_dec _ _.

Section Transport.

Context {Dev : Type} `{!Client Dev} `{!RegisterMaps}.

Definition World : Type := Transport * Dev.

(** A method takes the world, returns or raises, leaves a world and a
    log of what it did. *)
Definition M (A : Type) : Type := World -> Res A * World * list Event.

Definition ret {A} (a : A) : M A := fun w => (Ok a, w, []).
Definition raise {A} (e : Exn) : M A := fun w => (Raise e, w, []).

Definition bind {A B} (m : M A) (k : A -> M B) : M B := fun w =>
  match m w with
  | (Ok a, w1, ev1) =>
      match k a w1 with
      | (r, w2, ev2) => (r, w2, ev1 ++ ev2)
      end
  | (Raise e, w1, ev1) => (Raise e, w1, ev1)
  end.

(** [try: m except <classes accepted by handles>: h] *)
Definition try_except {A} (m : M A) (handles : Exn -> bool) (h : Exn -> M A) : M A :=
  fun w =>
  match m w with
  | (Ok a, w1, ev1) => (Ok a, w1, ev1)
  | (Raise e, w1, ev1) =>
      if handles e then
        match h e w1 with
        | (r, w2, ev2) => (r, w2, ev1 ++ ev2)
        end
      else (Raise e, w1, ev1)
  end.

#[global] Instance M_ret : MRet M := @ret.
#[global] Instance M_bind : MBind M := fun A B k m => bind m k.

Definition get_self : M Transport := fun w => (Ok (fst w), w, []).
Definition modify_self (f : Transport -> Transport) : M unit :=
  fun w => (Ok tt, (f (fst w), snd w), []).
Definition emit (e : Event) : M unit := fun w => (Ok tt, w, [e]).

(** [await read_fn(address=..., count=..., device_id=...)]: the request
    goes on the wire and the client returns or raises. *)
Definition client_read (r : ReadRequest) : M ReadOutcome := fun w =>
  match dev_read (snd w) r with
  | (o, d) => (Ok o, (fst w, d), [EvRead r])
  end.

Definition client_write (f : WriteFrame) : M WriteOutcome := fun w =>
  match dev_write (snd w) f with
  | (o, d) => (Ok o, (fst w, d), [EvWrite f])
  end.

(** [BaseTransport._ensure_connected] *)
Definition _ensure_connected : M unit :=
  self ← get_self;
  if connected self then ret tt
  else raise (TransportConnectionError MsgNotConnected None).

(** [if self._client is None: raise TransportConnectionError(...)] *)
Definition check_client : M unit :=
  self ← get_self;
  if client self then ret tt
  else raise (TransportConnectionError MsgClientNotInitialized None).

(** ** [_read_registers] *)

(** The [except] clauses of the attempt, in the order of the source.
    [None] stands for an exception none of them catches. *)
Definition classify_read_failure (input : bool) (address : Z) (e : Exn) : option Exn :=
  match e with
  | ModbusIOException mentions_timeout =>
      if mentions_timeout
      then Some (TransportTimeoutError (MsgTimeoutReading input address) (Some e))
      else Some (TransportReadError (MsgFailedToRead input address) (Some e))
  | TimeoutError =>
      Some (TransportTimeoutError (MsgTimeoutReading input address) (Some e))
  | TransportReadError _ _ | TransportTimeoutError _ _ => Some e
  | OSError =>
      Some (TransportReadError (MsgFailedToRead input address) (Some e))
  | _ => None
  end.

(** The body of the [try] block: what the attempt raises, if anything. *)
Definition attempt_outcome (address : Z) (o : ReadOutcome) : Res (list Z) :=
  match o with
  | Registers regs => Ok regs
  | ErrorResponse => Raise (TransportReadError (MsgModbusReadError address) None)
  | NoRegisters => Raise (TransportReadError (MsgInvalidResponse address) None)
  | Raises e => Raise e
  end.

(** [raise last_err] *)
Definition raise_last {A} (last_err : option Exn) : M A :=
  match last_err with
  | Some e => raise e
  | None => raise TypeError
  end.

(** The loop [for attempt in range(self._retries + 1)], with [todo]
    iterations left and [attempt] the current index.  The backoff is the
    exact product [retry_delay * 2^attempt]: Python converts
    [2**attempt] to a float for it, which it can do for an attempt index
    below 1024 only, so the loop is that of the code for
    [retries <= 1024]. *)
Fixpoint read_attempts (todo : nat) (attempt : Z) (address count : Z)
    (input : bool) (last_err : option Exn) : M (list Z) :=
  match todo with
  | O => raise_last last_err
  | S todo' =>
      self ← get_self;
      o ← client_read (mkRead input address (Z.min count 40) (unit_id self));
      match attempt_outcome address o with
      | Ok regs =>
          modify_self (set_consecutive_errors 0);;
          ret regs
      | Raise e =>
          match classify_read_failure input address e with
          | None => raise e
          | Some err =>
              modify_self (fun t => set_consecutive_errors (consecutive_errors t + 1) t);;
              (if attempt <? retries self then
                 modify_self (set_last_read_retried true);;
                 emit (EvBackoff (retry_delay self * inject_Z (2 ^ attempt)))
               else ret tt);;
              read_attempts todo' (attempt + 1) address count input (Some err)
          end
      end
  end.

Definition _read_registers (address count : Z) (input_registers : bool) : M (list Z) :=
  _ensure_connected;;
  check_client;;
  modify_self (set_last_read_retried false);;
  self ← get_self;
  read_attempts (Z.to_nat (retries self + 1)) 0 address count input_registers None.

Definition _read_input_registers (address count : Z) : M (list Z) :=
  _read_registers address count true.

Definition _read_holding_registers (address count : Z) : M (list Z) :=
  _read_registers address count false.

(** ** [_write_holding_registers] *)

(** One value goes out as [write_register] (FC6), anything else as
    [write_registers] (FC16). *)
Definition write_frame (address : Z) (values : list Z) (device_id : Z) : WriteFrame :=
  match values with
  | [v] => WriteSingle address v device_id
  | _ => WriteMultiple address values device_id
  end.

(** The [except] clauses around the write; an error response raised
    inside the [try] is none of the caught classes and passes through. *)
Definition classify_write_failure (address : Z) (e : Exn) : Exn :=
  match e with
  | ModbusIOException mentions_timeout =>
      if mentions_timeout
      then TransportTimeoutError (MsgTimeoutWriting address) (Some e)
      else TransportWriteError (MsgFailedToWrite address) (Some e)
  | TimeoutError => TransportTimeoutError (MsgTimeoutWriting address) (Some e)
  | OSError => TransportWriteError (MsgFailedToWrite address) (Some e)
  | _ => e
  end.

Definition _write_holding_registers (address : Z) (values : list Z) : M bool :=
  _ensure_connected;;
  check_client;;
  self ← get_self;
  o ← client_write (write_frame address values (unit_id self));
  match o with
  | WriteAccepted => ret true
  | WriteErrorResponse =>
      raise (TransportWriteError (MsgModbusWriteError address) None)
  | WriteRaises e => raise (classify_write_failure address e)
  end.

(** ** Connection management *)

(** Modelled from the spec: [connect] and [disconnect] are implemented by
    the subclasses (transports/modbus.py), which are not among the
    sources.  Section 4.3 and the lifecycle of section 3 give their
    effect: a connection attempt either leaves the transport connected
    or fails with a TransportConnectionError; disconnecting releases the
    client and leaves the transport disconnected.  The identity
    discovery that sections 4.3 and 4.5 attach to a connection is left
    out: the model logs the connection attempt, not the requests a
    connection may send of its own. *)
Definition connect : M unit :=
  modify_self (set_client true);;
  ok ← (fun w => match dev_connect (snd w) with
                 | (ok, d) => (Ok ok, (fst w, d), [EvConnect])
                 end);
  if ok : bool then modify_self (set_connected true)
  else raise (TransportConnectionError MsgFailedToConnect None).

Definition disconnect : M unit :=
  self ← get_self;
  (if client self then emit EvClose;; modify_self (set_client false)
   else ret tt);;
  modify_self (set_connected false).

(** [_reconnect]: the double check under the lock, then a fresh
    connection and a reset of the error counter. *)
Definition _reconnect : M unit :=
  self ← get_self;
  if consecutive_errors self <? max_consecutive_errors self then ret tt
  else
    disconnect;;
    connect;;
    modify_self (set_consecutive_errors 0).

(** [if self._consecutive_errors >= self._max_consecutive_errors:
       await self._reconnect()] *)
Definition reconnect_if_needed : M unit :=
  self ← get_self;
  if max_consecutive_errors self <=? consecutive_errors self
  then _reconnect else ret tt.

(** ** Register groups *)

(** [registers[start + offset] = value] for every value, in order. *)
Fixpoint store_values (start : Z) (values : list Z) (registers : gmap Z Z)
    : gmap Z Z :=
  match values with
  | [] => registers
  | v :: vs => store_values (start + 1) vs (<[start := v]> registers)
  end.

Definition _registers_from_values (start : Z) (values : list Z) : gmap Z Z :=
  store_values start values ∅.

(** [d.update(other)]: the entries of [other] win. *)
Definition update (d other : gmap Z Z) : gmap Z Z := other ∪ d.

Definition INPUT_REGISTER_GROUPS : list (string * (Z * Z)) :=
  [ ("power_energy"%string, (0, 32));
    ("status_energy"%string, (32, 32));
    ("temperatures"%string, (64, 16));
    ("bms_data"%string, (80, 33));
    ("extended_data"%string, (113, 18));
    ("output_power"%string, (170, 2)) ].

Definition _MIDBOX_REGISTER_GROUPS : list (Z * Z) :=
  [ (0, 40); (40, 28); (68, 40); (108, 12); (128, 4) ].

(** [INPUT_REGISTER_GROUPS[name]], if [name in INPUT_REGISTER_GROUPS] *)
Fixpoint group_lookup (name : string) (groups : list (string * (Z * Z)))
    : option (Z * Z) :=
  match groups with
  | [] => None
  | (n, g) :: rest => if String.eqb name n then Some g else group_lookup name rest
  end.

Definition select_groups (group_names : option (list string))
    : list (string * (Z * Z)) :=
  match group_names with
  | None => INPUT_REGISTER_GROUPS
  | Some names =>
      omap (fun name => (fun g => (name, g)) <$> group_lookup name INPUT_REGISTER_GROUPS)
           names
  end.

(** The loop over the groups, with the addresses read so far and the
    current inter-group delay. *)
Fixpoint read_groups_loop (groups : list (string * (Z * Z)))
    (registers : gmap Z Z) (current_delay : Q) : M (gmap Z Z) :=
  match groups with
  | [] => ret registers
  | (group_name, (start, count)) :: rest =>
      values ← try_except (_read_input_registers start count)
                  (fun _ => true)
                  (fun e => raise (TransportReadError (MsgGroupFailed group_name) (Some e)));
      let registers := store_values start values registers in
      self ← get_self;
      let current_delay :=
        if last_read_retried self then Qmin (current_delay * 2) 1
        else current_delay in
      (match rest with
       | [] => ret tt
       | _ :: _ => emit (EvPace current_delay)
       end);;
      read_groups_loop rest registers current_delay
  end.

Definition _read_register_groups (group_names : option (list string))
    : M (gmap Z Z) :=
  let groups := select_groups group_names in
  reconnect_if_needed;;
  self ← get_self;
  read_groups_loop groups ∅ (inter_register_delay self).

(** ** Device data *)

Definition read_runtime : M RuntimeData :=
  input_registers ← _read_register_groups None;
  ret (runtime_from_modbus_registers input_registers).

(** [except (TransportReadError, TransportTimeoutError)] *)
Definition is_read_or_timeout (e : Exn) : bool :=
  match e with
  | TransportReadError _ _ | TransportTimeoutError _ _ => true
  | _ => false
  end.

Definition read_energy : M (list (string * option Q)) :=
  input_registers ← _read_register_groups
                      (Some ["power_energy"%string; "status_energy"%string]);
  input_registers ←
    try_except
      (bms_registers ← _read_register_groups (Some ["bms_data"%string]);
       ret (update input_registers bms_registers))
      is_read_or_timeout
      (fun _ => ret input_registers);
  ret (decode_record energy_register_map input_registers).

(** The loop [while remaining > 0] shared by [read_battery] and
    [read_parameters]; [fuel] bounds the number of iterations. *)
Fixpoint read_chunks (fuel : nat) (read : Z -> Z -> M (list Z))
    (current_addr remaining : Z) (result : gmap Z Z) : M (gmap Z Z) :=
  match fuel with
  | O => ret result
  | S fuel' =>
      if 0 <? remaining then
        let chunk_size := Z.min remaining 40 in
        values ← read current_addr chunk_size;
        let result := update result (_registers_from_values current_addr values) in
        read_chunks fuel' read (current_addr + chunk_size) (remaining - chunk_size) result
      else ret result
  end.

(** The first [try] block of [read_battery]: what it stored in
    [all_registers] before it finished or failed. *)
Definition read_runtime_window : M (gmap Z Z) :=
  try_except
    (runtime_regs_1 ← _read_input_registers 0 64;
     let all_registers := update ∅ (_registers_from_values 0 runtime_regs_1) in
     try_except
       (runtime_regs_2 ← _read_input_registers 64 64;
        ret (update all_registers (_registers_from_values 64 runtime_regs_2)))
       (fun _ => true)
       (fun _ => ret all_registers))
    (fun _ => true)
    (fun _ => ret ∅).

Definition read_individual (all_registers : gmap Z Z) (include_individual : bool)
    : M (option (gmap Z Z)) :=
  let battery_count := default 0 (all_registers !! 96) in
  if include_individual && (0 <? battery_count) then
    let batteries_to_read := Z.min battery_count INDIVIDUAL_BATTERY_MAX_COUNT in
    let total_registers := batteries_to_read * INDIVIDUAL_BATTERY_REGISTER_COUNT in
    try_except
      (regs ← read_chunks (Z.to_nat total_registers) _read_input_registers
                INDIVIDUAL_BATTERY_BASE_ADDRESS total_registers ∅;
       ret (Some regs))
      (fun _ => true)
      (fun _ => ret None)
  else ret None.

Definition read_battery (include_individual : bool) : M (option BatteryBankData) :=
  reconnect_if_needed;;
  all_registers ← read_runtime_window;
  individual_registers ← read_individual all_registers include_individual;
  ret (battery_from_modbus_registers battery_voltage NO_BATTERY_THRESHOLD
         all_registers individual_registers).

Definition read_parameters (start_address count : Z) : M (gmap Z Z) :=
  read_chunks (Z.to_nat count) _read_holding_registers start_address count ∅.

(** ** [write_parameters] *)

Definition sorted_items (parameters : gmap Z Z) : list (Z * Z) :=
  merge_sort item_le (map_to_list parameters).

(** The grouping loop, with its three variables. *)
Fixpoint group_consecutive (items : list (Z * Z)) (groups : list (Z * list Z))
    (current_start : option Z) (current_values : list Z) : list (Z * list Z) :=
  match items with
  | [] =>
      match current_start, current_values with
      | Some start, _ :: _ => groups ++ [(start, current_values)]
      | _, _ => groups
      end
  | (address, value) :: rest =>
      match current_start with
      | None => group_consecutive rest groups (Some address) [value]
      | Some start =>
          if address =? start + Z.of_nat (length current_values)
          then group_consecutive rest groups (Some start) (current_values ++ [value])
          else group_consecutive rest (groups ++ [(start, current_values)])
                 (Some address) [value]
      end
  end.

Definition write_groups (parameters : gmap Z Z) : list (Z * list Z) :=
  group_consecutive (sorted_items parameters) [] None [].

Fixpoint write_all (groups : list (Z * list Z)) : M unit :=
  match groups with
  | [] => ret tt
  | (start_address, values) :: rest =>
      _write_holding_registers start_address values;;
      write_all rest
  end.

Definition write_parameters (parameters : gmap Z Z) : M bool :=
  write_all (write_groups parameters);;
  ret true.

Definition read_midbox_runtime : M MidboxRuntimeData :=
  input_registers ←
    try_except
      ((fix loop (groups : list (Z * Z)) (input_registers : gmap Z Z) : M (gmap Z Z) :=
          match groups with
          | [] => ret input_registers
          | (start, count) :: rest =>
              values ← _read_input_registers start count;
              let input_registers :=
                update input_registers (_registers_from_values start values) in
              self ← get_self;
              (match rest with
               | [] => ret tt
               | _ :: _ => emit (EvPace (inter_register_delay self))
               end);;
              loop rest input_registers
          end) _MIDBOX_REGISTER_GROUPS ∅)
      (fun _ => true)
      (fun e => raise (TransportReadError MsgMidFailed (Some e)));
  ret (midbox_from_modbus_registers input_registers).

(** ** Device info *)

(** Modelled from the spec: the helpers of transports/_register_readers.py
    are not among the sources; each receives the register reader the
    transport hands it.  Sections 4.1, 4.5 and 6: the device-type code is
    one word at register 19; the firmware code is the four-word window
    at 7-10 and the serial number the window at 115, every word giving
    two ASCII bytes, low byte first, the firmware code trimmed.  The
    length of the serial window is the parameter
    [SERIAL_REGISTER_COUNT]. *)
Definition read_device_type_async (read_holding_registers : Z -> Z -> M (list Z))
    : M Z :=
  values ← read_holding_registers 19 1;
  match values with
  | v :: _ => ret v
  | [] => raise OtherException       (* IndexError *)
  end.

Definition read_serial_number_async (read_input_registers : Z -> Z -> M (list Z))
    (serial : string) : M string :=
  values ← read_input_registers 115 SERIAL_REGISTER_COUNT;
  ret (decode_ascii values).

(** The docstring of [read_firmware_version] promises the code "or empty
    string", and no exception. *)
Definition read_firmware_version_async (read_holding_registers : Z -> Z -> M (list Z))
    : M string :=
  try_except
    (values ← read_holding_registers 7 4;
     ret (strip (decode_ascii values)))
    (fun _ => true)
    (fun _ => ret ""%string).

Definition read_serial_number : M string :=
  self ← get_self;
  read_serial_number_async _read_input_registers (serial self).

Definition read_firmware_version : M string :=
  read_firmware_version_async _read_holding_registers.

Definition read_device_type : M Z :=
  read_device_type_async _read_holding_registers.

Definition validate_serial (expected_serial : string) : M bool :=
  actual_serial ← read_serial_number;
  ret (String.eqb actual_serial expected_serial).

End Transport.

(** ** What an observer reads off a log *)

Definition reads (ev : list Event) : list ReadRequest :=
  omap (fun e => match e with EvRead r => Some r | _ => None end) ev.

Definition writes (ev : list Event) : list WriteFrame :=
  omap (fun e => match e with EvWrite f => Some f | _ => None end) ev.

Definition paces (ev : list Event) : list Q :=
  omap (fun e => match e with EvPace q => Some q | _ => None end) ev.

Definition backoffs (ev : list Event) : list Q :=
  omap (fun e => match e with EvBackoff q => Some q | _ => None end) ev.

(** ** A simulated device

    Reads are answered from a script of outcomes while it lasts and from
    a register file afterwards; writes likewise from a script, then
    accepted. *)
Record Sim := mkSim {
  sim_reads : list ReadOutcome;
  sim_registers : Z -> Z;
  sim_writes : list WriteOutcome;
  sim_connects : bool
}.

Definition sim_window (regs : Z -> Z) (r : ReadRequest) : list Z :=
  (fun i => regs (rd_address r + Z.of_nat i)) <$> seq 0 (Z.to_nat (rd_count r)).

#[global] Instance sim_client : Client Sim := {|
  dev_read d r :=
    match sim_reads d with
    | o :: rest => (o, mkSim rest (sim_registers d) (sim_writes d) (sim_connects d))
    | [] => (Registers (sim_window (sim_registers d) r), d)
    end;
  dev_write d f :=
    match sim_writes d with
    | o :: rest => (o, mkSim (sim_reads d) (sim_registers d) rest (sim_connects d))
    | [] => (WriteAccepted, d)
    end;
  dev_connect d := (sim_connects d, d)
|}.

(** A transport built with the default arguments, after [connect]. *)
Definition connected_transport : Transport :=
  set_connected true (set_client true (init_transport "CE12345678")).

(** ** The retry policy, as an observer states it *)

(** The answers of the device to the same request asked [k] times in a
    row. *)
Fixpoint device_answers {Dev} `{!Client Dev} (d : Dev) (r : ReadRequest) (k : nat)
    : list ReadOutcome :=
  match k with
  | O => []
  | S k' => (dev_read d r).1 :: device_answers (dev_read d r).2 r k'
  end.

(** The error an attempt leaves in [last_err] when its failure is of a
    class the read path catches; [None] for a success and for an
    exception that passes through. *)
Definition caught_failure (input : bool) (address : Z) (o : ReadOutcome)
    : option Exn :=
  match attempt_outcome address o with
  | Ok _ => None
  | Raise e => classify_read_failure input address e
  end.

(** What the last attempt makes of the call. *)
Definition final_result (input : bool) (address : Z) (o : ReadOutcome)
    : Res (list Z) :=
  match attempt_outcome address o with
  | Ok regs => Ok regs
  | Raise e =>
      match classify_read_failure input address e with
      | Some err => Raise err
      | None => Raise e
      end
  end.

(** [failures] failed attempts from index [attempt] on, each followed by
    its backoff. *)
Fixpoint retry_log (t : Transport) (r : ReadRequest) (attempt : Z) (failures : nat)
    : list Event :=
  match failures with
  | O => []
  | S n =>
      EvRead r :: EvBackoff (retry_delay t * inject_Z (2 ^ attempt))
        :: retry_log t r (attempt + 1) n
  end.

(** The fields no read or write touches. *)
Definition same_settings (t t' : Transport) : Prop :=
  serial t' = serial t ∧ connected t' = connected t ∧ client t' = client t ∧
  unit_id t' = unit_id t ∧ retries t' = retries t ∧
  retry_delay t' = retry_delay t ∧
  inter_register_delay t' = inter_register_delay t ∧
  max_consecutive_errors t' = max_consecutive_errors t.

(** The claim that a Modbus exception response is never retried: when
    the first answer is one, a single request goes out. *)
Definition exception_response_not_retried {Dev} `{!Client Dev}
    (w : Transport * Dev) (address count : Z) (input : bool) : Prop :=
  (dev_read w.2 (mkRead input address (Z.min count 40) (unit_id w.1))).1
    = ErrorResponse ->
  length (reads (_read_registers address count input w).2) = 1%nat.

Definition always_error_device : Sim :=
  mkSim [ErrorResponse; ErrorResponse; ErrorResponse] (fun _ => 0) [] true.

(** ** Pacing, as an observer states it *)

(** The log cut at the inter-group sleeps: one segment per group read. *)
Fixpoint segments (ev : list Event) : list (list Event) :=
  match ev with
  | [] => [[]]
  | EvPace _ :: rest => [] :: segments rest
  | e :: rest =>
      match segments rest with
      | s :: ss => (e :: s) :: ss
      | [] => [[e]]
      end
  end.

(** A group read needed a retry when its request went out at least
    twice. *)
Definition retried (segment : list Event) : bool :=
  bool_decide (2 <= length (reads segment))%nat.

(** The sleeps the pacing rule prescribes between the segments, from the
    delay [d] on: doubled and capped at one second after a segment with
    a retry, unchanged otherwise, and none after the last segment. *)
Fixpoint pacing (d : Q) (segs : list (list Event)) : list Q :=
  match segs with
  | s :: ((_ :: _) as rest) =>
      let d' := if retried s then Qmin (d * 2) 1 else d in
      d' :: pacing d' rest
  | _ => []
  end.

(** The segment of one group: at least one request, and every request
    is the FC4 read of the group's window. *)
Definition segment_of_group (t : Transport) (segment : list Event)
    (g : string * (Z * Z)) : Prop :=
  reads segment <> [] /\
  Forall (fun r => r = mkRead true g.2.1 (Z.min g.2.2 40) (unit_id t))
         (reads segment).

(** A log made of attempts at one request and their backoffs. *)
Definition only_attempts (r : ReadRequest) (ev : list Event) : Prop :=
  Forall (fun e => e = EvRead r \/ exists q, e = EvBackoff q) ev.

(** A log without inter-group sleeps. *)
Definition no_pace (ev : list Event) : Prop :=
  Forall (fun e => forall q, e <> EvPace q) ev.

(** A log of a reconnection: the old client closed, a new one connected. *)
Definition connection_events (ev : list Event) : Prop :=
  Forall (fun e => e = EvConnect \/ e = EvClose) ev.

(** A request for at most 40 words. *)
Definition read_bounded (e : Event) : Prop :=
  match e with
  | EvRead r => rd_count r <= 40
  | _ => True
  end.

(** Requests that tile the window from [lo] up to [hi]: each starts where
    the one before ended, asks for 1 to 40 words, and the last one ends
    at [hi]. *)
Fixpoint tiles (lo hi : Z) (rs : list ReadRequest) : Prop :=
  match rs with
  | [] => hi <= lo
  | r :: rest =>
      rd_address r = lo /\ 0 < rd_count r <= 40 /\ lo + rd_count r <= hi /\
      tiles (lo + rd_count r) hi rest
  end.

(** A device that answers every read request with registers. *)
Definition answers_every_read {Dev} `{!Client Dev} : Prop :=
  forall (d : Dev) r, exists regs, (dev_read d r).1 = Registers regs.

(** A method all of whose read requests ask for at most 40 words. *)
Definition bounded {Dev : Type} {A} (m : @M Dev A) : Prop :=
  forall w, Forall read_bounded (m w).2.

(** The addresses of a run, paired with its values. *)
Definition expand (g : Z * list Z) : list (Z * Z) :=
  imap (fun i v => (g.1 + Z.of_nat i, v)) g.2.

(** Neighbouring runs that the grouping loop kept apart. *)
Fixpoint separated (groups : list (Z * list Z)) : Prop :=
  match groups with
  | g1 :: ((g2 :: _) as rest) =>
      g2.1 <> g1.1 + Z.of_nat (length g1.2) /\ separated rest
  | _ => True
  end.

(** [g1] ends, at least one free address follows, then [g2] starts. *)
Definition gap (g1 g2 : Z * list Z) : Prop :=
  g1.1 + Z.of_nat (length g1.2) < g2.1.

Definition address_lt (x y : Z * Z) : Prop := x.1 < y.1.

(** The addresses of a map that start a run: present, with the address
    just below absent. *)
Definition run_starts (parameters : gmap Z Z) : gset Z :=
  filter (fun a => a - 1 ∉ dom parameters) (dom parameters).

Definition frame_address (f : WriteFrame) : Z :=
  match f with
  | WriteSingle a _ _ | WriteMultiple a _ _ => a
  end.

Definition frame_values (f : WriteFrame) : list Z :=
  match f with
  | WriteSingle _ v _ => [v]
  | WriteMultiple _ vs _ => vs
  end.

(** A device that accepts every write. *)
Definition accepts_every_write {Dev} `{!Client Dev} : Prop :=
  forall (d : Dev) f, (dev_write d f).1 = WriteAccepted.

(** A device whose answers carry no more registers than were asked
    for. *)
Definition well_formed_answers {Dev} `{!Client Dev} : Prop :=
  forall (d : Dev) r regs,
    (dev_read d r).1 = Registers regs ->
    (length regs <= Z.to_nat (rd_count r))%nat.

(** ** The IP-range parser of the scanner *)

(** Modelled from the spec: [parse_ip_range] of scanner/utils.py is not
    among the sources; its tests (tests/scanner/test_utils.py and
    tests/unit/scanner/test_utils.py) are.  The model follows section
    4.6 of the spec (CIDR, dash range or single address; IPv6, public
    ranges, more than [MAX_SAFE_HOSTS] hosts, reversed and cross-subnet
    dash ranges rejected) and, for the hosts of a network, the
    enumeration the tests pin down: a /24 has 254 hosts, a /30 two, a
    /32 its one address.  The bridge tolerance of dash ranges, which
    the spec leaves open, is a parameter.  Addresses are 32-bit
    numbers; [format_ip] prints them. *)

Inductive ConfigError :=
| IPv6NotSupported          (* "IPv6 scanning is not supported" *)
| InvalidIPRange            (* "Invalid IP range ..." *)
| InvalidIPInRange          (* "Invalid IP in range ..." *)
| OnlyPrivateAllowed        (* "Only private IP ranges are allowed" *)
| TooManyHosts (n : Z)      (* "... contains n hosts (max ...)" *)
| StartAfterEnd             (* "Start IP must be <= end IP" *)
| SpansSubnets.             (* "Dash range spans multiple subnets" *)

Inductive ParseResult :=
| Hosts (hosts : list Z)
| Rejected (e : ConfigError).

Definition MAX_SAFE_HOSTS : Z := 4094.

Fixpoint split_on (c : ascii) (l : list ascii) : list (list ascii) :=
  match l with
  | [] => [[]]
  | x :: rest =>
      if Ascii.eqb x c then [] :: split_on c rest
      else match split_on c rest with
           | s :: ss => (x :: s) :: ss
           | [] => [[x]]
           end
  end.

Definition digit (c : ascii) : option Z :=
  let n := Z.of_N (N_of_ascii c) in
  if (48 <=? n) && (n <=? 57) then Some (n - 48) else None.

Fixpoint decimal_from (acc : Z) (l : list ascii) : option Z :=
  match l with
  | [] => Some acc
  | c :: rest =>
      match digit c with
      | Some d => decimal_from (acc * 10 + d) rest
      | None => None
      end
  end.

Definition parse_decimal (l : list ascii) : option Z :=
  match l with
  | [] => None
  | _ => if (length l <=? 3)%nat then decimal_from 0 l else None
  end.

Definition parse_octet (l : list ascii) : option Z :=
  match parse_decimal l with
  | Some n => if n <=? 255 then Some n else None
  | None => None
  end.

(** A dotted quad, as a 32-bit number. *)
Definition parse_ipv4 (l : list ascii) : option Z :=
  match split_on "." l with
  | [a; b; c; d] =>
      match parse_octet a, parse_octet b, parse_octet c, parse_octet d with
      | Some a, Some b, Some c, Some d => Some (((a * 256 + b) * 256 + c) * 256 + d)
      | _, _, _, _ => None
      end
  | _ => None
  end.

(** [a.b.c.d/p] *)
Definition parse_cidr (l : list ascii) : option (Z * Z) :=
  match split_on "/" l with
  | [ip; prefix] =>
      match parse_ipv4 ip, parse_decimal prefix with
      | Some ip, Some p => if p <=? 32 then Some (ip, p) else None
      | _, _ => None
      end
  | _ => None
  end.

Definition network_address (ip prefix : Z) : Z :=
  ip - ip mod 2 ^ (32 - prefix).

Definition broadcast_address (ip prefix : Z) : Z :=
  network_address ip prefix + 2 ^ (32 - prefix) - 1.

(** RFC 1918 and the carrier-grade NAT block 100.64.0.0/10. *)
Definition private_blocks : list (Z * Z) :=
  [ (167772160, 8);      (* 10.0.0.0/8 *)
    (2886729728, 12);    (* 172.16.0.0/12 *)
    (3232235520, 16);    (* 192.168.0.0/16 *)
    (1681915904, 10) ].  (* 100.64.0.0/10 *)

Definition in_block (lo hi : Z) (block : Z * Z) : bool :=
  (network_address block.1 block.2 <=? lo) && (hi <=? broadcast_address block.1 block.2).

Definition is_private_range (lo hi : Z) : bool :=
  existsb (in_block lo hi) private_blocks.

(** The hosts of a network: everything between the network and the
    broadcast address; both addresses of a /31; the address of a /32. *)
Definition cidr_hosts (ip prefix : Z) : list Z :=
  let network := network_address ip prefix in
  let broadcast := broadcast_address ip prefix in
  if prefix =? 32 then [network]
  else if prefix =? 31 then [network; broadcast]
  else seqZ (network + 1) (broadcast - network - 1).

Definition host_count (prefix : Z) : Z :=
  if prefix =? 32 then 1
  else if prefix =? 31 then 2
  else 2 ^ (32 - prefix) - 2.

Definition parse_ip_range (within_bridge_tolerance : Z -> Z -> bool)
    (ip_range : string) : ParseResult :=
  let s := list_ascii_of_string (strip ip_range) in
  if existsb (Ascii.eqb ":") s then Rejected IPv6NotSupported
  else if existsb (Ascii.eqb "/") s then
    match parse_cidr s with
    | None => Rejected InvalidIPRange
    | Some (ip, prefix) =>
        if negb (is_private_range (network_address ip prefix)
                   (broadcast_address ip prefix))
        then Rejected OnlyPrivateAllowed
        else if MAX_SAFE_HOSTS <? host_count prefix
        then Rejected (TooManyHosts (host_count prefix))
        else Hosts (cidr_hosts ip prefix)
    end
  else if existsb (Ascii.eqb "-") s then
    match split_on "-" s with
    | [lo; hi] =>
        match parse_ipv4 (list_ascii_of_string (strip (string_of_list_ascii lo))),
              parse_ipv4 (list_ascii_of_string (strip (string_of_list_ascii hi))) with
        | Some lo, Some hi =>
            if negb (is_private_range lo lo && is_private_range hi hi)
            then Rejected OnlyPrivateAllowed
            else if hi <? lo then Rejected StartAfterEnd
            else if MAX_SAFE_HOSTS <? hi - lo + 1
            then Rejected (TooManyHosts (hi - lo + 1))
            else if negb (within_bridge_tolerance lo hi) then Rejected SpansSubnets
            else Hosts (seqZ lo (hi - lo + 1))
        | _, _ => Rejected InvalidIPInRange
        end
    | _ => Rejected InvalidIPRange
    end
  else
    match parse_ipv4 s with
    | Some ip =>
        if is_private_range ip ip then Hosts [ip] else Rejected OnlyPrivateAllowed
    | None => Rejected InvalidIPRange
    end.

Definition format_ip (a : Z) : string :=
  pretty (a / 16777216) +:+ "." +:+ pretty (a / 65536 mod 256) +:+ "."
    +:+ pretty (a / 256 mod 256) +:+ "." +:+ pretty (a mod 256).

(** The claim that every CIDR input leaves the network and the broadcast
    address out of the host list. *)
Definition cidr_excludes_network_and_broadcast
    (within_bridge_tolerance : Z -> Z -> bool) (ip_range : string) : Prop :=
  forall ip prefix hosts,
    parse_cidr (list_ascii_of_string (strip ip_range)) = Some (ip, prefix) ->
    parse_ip_range within_bridge_tolerance ip_range = Hosts hosts ->
    (network_address ip prefix ∉ hosts) /\ (broadcast_address ip prefix ∉ hosts).

(** ** A well-behaved device

    A file of input registers and one of holding registers: every read
    is answered with exactly the words asked for, every write is
    accepted and stored, every connection attempt succeeds. *)
Record RegisterFile := mkFile {
  input_file : Z -> Z;
  holding_file : Z -> Z
}.

Fixpoint file_store (start : Z) (values : list Z) (regs : Z -> Z) : Z -> Z :=
  match values with
  | [] => regs
  | v :: vs =>
      file_store (start + 1) vs (fun a => if a =? start then v else regs a)
  end.

#[global] Instance register_file_client : Client RegisterFile := {|
  dev_read d r :=
    (Registers (sim_window (if rd_input r then input_file d else holding_file d) r), d);
  dev_write d f :=
    (WriteAccepted,
     match f with
     | WriteSingle a v _ => mkFile (input_file d) (file_store a [v] (holding_file d))
     | WriteMultiple a vs _ => mkFile (input_file d) (file_store a vs (holding_file d))
     end);
  dev_connect d := (true, d)
|}.

(** ** Register maps for the examples

    The figures the spec gives: the bank voltage at register 4 in tenths
    of a volt (section 8, scenario 1), a no-battery threshold of 5 V
    (section 3), ten battery modules (section 4.1), and the five-word
    serial window that the docstring of [read_serial_number] names.  The
    energy table holds one field of the primary windows and one of the
    BMS window; the runtime records are left raw. *)
Definition example_maps : RegisterMaps := {|
  RuntimeData := gmap Z Z;
  runtime_from_modbus_registers := id;
  MidboxRuntimeData := gmap Z Z;
  midbox_from_modbus_registers := id;
  energy_register_map :=
    [ mkDef "pv1_energy_today" 28 Bits16 Unsigned SCALE_10;
      mkDef "bms_passthrough_energy" 90 Bits16 Unsigned SCALE_10 ];
  battery_voltage := mkDef "battery_voltage" 4 Bits16 Unsigned SCALE_10;
  NO_BATTERY_THRESHOLD := 5;
  INDIVIDUAL_BATTERY_MAX_COUNT := 10;
  SERIAL_REGISTER_COUNT := 5
|}.

(** ** Inputs of the examples *)

(** Times out, then answers with an exception response, then answers. *)
Definition flaky_device : Sim :=
  mkSim [Raises TimeoutError; ErrorResponse] (fun a => a) [] true.

(** Answers nothing but timeouts to the first three requests. *)
Definition silent_device : Sim :=
  mkSim [Raises TimeoutError; Raises TimeoutError; Raises TimeoutError]
        (fun _ => 0) [] true.

(** An inverter "CE12345678" with device-type code 2092 and firmware
    code "FAAB". *)
Definition identity_device : RegisterFile :=
  mkFile
    (fun a => if a =? 115 then 17731 else if a =? 116 then 12849
              else if a =? 117 then 13363 else if a =? 118 then 13877
              else if a =? 119 then 14391 else 0)
    (fun a => if a =? 19 then 2092 else if a =? 7 then 16710
              else if a =? 8 then 16961 else if a =? 9 then 8224
              else if a =? 10 then 8224 else 0).

(** No bank voltage, yet a battery count of one in register 96. *)
Definition no_battery_device : RegisterFile :=
  mkFile (fun a => if a =? 96 then 1 else 0) (fun _ => 0).

(** The parameter map of the coalescing scenario (section 8,
    scenario 2). *)
Definition scenario_parameters : gmap Z Z :=
  <[10 := 1]> (<[11 := 2]> (<[12 := 3]> (<[20 := 9]> ∅))).

(** ** The claims that fail, as they are stated *)

(** Every request of [read_serial_number] is a holding-register read
    (function code 3). *)
Definition serial_read_from_holding_registers {Dev} `{!Client Dev} `{!RegisterMaps}
    (w : Transport * Dev) : Prop :=
  Forall (fun r => function_code r = 3) (reads (read_serial_number w).2).

(** With the bank voltage below the threshold, [read_battery] returns
    [None] and asks for nothing at address 5000 or above. *)
Definition no_battery_no_individual_read {Dev} `{!Client Dev} `{!RegisterMaps}
    (w : Transport * Dev) : Prop :=
  forall all_registers v,
    (read_runtime_window w).1.1 = Ok all_registers ->
    decode_field all_registers battery_voltage = Some v ->
    (v < NO_BATTERY_THRESHOLD)%Q ->
    (read_battery true w).1.1 = Ok None /\
    Forall (fun r => rd_address r < INDIVIDUAL_BATTERY_BASE_ADDRESS)
           (reads (read_battery true w).2).

(** ** Writes, as an observer states them *)

(** The answers of the device to a sequence of write frames, each sent
    to the device the one before left. *)
Fixpoint write_answers {Dev} `{!Client Dev} (d : Dev) (frames : list WriteFrame)
    : list WriteOutcome :=
  match frames with
  | [] => []
  | f :: rest => (dev_write d f).1 :: write_answers (dev_write d f).2 rest
  end.

(** The number of answers before the first one that is not an
    acceptance. *)
Fixpoint accepted_prefix (answers : list WriteOutcome) : nat :=
  match answers with
  | WriteAccepted :: rest => S (accepted_prefix rest)
  | _ => O
  end.

(** The frames [write_parameters] has to send for a parameter map. *)
Definition parameter_frames (parameters : gmap Z Z) (device_id : Z) : list WriteFrame :=
  (fun g => write_frame g.1 g.2 device_id) <$> write_groups parameters.

(** What [_write_holding_registers] makes of an answer. *)
Definition write_result (address : Z) (o : WriteOutcome) : Res bool :=
  match o with
  | WriteAccepted => Ok true
  | WriteErrorResponse => Raise (TransportWriteError (MsgModbusWriteError address) None)
  | WriteRaises e => Raise (classify_write_failure address e)
  end.

(** A device that answers every read with as many words as the request
    asks for. *)
Definition answers_in_full {Dev} `{!Client Dev} : Prop :=
  forall (d : Dev) r,
    exists regs, (dev_read d r).1 = Registers regs /\
                 length regs = Z.to_nat (rd_count r).

(** The time a list of sleeps takes. *)
Definition total_sleep (sleeps : list Q) : Q := foldr Qplus 0%Q sleeps.

(** An event that is neither the closing of the client nor a connection
    attempt. *)
Definition not_connection (e : Event) : Prop :=
  e <> EvConnect /\ e <> EvClose.

(** A method that logs only events satisfying [P]. *)
Definition logs_only {Dev : Type} {A} (P : Event -> Prop) (m : @M Dev A) : Prop :=
  forall w, Forall P (m w).2.



(** The log of a batch in which every group is read at the first
    attempt: one request per group, a sleep of the configured delay
    between two groups. *)
Fixpoint undisturbed_log (t : Transport) (groups : list (string * (Z * Z)))
    : list Event :=
  match groups with
  | [] => []
  | (_, (start, count)) :: rest =>
      EvRead (mkRead true start (Z.min count 40) (unit_id t))
        :: match rest with
           | [] => []
           | _ :: _ => EvPace (inter_register_delay t) :: undisturbed_log t rest
           end
  end.

(** ** More inputs of the examples *)

(** Refuses the first write with an exception response. *)
Definition refusing_device : Sim :=
  mkSim [] (fun _ => 0) [WriteErrorResponse] true.

(** Lets the first write time out. *)
Definition slow_writer : Sim :=
  mkSim [] (fun _ => 0) [WriteRaises TimeoutError] true.

(** A transport built with [retries=-1], after [connect]. *)
Definition transport_without_attempts : Transport :=
  {| serial := "CE12345678"; connected := true; client := true; unit_id := 1;
     retries := -1; retry_delay := 1 # 2; inter_register_delay := 1 # 20;
     consecutive_errors := 0; max_consecutive_errors := 3;
     last_read_retried := false |}.

(** * Facts *)

Ltac munfold :=
  unfold mbind, M_bind, mret, M_ret, bind, ret, raise, get_self, modify_self,
    emit, client_read, client_write, try_except in *.

Section TransportFacts.

Context {Dev : Type} `{!Client Dev} `{!RegisterMaps}.

Implicit Types (t : Transport) (d : Dev) (w : Transport * Dev).

Lemma bind_run {A B} (m : M A) (k : A -> M B) w :
  (m ≫= k) w =
  match m w with
  | (Ok a, w1, ev1) => let '(r, w2, ev2) := k a w1 in (r, w2, ev1 ++ ev2)
  | (Raise e, w1, ev1) => (Raise e, w1, ev1)
  end.
Proof. reflexivity. Qed.

Lemma same_settings_refl t : same_settings t t.
Proof. by repeat split. Qed.

Lemma same_settings_trans t1 t2 t3 :
  same_settings t1 t2 -> same_settings t2 t3 -> same_settings t1 t3.
Proof. unfold same_settings. intuition congruence. Qed.

Lemma same_settings_refl' t t' :
  serial t' = serial t -> connected t' = connected t -> client t' = client t ->
  unit_id t' = unit_id t -> retries t' = retries t ->
  retry_delay t' = retry_delay t ->
  inter_register_delay t' = inter_register_delay t ->
  max_consecutive_errors t' = max_consecutive_errors t ->
  same_settings t t'.
Proof. by repeat split. Qed.

Lemma retry_log_ext t t' r attempt failures :
  retry_delay t = retry_delay t' ->
  retry_log t r attempt failures = retry_log t' r attempt failures.
Proof.
  intros Heq. revert attempt.
  induction failures as [|n IH]; intros attempt; cbn; [done|].
  by rewrite Heq, IH.
Qed.

Lemma read_attempts_step address count input todo attempt last_err t d :
  read_attempts (S todo) attempt address count input last_err (t, d) =
  let req := mkRead input address (Z.min count 40) (unit_id t) in
  match attempt_outcome address (dev_read d req).1 with
  | Ok regs => (Ok regs, (set_consecutive_errors 0 t, (dev_read d req).2), [EvRead req])
  | Raise e =>
      match classify_read_failure input address e with
      | None => (Raise e, (t, (dev_read d req).2), [EvRead req])
      | Some err =>
          let t1 := set_consecutive_errors (consecutive_errors t + 1) t in
          if attempt <? retries t then
            let '(r, w2, ev2) :=
              read_attempts todo (attempt + 1) address count input (Some err)
                (set_last_read_retried true t1, (dev_read d req).2) in
            (r, w2, EvRead req :: EvBackoff (retry_delay t * inject_Z (2 ^ attempt)) :: ev2)
          else
            let '(r, w2, ev2) :=
              read_attempts todo (attempt + 1) address count input (Some err)
                (t1, (dev_read d req).2) in
            (r, w2, EvRead req :: ev2)
      end
  end.
Proof.
  cbn [read_attempts]. munfold. cbn [fst snd].
  destruct (dev_read d _) as [o d1]. cbn [fst snd].
  destruct (attempt_outcome address o) as [regs|e]; [done|].
  destruct (classify_read_failure input address e) as [err|]; [|done].
  cbn [fst snd retries retry_delay set_consecutive_errors].
  destruct (attempt <? retries t); cbn [fst snd app];
    destruct (read_attempts _ _ _ _ _ _ _) as [[r w2] ev2]; done.
Qed.

Ltac settle_attempt Hone :=
  first
    [ exact Hone
    | by apply same_settings_refl'
    | by (cbn; rewrite orb_false_r)
    | by (unfold caught_failure; intros [? ?];
          repeat match goal with H : _ = _ |- _ => rewrite H in * end)
    | by (unfold final_result;
          repeat match goal with H : _ = _ |- _ => rewrite H in * end)
    | by (intros ? ?; unfold final_result in *;
          repeat match goal with H : _ = _ |- _ => rewrite H in * end)
    | by constructor
    | (cbn; lia) ].

Lemma read_attempts_spec address count input todo :
  forall attempt last_err t d,
    todo <> O -> Z.of_nat todo + attempt = retries t + 1 ->
    let req := mkRead input address (Z.min count 40) (unit_id t) in
    exists outcomes o_last t' d',
      device_answers d req (S (length outcomes)) = outcomes ++ [o_last] /\
      (length outcomes < todo)%nat /\
      Forall (fun o => is_Some (caught_failure input address o)) outcomes /\
      (is_Some (caught_failure input address o_last) ->
       S (length outcomes) = todo) /\
      read_attempts todo attempt address count input last_err (t, d)
        = (final_result input address o_last, (t', d'),
           retry_log t req attempt (length outcomes) ++ [EvRead req]) /\
      same_settings t t' /\
      last_read_retried t'
        = last_read_retried t || bool_decide (outcomes <> []) /\
      (forall regs, final_result input address o_last = Ok regs ->
         consecutive_errors t' = 0).
Proof.
  induction todo as [|todo IH]; intros attempt last_err t d Hne Hsum req; [done|].
  rewrite read_attempts_step. fold req. cbv zeta.
  destruct (dev_read d req) as [o d1] eqn:Hrd. cbn [fst snd].
  assert (Hone : device_answers d req 1 = [o]) by (cbn; by rewrite Hrd).
  destruct (caught_failure input address o) as [err|] eqn:Hc.
  - (* a failure of a caught class *)
    unfold caught_failure in Hc.
    destruct (attempt_outcome address o) as [regs|e] eqn:Ho; [done|].
    rewrite Hc.
    destruct todo as [|todo'].
    + (* the last attempt *)
      exists [], o, (set_consecutive_errors (consecutive_errors t + 1) t), d1.
      assert ((attempt <? retries t) = false) as -> by (apply Z.ltb_ge; lia).
      cbn [read_attempts raise_last]. unfold raise.
      split_and!; settle_attempt Hone.
    + assert ((attempt <? retries t) = true) as -> by (apply Z.ltb_lt; lia).
      set (t1 := set_last_read_retried true
                   (set_consecutive_errors (consecutive_errors t + 1) t)).
      destruct (IH (attempt + 1) (Some err) t1 d1) as
        (outcomes & o_last & t' & d' & Hans & Hlen & Hall & Hfull & Hrun & Hset & Hflag & Herr);
        [done | cbn; lia |].
      change (unit_id t1) with (unit_id t) in Hans, Hrun. fold req in Hans, Hrun.
      exists (o :: outcomes), o_last, t', d'.
      split_and!.
      * change (device_answers d req (S (length (o :: outcomes))))
          with ((dev_read d req).1
                  :: device_answers (dev_read d req).2 req (S (length outcomes))).
        rewrite Hrd. cbn [fst snd]. by rewrite Hans.
      * cbn; lia.
      * constructor; [|done]. unfold caught_failure. rewrite Ho, Hc. eauto.
      * intros H'. cbn. f_equal. by apply Hfull.
      * rewrite Hrun. by rewrite (retry_log_ext t1 t).
      * apply Hset.
      * rewrite Hflag. cbn. by rewrite orb_true_r.
      * done.
  - (* a success, or an exception that passes through *)
    exists [], o.
    unfold caught_failure in Hc.
    destruct (attempt_outcome address o) as [regs|e] eqn:Ho.
    + exists (set_consecutive_errors 0 t), d1.
      split_and!; settle_attempt Hone.
    + rewrite Hc. exists t, d1.
      split_and!; settle_attempt Hone.
Qed.

Lemma only_attempts_retry_log t r attempt n :
  only_attempts r (retry_log t r attempt n ++ [EvRead r]).
Proof.
  revert attempt. induction n as [|n IH]; intros attempt; cbn.
  - repeat constructor.
  - constructor; [by left|]. constructor; [right; eauto|]. apply IH.
Qed.

Lemma reads_retry_log t r attempt n :
  reads (retry_log t r attempt n ++ [EvRead r]) = replicate (S n) r.
Proof.
  revert attempt. induction n as [|n IH]; intros attempt; cbn; [done|].
  f_equal. apply IH.
Qed.

Lemma read_registers_unfold address count input t d :
  _read_registers address count input (t, d) =
  if connected t then
    if client t then
      read_attempts (Z.to_nat (retries t + 1)) 0 address count input None
        (set_last_read_retried false t, d)
    else (Raise (TransportConnectionError MsgClientNotInitialized None), (t, d), [])
  else (Raise (TransportConnectionError MsgNotConnected None), (t, d), []).
Proof.
  unfold _read_registers, _ensure_connected, check_client. munfold. cbn [fst snd].
  destruct (connected t); [|done]. cbn [fst snd].
  destruct (client t); [|done]. cbn [fst snd retries set_last_read_retried].
  by destruct (read_attempts _ _ _ _ _ _ _) as [[r w2] ev2].
Qed.

(** What every call of [_read_registers] guarantees, whatever the device
    does. *)
Lemma read_registers_cases address count input t d :
  let req := mkRead input address (Z.min count 40) (unit_id t) in
  exists r t' d' ev,
    _read_registers address count input (t, d) = (r, (t', d'), ev) /\
    same_settings t t' /\
    only_attempts req ev /\
    (forall regs, r = Ok regs ->
       reads ev <> [] /\
       last_read_retried t' = bool_decide (2 <= length (reads ev))%nat).
Proof.
  intros req. rewrite read_registers_unfold.
  destruct (connected t) eqn:Hconn; [destruct (client t) eqn:Hcl|].
  - destruct (Z.to_nat (retries t + 1)) as [|todo] eqn:Htodo.
    + eexists _, _, _, _. cbn. unfold raise. split_and!; [reflexivity | | constructor | intros ? [=]].
      by apply same_settings_refl'.
    + destruct (read_attempts_spec address count input (S todo) 0 None
                  (set_last_read_retried false t) d)
        as (outcomes & o_last & t' & d' & _ & _ & _ & _ & Hrun & Hset & Hflag & _);
        [done | cbn; lia |].
      cbn [unit_id set_last_read_retried] in Hrun. fold req in Hrun.
      eexists _, t', d', _. split; [exact Hrun|].
      split_and!.
      * destruct Hset as (?&?&?&?&?&?&?&?). by apply same_settings_refl'.
      * apply only_attempts_retry_log.
      * intros regs _. rewrite Hflag, reads_retry_log, length_replicate. cbn.
        split; [done|].
        destruct outcomes; cbn [length]; repeat case_bool_decide;
          cbn in *; first [done | lia | congruence].
  - eexists _, _, _, _. split_and!; [reflexivity | apply same_settings_refl | constructor | intros ? [=]].
  - eexists _, _, _, _. split_and!; [reflexivity | apply same_settings_refl | constructor | intros ? [=]].
Qed.

Lemma device_answers_last d r n l o :
  device_answers d r (S n) = l ++ [o] -> exists d0, (dev_read d0 r).1 = o.
Proof.
  revert d l. induction n as [|n IH]; intros d l Hans.
  - cbn in Hans. destruct l as [|o' [|? ?]]; try done.
    injection Hans as <-. eauto.
  - change (device_answers d r (S (S n)))
      with ((dev_read d r).1 :: device_answers (dev_read d r).2 r (S n)) in Hans.
    destruct l as [|o' l].
    + cbn in Hans. injection Hans as _ Hnil. done.
    + cbn in Hans. injection Hans as _ Hrest. by eapply IH.
Qed.

(** What a successful call of [_read_registers] tells. *)
Lemma read_registers_ok address count input t d regs t' d' ev :
  _read_registers address count input (t, d) = (Ok regs, (t', d'), ev) ->
  connected t = true /\ client t = true /\ 0 <= retries t /\
  consecutive_errors t' = 0 /\
  exists d0, (dev_read d0 (mkRead input address (Z.min count 40) (unit_id t))).1
             = Registers regs.
Proof.
  rewrite read_registers_unfold.
  destruct (connected t); [|done]. destruct (client t); [|done].
  destruct (Z.to_nat (retries t + 1)) as [|todo] eqn:Htodo; [done|].
  destruct (read_attempts_spec address count input (S todo) 0 None
              (set_last_read_retried false t) d)
    as (outcomes & o_last & t1 & d1 & Hans & _ & _ & _ & Hrun & _ & _ & Herr);
    [done | cbn; lia |].
  rewrite Hrun. intros [= Hres <- <- <-].
  split_and!; [done | done | lia | by eapply Herr |].
  apply device_answers_last in Hans as [d0 Hd0]. exists d0.
  cbn [unit_id set_last_read_retried] in Hd0. rewrite Hd0.
  unfold final_result in Hres. destruct o_last; cbn in Hres; try done.
  - by injection Hres as ->.
  - destruct (classify_read_failure _ _ _); done.
Qed.

(** A call on a connected transport puts its request on the wire. *)
Lemma read_registers_issues address count input t d :
  connected t = true -> client t = true -> 0 <= retries t ->
  mkRead input address (Z.min count 40) (unit_id t)
    ∈ reads (_read_registers address count input (t, d)).2.
Proof.
  intros Hconn Hcl Hret. rewrite read_registers_unfold, Hconn, Hcl.
  destruct (read_attempts_spec address count input (Z.to_nat (retries t + 1)) 0 None
              (set_last_read_retried false t) d)
    as (outcomes & o_last & t1 & d1 & _ & _ & _ & _ & Hrun & _);
    [lia | cbn; lia |].
  rewrite Hrun. cbn [snd unit_id set_last_read_retried].
  rewrite reads_retry_log. cbn. by left.
Qed.

(** ** The retry policy of [_read_registers] *)

(** Claim C1, as the code has it.  On a connected transport with a
    retry count of at most 1024 (the attempt indices for which Python
    can form the float backoff [retry_delay * 2**attempt])
    [_read_registers] sends the same request, of [min count 40] words,
    until the device gives an answer that is not a caught failure or
    [retries + 1] attempts have been made ([retries] is 2 by default).
    The caught failures are the transient ones (a timeout, an I/O error)
    and also a Modbus exception response and a response without
    registers: each of them is retried.  The retry after attempt [i]
    (from 0) waits [retry_delay * 2^i] first.  An exception of another
    class propagates at once.  When every attempt fails only the error
    of the last one is raised, and where the transport wraps an
    exception of the client that exception is its cause. *)
Theorem read_registers_retry_policy address count input t d :
  connected t = true -> client t = true -> 0 <= retries t <= 1024 ->
  let req := mkRead input address (Z.min count 40) (unit_id t) in
  let run := _read_registers address count input (t, d) in
  exists outcomes o_last,
    device_answers d req (S (length outcomes)) = outcomes ++ [o_last] /\
    (length outcomes <= Z.to_nat (retries t))%nat /\
    Forall (fun o => is_Some (caught_failure input address o)) outcomes /\
    (is_Some (caught_failure input address o_last) ->
     length outcomes = Z.to_nat (retries t)) /\
    run.2 = retry_log t req 0 (length outcomes) ++ [EvRead req] /\
    run.1.1 = final_result input address o_last /\
    (o_last = ErrorResponse ->
     run.1.1 = Raise (TransportReadError (MsgModbusReadError address) None)) /\
    (forall e err, o_last = Raises e -> classify_read_failure input address e = Some err ->
     run.1.1 = Raise err /\ (err = e \/ cause_of err = Some e)).
Proof.
  intros Hconn Hcl [Hret _] req run. subst run.
  rewrite read_registers_unfold, Hconn, Hcl.
  destruct (read_attempts_spec address count input (Z.to_nat (retries t + 1)) 0 None
              (set_last_read_retried false t) d)
    as (outcomes & o_last & t' & d' & Hans & Hlen & Hall & Hfull & Hrun & _ & _ & _);
    [lia | cbn; lia |].
  cbn [unit_id set_last_read_retried] in Hrun, Hans. fold req in Hrun, Hans.
  exists outcomes, o_last. rewrite Hrun. cbn [fst snd].
  split_and!; [done | lia | done | | | done | | ].
  - intros H'. apply Hfull in H'. lia.
  - by rewrite (retry_log_ext (set_last_read_retried false t) t).
  - by intros ->.
  - intros e err -> Hcls. unfold final_result. cbn. rewrite Hcls. split; [done|].
    destruct e; cbn in Hcls; try discriminate;
      repeat match goal with
             | H : context [if ?b then _ else _] |- _ => destruct b
             end; inversion Hcls; subst; cbn; eauto.
Qed.

End TransportFacts.

Section PacingFacts.

Context {Dev : Type} `{!Client Dev} `{!RegisterMaps}.

Implicit Types (t : Transport) (d : Dev) (w : Transport * Dev).

Lemma only_attempts_no_pace r ev : only_attempts r ev -> no_pace ev.
Proof.
  intros Hev. eapply Forall_impl; [exact Hev|].
  intros e [->|[q ->]] q'; discriminate.
Qed.

Lemma segments_no_pace ev : no_pace ev -> segments ev = [ev].
Proof.
  induction 1 as [|e ev He _ IH]; [done|].
  cbn. rewrite IH. destruct e; try done. by destruct (He seconds).
Qed.

Lemma segments_nonempty ev : segments ev <> [].
Proof.
  destruct ev as [|e ev]; cbn; [done|].
  destruct e; try done; by destruct (segments ev).
Qed.

Lemma segments_cons e ev :
  (forall q, e <> EvPace q) ->
  segments (e :: ev) = (e :: hd [] (segments ev)) :: tl (segments ev).
Proof.
  intros He. pose proof (segments_nonempty ev) as Hne. cbn.
  destruct (segments ev) as [|s ss]; [done|].
  destruct e; try done. by destruct (He seconds).
Qed.

Lemma segments_app_no_pace ev0 ev :
  no_pace ev0 ->
  segments (ev0 ++ ev) = (ev0 ++ hd [] (segments ev)) :: tl (segments ev).
Proof.
  induction 1 as [|e ev0 He _ IH].
  - pose proof (segments_nonempty ev). cbn. by destruct (segments ev).
  - cbn [app]. rewrite segments_cons by done. by rewrite IH.
Qed.

Lemma segments_app_pace ev1 q ev2 :
  no_pace ev1 -> segments (ev1 ++ EvPace q :: ev2) = ev1 :: segments ev2.
Proof.
  intros H1. rewrite segments_app_no_pace by done. cbn. by rewrite app_nil_r.
Qed.

Lemma paces_no_pace ev : no_pace ev -> paces ev = [].
Proof.
  induction 1 as [|e ev He _ IH]; [done|].
  unfold paces in *. cbn. rewrite IH. destruct e; try done. by destruct (He seconds).
Qed.

Lemma paces_app ev1 ev2 : paces (ev1 ++ ev2) = paces ev1 ++ paces ev2.
Proof. apply omap_app. Qed.

Lemma reads_app ev1 ev2 : reads (ev1 ++ ev2) = reads ev1 ++ reads ev2.
Proof. apply omap_app. Qed.

Lemma read_groups_loop_step name start count rest regs dly t d :
  read_groups_loop ((name, (start, count)) :: rest) regs dly (t, d) =
  match _read_registers start count true (t, d) with
  | (Raise e, w1, ev1) =>
      (Raise (TransportReadError (MsgGroupFailed name) (Some e)), w1, ev1)
  | (Ok values, w1, ev1) =>
      let dly' := if last_read_retried w1.1 then Qmin (dly * 2) 1 else dly in
      match rest with
      | [] => (Ok (store_values start values regs), w1, ev1)
      | _ :: _ =>
          let '(r, w2, ev2) :=
            read_groups_loop rest (store_values start values regs) dly' w1 in
          (r, w2, ev1 ++ EvPace dly' :: ev2)
      end
  end.
Proof.
  cbn [read_groups_loop]. unfold _read_input_registers. munfold.
  destruct (_read_registers start count true (t, d)) as [[[values|e] w1] ev1].
  - cbn [fst snd]. destruct rest as [|g rest'].
    + cbn. by rewrite !app_nil_r.
    + cbn [app]. destruct (read_groups_loop _ _ _ _) as [[r w2] ev2]. done.
  - cbn. by rewrite app_nil_r.
Qed.

Lemma only_attempts_reads r ev : only_attempts r ev -> Forall (eq r) (reads ev).
Proof.
  induction 1 as [|e ev He _ IH]; [constructor|].
  destruct He as [->|[q ->]]; cbn; [by constructor | done].
Qed.

Lemma segment_of_group_ext t t' seg g :
  unit_id t = unit_id t' -> segment_of_group t seg g -> segment_of_group t' seg g.
Proof. unfold segment_of_group. by intros ->. Qed.

Lemma pacing_cons dly s s' ss :
  pacing dly (s :: s' :: ss) =
  (if retried s then Qmin (dly * 2) 1 else dly)
    :: pacing (if retried s then Qmin (dly * 2) 1 else dly) (s' :: ss).
Proof. reflexivity. Qed.

Lemma read_groups_loop_spec groups :
  forall regs dly t d,
  exists r t' d' ev,
    read_groups_loop groups regs dly (t, d) = (r, (t', d'), ev) /\
    same_settings t t' /\
    paces ev = pacing dly (segments ev) /\
    (forall res, r = Ok res ->
       length (paces ev) = (length groups - 1)%nat /\
       (groups = [] \/ Forall2 (segment_of_group t) (segments ev) groups)).
Proof.
  induction groups as [|[name [start count]] rest IH]; intros regs dly t d.
  - exists (Ok regs), t, d, []. split_and!; [done | apply same_settings_refl | done |].
    intros res _. split; [done | by left].
  - rewrite read_groups_loop_step.
    destruct (read_registers_cases start count true t d)
      as (r1 & t1 & d1 & ev1 & Hrun1 & Hset1 & Hatt & Hok).
    rewrite Hrun1. pose proof (only_attempts_no_pace _ _ Hatt) as Hnp.
    destruct r1 as [values|e].
    + destruct (Hok values eq_refl) as [Hreads Hflag]. cbn [fst snd]. cbv zeta.
      assert (Hseg : segment_of_group t ev1 (name, (start, count))).
      { split; [done|]. eapply Forall_impl; [by apply only_attempts_reads|].
        by intros ? <-. }
      destruct rest as [|g rest'].
      * exists (Ok (store_values start values regs)), t1, d1, ev1.
        split_and!; [done | done | |].
        -- by rewrite paces_no_pace, segments_no_pace.
        -- intros res _. rewrite paces_no_pace, segments_no_pace by done.
           split; [done|]. right. constructor; [done | constructor].
      * set (dly' := if last_read_retried t1 then Qmin (dly * 2) 1 else dly).
        destruct (IH (store_values start values regs) dly' t1 d1)
          as (r2 & t2 & d2 & ev2 & Hrun2 & Hset2 & Hpace2 & Hok2).
        rewrite Hrun2. exists r2, t2, d2, (ev1 ++ EvPace dly' :: ev2).
        split_and!; [done | by eapply same_settings_trans | |].
        -- rewrite paces_app, paces_no_pace, segments_app_pace by done.
           cbn [app]. change (paces (EvPace dly' :: ev2)) with (dly' :: paces ev2).
           pose proof (segments_nonempty ev2) as Hne.
           destruct (segments ev2) as [|s ss] eqn:Hs; [done|].
           rewrite pacing_cons. unfold retried at 1 2. rewrite <- Hflag. fold dly'.
           by rewrite Hpace2.
        -- intros res Hres. destruct (Hok2 res Hres) as [Hlen [Hnil|Hall]]; [done|].
           split.
           { rewrite paces_app, paces_no_pace by done. cbn [app].
             change (paces (EvPace dly' :: ev2)) with (dly' :: paces ev2).
             cbn [length] in *. lia. }
           right. rewrite segments_app_pace by done. constructor; [done|].
           eapply Forall2_impl; [exact Hall|].
           intros seg g'. apply segment_of_group_ext.
           by destruct Hset1 as (_ & _ & _ & Hu & _).
    + exists (Raise (TransportReadError (MsgGroupFailed name) (Some e))), t1, d1, ev1.
      split_and!; [done | done | | intros ? [=]].
      by rewrite paces_no_pace, segments_no_pace.
Qed.

Lemma reconnect_if_needed_cases t d :
  exists r t' d' ev,
    reconnect_if_needed (t, d) = (r, (t', d'), ev) /\
    unit_id t' = unit_id t /\
    inter_register_delay t' = inter_register_delay t /\
    max_consecutive_errors t' = max_consecutive_errors t /\
    connection_events ev /\
    (consecutive_errors t < max_consecutive_errors t ->
     r = Ok tt /\ t' = t /\ d' = d /\ ev = []).
Proof.
  unfold reconnect_if_needed, _reconnect, disconnect, connect. munfold. cbn.
  destruct (max_consecutive_errors t <=? consecutive_errors t) eqn:Hle; cbn.
  - rewrite (proj2 (Z.ltb_ge _ _)) by lia. cbn.
    destruct (client t); cbn;
      destruct (dev_connect d) as [[] d1]; cbn;
      eexists _, _, _, _; (split; [reflexivity|]);
      (split_and!; [done | done | done | repeat (constructor; [by (left + right)|]); constructor | lia]).
  - eexists _, _, _, _; (split; [reflexivity|]).
    split_and!; [done | done | done | constructor | done].
Qed.

Lemma connection_events_no_pace ev : connection_events ev -> no_pace ev.
Proof.
  intros Hev. eapply Forall_impl; [exact Hev|]. by intros e [->| ->] q.
Qed.

Lemma connection_events_reads ev : connection_events ev -> reads ev = [].
Proof.
  induction 1 as [|e ev [->| ->] _ IH]; done.
Qed.

Lemma read_register_groups_unfold group_names t d :
  _read_register_groups group_names (t, d) =
  match reconnect_if_needed (t, d) with
  | (Ok _, w1, ev0) =>
      let '(r, w2, ev) :=
        read_groups_loop (select_groups group_names) ∅ (inter_register_delay w1.1) w1 in
      (r, w2, ev0 ++ ev)
  | (Raise e, w1, ev0) => (Raise e, w1, ev0)
  end.
Proof.
  unfold _read_register_groups. munfold.
  destruct (reconnect_if_needed (t, d)) as [[[[]|e] w1] ev0]; [|done].
  cbn [fst snd app]. by destruct (read_groups_loop _ _ _ _) as [[r w2] ev].
Qed.

(** ** Adaptive pacing between the register groups *)

(** Claim C7.  The log of a batch of register-group reads is the log
    of the reconnection step at its start followed by the log of the
    group reads, and below the error limit, where the step does nothing,
    it is the log of the group reads alone.  In the log of the group
    reads the sleeps between the groups are those of [pacing], started
    at the configured [inter_register_delay]: after a group whose read
    went out more than once the delay is doubled, capped at one second,
    and stays so for the groups that follow in the batch; after a group
    read at the first attempt it is unchanged.  In a batch that succeeds
    the group reads have one segment of requests per group and one sleep
    fewer than groups: a sleep between successive groups, none after the
    last. *)
Theorem inter_group_pacing group_names t d :
  let run := _read_register_groups group_names (t, d) in
  let groups := select_groups group_names in
  exists batch,
    run.2 = (reconnect_if_needed (t, d)).2 ++ batch /\
    (consecutive_errors t < max_consecutive_errors t -> run.2 = batch) /\
    paces batch = pacing (inter_register_delay t) (segments batch) /\
    (forall registers, run.1.1 = Ok registers ->
       length (paces batch) = (length groups - 1)%nat /\
       (groups = [] \/ Forall2 (segment_of_group t) (segments batch) groups)).
Proof.
  intros run groups. subst run. rewrite read_register_groups_unfold. fold groups.
  destruct (reconnect_if_needed_cases t d)
    as (r0 & t0 & d0 & ev0 & Hrun0 & Hu & Hd & _ & _ & Hnoop).
  rewrite Hrun0. cbn [fst snd].
  destruct r0 as [[]|e].
  - destruct (read_groups_loop_spec groups ∅ (inter_register_delay t0) t0 d0)
      as (r & t' & d' & ev & Hrun & _ & Hpace & Hok).
    rewrite Hrun. cbn [fst snd]. exists ev. split_and!.
    + done.
    + intros Hlow. destruct (Hnoop Hlow) as (_ & _ & _ & ->). done.
    + by rewrite <- Hd.
    + intros registers ->. destruct (Hok registers eq_refl) as [Hlen Hseg].
      split; [done|]. destruct Hseg as [Hnil|Hall]; [by left | right].
      eapply Forall2_impl; [exact Hall|].
      intros seg g'. by apply segment_of_group_ext.
  - exists []. split_and!.
    + by rewrite app_nil_r.
    + intros Hlow. by destruct (Hnoop Hlow) as ([=] & _).
    + done.
    + intros ? [=].
Qed.

End PacingFacts.

Section ChunkFacts.

Context {Dev : Type} `{!Client Dev} `{!RegisterMaps}.

Implicit Types (t : Transport) (d : Dev) (w : Transport * Dev).

Lemma bounded_ret {A} (a : A) : bounded (Dev:=Dev) (mret a).
Proof. intros w. constructor. Qed.

Lemma bounded_raise {A} e : bounded (Dev:=Dev) (@raise Dev A e).
Proof. intros w. constructor. Qed.

Lemma bounded_bind {A B} (m : M A) (k : A -> M B) :
  bounded (Dev:=Dev) m -> (forall a, bounded (Dev:=Dev) (k a)) -> bounded (Dev:=Dev) (m ≫= k).
Proof.
  intros Hm Hk w. rewrite bind_run. specialize (Hm w).
  destruct (m w) as [[[a|e] w1] ev1]; [|done].
  specialize (Hk a w1). destruct (k a w1) as [[r w2] ev2].
  cbn [snd] in *. by apply Forall_app.
Qed.

Lemma bounded_try {A} (m : M A) handles h :
  bounded (Dev:=Dev) m -> (forall e, bounded (Dev:=Dev) (h e)) -> bounded (Dev:=Dev) (try_except m handles h).
Proof.
  intros Hm Hh w. unfold try_except. specialize (Hm w).
  destruct (m w) as [[[a|e] w1] ev1]; [done|].
  destruct (handles e); [|done].
  specialize (Hh e w1). destruct (h e w1) as [[r w2] ev2].
  cbn [snd] in *. by apply Forall_app.
Qed.

Lemma bounded_get : bounded (Dev:=Dev) (@get_self Dev).
Proof. intros w. constructor. Qed.

Lemma bounded_modify f : bounded (Dev:=Dev) (@modify_self Dev f).
Proof. intros w. constructor. Qed.

Lemma bounded_emit e : read_bounded e -> bounded (Dev:=Dev) (@emit Dev e).
Proof. intros He w. by repeat constructor. Qed.

Lemma bounded_read_registers address count input :
  bounded (Dev:=Dev) (_read_registers address count input).
Proof.
  intros [t d].
  destruct (read_registers_cases address count input t d)
    as (r & t' & d' & ev & -> & _ & Hatt & _).
  cbn [snd]. eapply Forall_impl; [exact Hatt|].
  intros e [->|[q ->]]; cbn; lia.
Qed.

Lemma bounded_read_chunks read fuel :
  (forall a c, bounded (Dev:=Dev) (read a c)) ->
  forall current_addr remaining result,
    bounded (Dev:=Dev) (read_chunks fuel read current_addr remaining result).
Proof.
  intros Hread. induction fuel as [|fuel IH]; intros a n res; cbn [read_chunks].
  - apply bounded_ret.
  - destruct (0 <? n); [|apply bounded_ret].
    apply bounded_bind; [apply Hread|]. intros values. apply IH.
Qed.

Lemma bounded_reconnect_if_needed : bounded (Dev:=Dev) reconnect_if_needed.
Proof.
  intros [t d].
  destruct (reconnect_if_needed_cases t d) as (r & t' & d' & ev & -> & _ & _ & _ & Hev & _).
  cbn [snd]. eapply Forall_impl; [exact Hev|]. by intros e [->| ->].
Qed.

Lemma bounded_read_groups_loop groups :
  forall regs dly, bounded (Dev:=Dev) (read_groups_loop groups regs dly).
Proof.
  induction groups as [|[name [start count]] rest IH]; intros regs dly;
    cbn [read_groups_loop].
  - apply bounded_ret.
  - apply bounded_bind.
    + apply bounded_try; [apply bounded_read_registers|].
      intros e. apply bounded_raise.
    + intros values. apply bounded_bind; [apply bounded_get|]. intros self.
      apply bounded_bind; [|intros _; apply IH].
      destruct rest; [apply bounded_ret | by apply bounded_emit].
Qed.

Lemma bounded_read_register_groups group_names :
  bounded (Dev:=Dev) (_read_register_groups group_names).
Proof.
  unfold _read_register_groups.
  apply bounded_bind; [apply bounded_reconnect_if_needed|]. intros _.
  apply bounded_bind; [apply bounded_get|]. intros self.
  apply bounded_read_groups_loop.
Qed.

Lemma bounded_read_runtime : bounded (Dev:=Dev) read_runtime.
Proof.
  unfold read_runtime.
  apply bounded_bind; [apply bounded_read_register_groups|].
  intros regs. apply bounded_ret.
Qed.

Lemma bounded_read_energy : bounded (Dev:=Dev) read_energy.
Proof.
  unfold read_energy.
  apply bounded_bind; [apply bounded_read_register_groups|]. intros regs.
  apply bounded_bind; [|intros ?; apply bounded_ret].
  apply bounded_try; [|intros ?; apply bounded_ret].
  apply bounded_bind; [apply bounded_read_register_groups|].
  intros ?. apply bounded_ret.
Qed.

Lemma bounded_read_battery include_individual :
  bounded (Dev:=Dev) (read_battery include_individual).
Proof.
  unfold read_battery, read_runtime_window, read_individual, _read_input_registers.
  apply bounded_bind; [apply bounded_reconnect_if_needed|]. intros _.
  apply bounded_bind.
  { apply bounded_try; [|intros ?; apply bounded_ret].
    apply bounded_bind; [apply bounded_read_registers|]. intros ?.
    apply bounded_try; [|intros ?; apply bounded_ret].
    apply bounded_bind; [apply bounded_read_registers|]. intros ?.
    apply bounded_ret. }
  intros regs. apply bounded_bind; [|intros ?; apply bounded_ret].
  destruct (_ && _); [|apply bounded_ret].
  apply bounded_try; [|intros ?; apply bounded_ret].
  apply bounded_bind; [|intros ?; apply bounded_ret].
  apply bounded_read_chunks. intros a c. apply bounded_read_registers.
Qed.

Lemma bounded_read_parameters start_address count :
  bounded (Dev:=Dev) (read_parameters start_address count).
Proof.
  apply bounded_read_chunks. intros a c. apply bounded_read_registers.
Qed.

Lemma bounded_read_midbox_runtime : bounded (Dev:=Dev) read_midbox_runtime.
Proof.
  unfold read_midbox_runtime.
  apply bounded_bind; [|intros ?; apply bounded_ret].
  apply bounded_try; [|intros ?; apply bounded_raise].
  generalize (∅ : gmap Z Z). generalize _MIDBOX_REGISTER_GROUPS.
  intros groups. induction groups as [|[start count] rest IH]; intros regs.
  - apply bounded_ret.
  - apply bounded_bind; [apply bounded_read_registers|]. intros values.
    apply bounded_bind; [apply bounded_get|]. intros self.
    apply bounded_bind; [|intros _; apply IH].
    destruct rest; [apply bounded_ret | by apply bounded_emit].
Qed.

Lemma bounded_identity :
  bounded (Dev:=Dev) read_serial_number /\ bounded (Dev:=Dev) read_firmware_version /\
  bounded (Dev:=Dev) read_device_type.
Proof.
  unfold read_serial_number, read_firmware_version, read_device_type,
    read_serial_number_async, read_firmware_version_async, read_device_type_async,
    _read_input_registers, _read_holding_registers.
  split_and!.
  - apply bounded_bind; [apply bounded_get|]. intros self.
    apply bounded_bind; [apply bounded_read_registers|]. intros ?. apply bounded_ret.
  - apply bounded_try; [|intros ?; apply bounded_ret].
    apply bounded_bind; [apply bounded_read_registers|]. intros ?. apply bounded_ret.
  - apply bounded_bind; [apply bounded_read_registers|].
    intros [|v ?]; [apply bounded_raise | apply bounded_ret].
Qed.

Lemma read_registers_answered address count input t d regs :
  connected t = true -> client t = true -> 0 <= retries t ->
  let req := mkRead input address (Z.min count 40) (unit_id t) in
  (dev_read d req).1 = Registers regs ->
  _read_registers address count input (t, d) =
  (Ok regs, (set_consecutive_errors 0 (set_last_read_retried false t),
             (dev_read d req).2), [EvRead req]).
Proof.
  intros Hconn Hcl Hret req Hans.
  rewrite read_registers_unfold, Hconn, Hcl.
  destruct (Z.to_nat (retries t + 1)) as [|todo] eqn:Htodo; [lia|].
  rewrite read_attempts_step. cbn [unit_id set_last_read_retried]. fold req.
  cbv zeta. by rewrite Hans.
Qed.

Lemma tiles_covers lo hi rs :
  tiles lo hi rs ->
  forall a, (exists r, r ∈ rs /\ rd_address r <= a < rd_address r + rd_count r)
            <-> lo <= a < hi.
Proof.
  revert lo. induction rs as [|r rs IH]; intros lo Ht a; cbn in Ht.
  - split; [intros (r & Hr & _); by apply elem_of_nil in Hr | lia].
  - destruct Ht as (Haddr & Hcnt & Hle & Hrest). specialize (IH _ Hrest a).
    split.
    + intros (r' & [-> | Hin]%elem_of_cons & Hr'); [lia|].
      assert (lo + rd_count r <= a < hi) by (apply IH; eauto). lia.
    + intros Ha. destruct (decide (a < lo + rd_count r)) as [Hlt|Hge].
      * exists r. split; [by left | lia].
      * destruct IH as [_ IH]. destruct IH as (r' & Hin & Hr'); [lia|].
        exists r'. split; [by right | done].
Qed.

Lemma read_chunks_answered input fuel :
  answers_every_read ->
  forall current_addr remaining result t d,
    connected t = true -> client t = true -> 0 <= retries t ->
    (Z.to_nat remaining <= fuel)%nat ->
    exists regs t' d' rs,
      read_chunks fuel (fun a c => _read_registers a c input)
        current_addr remaining result (t, d) = (Ok regs, (t', d'), EvRead <$> rs) /\
      tiles current_addr (current_addr + remaining) rs /\
      Forall (fun r => rd_input r = input /\ rd_device_id r = unit_id t) rs.
Proof.
  intros Hdev. induction fuel as [|fuel IH];
    intros a n res t d Hconn Hcl Hret Hfuel; cbn [read_chunks].
  - exists res, t, d, []. split_and!; [done | cbn; lia | constructor].
  - destruct (0 <? n) eqn:Hn.
    2:{ exists res, t, d, []. split_and!; [done | cbn; lia | constructor]. }
    apply Z.ltb_lt in Hn. rewrite bind_run.
    set (req := mkRead input a (Z.min (Z.min n 40) 40) (unit_id t)).
    destruct (Hdev d req) as [values Hans].
    rewrite (read_registers_answered _ _ _ _ _ values) by done. fold req.
    set (t1 := set_consecutive_errors 0 (set_last_read_retried false t)).
    destruct (IH (a + Z.min n 40) (n - Z.min n 40)
                (update res (_registers_from_values a values)) t1 (dev_read d req).2)
      as (regs & t' & d' & rs & Hrun & Htiles & Hall); [done | done | done | lia |].
    rewrite Hrun. exists regs, t', d', (req :: rs).
    split_and!; [done | | by constructor].
    cbn [tiles rd_address rd_count req].
    replace (a + Z.min n 40 + (n - Z.min n 40)) with (a + n) in Htiles by lia.
    rewrite Z.min_l by lia. split_and!; [done | lia | lia | lia | done].
Qed.

Lemma reads_fmap rs : reads (EvRead <$> rs) = rs.
Proof. induction rs as [|r rs IH]; [done|]. cbn. f_equal. apply IH. Qed.

(** ** At most 40 words per read request *)

(** Claim C6.  Every read request that the transport puts on the wire
    asks for at most 40 words, whatever the method that issues it:
    [_read_registers] clamps the count of its request to 40.  On a
    connected transport and a device that answers, [read_parameters
    start count] issues FC3 reads only, which tile the window: each
    starts where the one before ended, has between 1 and 40 words, and
    together they cover the addresses [start .. start + count - 1] and
    no other. *)
Theorem read_requests_at_most_40_words :
  (forall address count input w,
     Forall read_bounded (_read_registers address count input w).2) /\
  (forall start count w, Forall read_bounded (read_parameters start count w).2) /\
  (forall w, Forall read_bounded (read_runtime w).2) /\
  (forall w, Forall read_bounded (read_energy w).2) /\
  (forall include_individual w,
     Forall read_bounded (read_battery include_individual w).2) /\
  (forall w, Forall read_bounded (read_midbox_runtime w).2) /\
  (forall w, Forall read_bounded (read_serial_number w).2) /\
  (forall w, Forall read_bounded (read_firmware_version w).2) /\
  (forall w, Forall read_bounded (read_device_type w).2) /\
  (forall start count t d,
     connected t = true -> client t = true -> 0 <= retries t ->
     answers_every_read ->
     let run := read_parameters start count (t, d) in
     (exists result, run.1.1 = Ok result) /\
     run.2 = EvRead <$> reads run.2 /\
     Forall (fun r => function_code r = 3) (reads run.2) /\
     tiles start (start + count) (reads run.2) /\
     (forall a,
        (exists r, r ∈ reads run.2 /\ rd_address r <= a < rd_address r + rd_count r)
        <-> start <= a < start + count)).
Proof.
  split_and!.
  - intros address count input. apply bounded_read_registers.
  - intros start count. apply bounded_read_parameters.
  - apply bounded_read_runtime.
  - apply bounded_read_energy.
  - apply bounded_read_battery.
  - apply bounded_read_midbox_runtime.
  - apply bounded_identity.
  - apply bounded_identity.
  - apply bounded_identity.
  - intros start count t d Hconn Hcl Hret Hdev run. subst run.
    unfold read_parameters, _read_holding_registers.
    destruct (read_chunks_answered false (Z.to_nat count) Hdev start count ∅ t d)
      as (regs & t' & d' & rs & Hrun & Htiles & Hall); [done | done | done | lia |].
    rewrite Hrun. cbn [fst snd]. rewrite reads_fmap.
    split_and!; [by eexists | done | | done | by apply tiles_covers].
    eapply Forall_impl; [exact Hall|]. intros r [Hr _].
    unfold function_code. by rewrite Hr.
Qed.

End ChunkFacts.

#[global] Instance item_le_total : Total item_le.
Proof. intros [a v] [a' v']. unfold item_le. cbn. lia. Qed.

#[global] Instance item_le_trans : Transitive item_le.
Proof. intros [a v] [a' v'] [a'' v'']. unfold item_le. cbn. lia. Qed.

Lemma sorted_items_elem_of (parameters : gmap Z Z) a v :
  (a, v) ∈ sorted_items parameters <-> parameters !! a = Some v.
Proof.
  unfold sorted_items. rewrite merge_sort_Permutation.
  apply elem_of_map_to_list.
Qed.

Lemma sorted_items_sorted (parameters : gmap Z Z) :
  StronglySorted address_lt (sorted_items parameters).
Proof.
  unfold sorted_items.
  pose proof (StronglySorted_merge_sort item_le (map_to_list parameters)) as Hs.
  pose proof (NoDup_fst_map_to_list parameters) as Hnd.
  rewrite <- (merge_sort_Permutation item_le (map_to_list parameters)) in Hnd.
  induction Hs as [|x l Hl IH Hx]; [constructor|].
  cbn in Hnd. apply NoDup_cons in Hnd as [Hnotin Hnd].
  constructor; [by apply IH|].
  apply Forall_forall. intros y Hy.
  rewrite Forall_forall in Hx. specialize (Hx y Hy).
  unfold address_lt. destruct Hx as [Hlt|[Heq _]]; [done|].
  exfalso. apply Hnotin. rewrite Heq. apply list_elem_of_fmap. eauto.
Qed.

Lemma expand_snoc cs cv v :
  expand (cs, cv ++ [v]) = expand (cs, cv) ++ [(cs + Z.of_nat (length cv), v)].
Proof.
  unfold expand. cbn [fst snd]. rewrite imap_app. cbn. do 4 f_equal. lia.
Qed.

Lemma elem_of_expand g a v :
  (a, v) ∈ expand g <-> exists i, g.2 !! i = Some v /\ a = g.1 + Z.of_nat i.
Proof.
  unfold expand. rewrite elem_of_lookup_imap. split.
  - intros (i & v' & [= -> ->] & Hi). eauto.
  - intros (i & Hi & ->). eauto.
Qed.

Lemma elem_of_concat {A} (x : A) (ls : list (list A)) :
  x ∈ concat ls <-> exists l, l ∈ ls /\ x ∈ l.
Proof.
  induction ls as [|l ls IH]; cbn.
  - split; [by intros ?%elem_of_nil | by intros (l & ?%elem_of_nil & _)].
  - rewrite elem_of_app, IH. split.
    + intros [Hx | (l' & Hl' & Hx)]; [exists l | exists l'];
        (split; [|done]); by constructor.
    + intros (l' & [-> | Hl']%elem_of_cons & Hx); eauto.
Qed.

(** The grouping loop, from a current run on. *)
Lemma group_consecutive_spec items :
  forall groups cs cv, cv <> [] ->
  exists more rest,
    group_consecutive items groups (Some cs) cv = groups ++ (cs, cv ++ more) :: rest /\
    concat (expand <$> ((cs, cv ++ more) :: rest)) = expand (cs, cv) ++ items /\
    Forall (fun g => g.2 <> []) rest /\
    separated ((cs, cv ++ more) :: rest).
Proof.
  induction items as [|[a v] items IH]; intros groups cs cv Hcv;
    cbn [group_consecutive].
  - exists [], []. destruct cv as [|v0 cv]; [done|].
    rewrite !app_nil_r. split_and!; [done | by cbn; rewrite app_nil_r | constructor | done].
  - destruct (a =? cs + Z.of_nat (length cv)) eqn:Ha.
    + apply Z.eqb_eq in Ha.
      destruct (IH groups cs (cv ++ [v])) as (more & rest & Hrun & Hcat & Hne & Hsep).
      { by destruct cv. }
      exists (v :: more), rest. rewrite <- !app_assoc in *. cbn [app] in *.
      split_and!; [done | | done | done].
      cbn [fmap list_fmap concat] in *. rewrite Hcat, expand_snoc, <- app_assoc.
      cbn [app]. by rewrite Ha.
    + apply Z.eqb_neq in Ha.
      destruct (IH (groups ++ [(cs, cv)]) a [v]) as (more & rest & Hrun & Hcat & Hne & Hsep);
        [done|].
      exists [], ((a, [v] ++ more) :: rest). rewrite app_nil_r.
      split_and!.
      * by rewrite Hrun, <- app_assoc.
      * cbn [fmap list_fmap concat] in *. rewrite Hcat. cbn.
        by rewrite Z.add_0_r.
      * constructor; [done | done].
      * cbn [separated]. split; [done|]. exact Hsep.
Qed.

Lemma write_groups_spec items :
  let runs := group_consecutive items [] None [] in
  concat (expand <$> runs) = items /\
  Forall (fun g => g.2 <> []) runs /\
  separated runs.
Proof.
  destruct items as [|[a v] items]; cbn [group_consecutive].
  - cbn. by repeat split.
  - destruct (group_consecutive_spec items [] a [v]) as (more & rest & -> & Hcat & Hne & Hsep);
      [done|].
    cbv zeta. cbn [app] in *. split_and!; [| constructor; [done | done] | done].
    rewrite Hcat. cbn. by rewrite Z.add_0_r.
Qed.

Lemma gap_from_sorted runs :
  Forall (fun g => g.2 <> []) runs -> separated runs ->
  StronglySorted address_lt (concat (expand <$> runs)) ->
  StronglySorted gap runs.
Proof.
  induction runs as [|g1 rest IH]; intros Hne Hsep Hsorted; [constructor|].
  apply Forall_cons in Hne as [Hne1 Hne].
  cbn [fmap list_fmap concat] in Hsorted.
  assert (Hrest : StronglySorted gap rest).
  { apply IH; [done | | by eapply StronglySorted_app_1_r].
    destruct rest as [|g2 rest']; [done|]. apply Hsep. }
  constructor; [done|].
  assert (Hle : forall g, g ∈ rest -> g1.1 + Z.of_nat (length g1.2) <= g.1).
  { intros g Hg.
    assert (Hg2 : g.2 <> []).
    { rewrite Forall_forall in Hne. by apply Hne. }
    destruct (g.2) as [|v0 vs] eqn:Hgv; [done|].
    destruct (exists_last Hne1) as (vs1 & v1 & Hlast).
    assert (address_lt (g1.1 + Z.of_nat (length vs1), v1) (g.1, v0)) as Hlt.
    { eapply (StronglySorted_app_1_elem_of _ _ _ _ _ Hsorted).
      - apply elem_of_expand. exists (length vs1). split; [|done].
        rewrite Hlast. by rewrite lookup_app_r, Nat.sub_diag.
      - apply elem_of_concat. exists (expand g). split.
        + apply list_elem_of_fmap. eauto.
        + apply elem_of_expand. exists 0%nat. rewrite Hgv. split; [done | lia]. }
    unfold address_lt in Hlt. cbn in Hlt. rewrite Hlast, length_app. cbn. lia. }
  destruct rest as [|g2 rest']; [constructor|].
  apply Forall_cons. split.
  - unfold gap. destruct Hsep as [Hneq _].
    specialize (Hle g2 (list_elem_of_here _ _)). lia.
  - apply StronglySorted_inv in Hrest as [_ Hall].
    eapply Forall_impl; [exact Hall|]. intros g Hg. unfold gap in *.
    specialize (Hle g2 (list_elem_of_here _ _)). lia.
Qed.

Lemma write_groups_runs (parameters : gmap Z Z) :
  let runs := write_groups parameters in
  Forall (fun g => g.2 <> []) runs /\
  StronglySorted gap runs /\
  (forall a v, parameters !! a = Some v <->
     exists g i, g ∈ runs /\ g.2 !! i = Some v /\ a = g.1 + Z.of_nat i).
Proof.
  intros runs. subst runs. unfold write_groups.
  destruct (write_groups_spec (sorted_items parameters)) as (Hcat & Hne & Hsep).
  set (runs := group_consecutive (sorted_items parameters) [] None []) in *.
  clearbody runs.
  split_and!; [done | |].
  - apply gap_from_sorted; [done | done |]. rewrite Hcat. apply sorted_items_sorted.
  - intros a v. rewrite <- sorted_items_elem_of, <- Hcat, elem_of_concat. split.
    + intros (l & (g & -> & Hg)%list_elem_of_fmap & (i & Hi & ->)%elem_of_expand).
      eauto.
    + intros (g & i & Hg & Hi & ->). exists (expand g). split.
      * apply list_elem_of_fmap. eauto.
      * apply elem_of_expand. eauto.
Qed.

Lemma StronglySorted_trichotomy {A} (R : relation A) (l : list A) x y :
  StronglySorted R l -> x ∈ l -> y ∈ l -> x = y \/ R x y \/ R y x.
Proof.
  induction 1 as [|z l Hl IH Hz]; [by intros ?%elem_of_nil|].
  rewrite Forall_forall in Hz.
  intros [-> | Hx]%elem_of_cons [-> | Hy]%elem_of_cons; eauto.
Qed.

Lemma run_count (parameters : gmap Z Z) :
  length (write_groups parameters) = size (run_starts parameters).
Proof.
  destruct (write_groups_runs parameters) as (Hne & Hgap & Hlook).
  set (runs := write_groups parameters) in *.
  assert (Hdom : forall a, a ∈ dom parameters <->
            exists g, g ∈ runs /\ g.1 <= a < g.1 + Z.of_nat (length g.2)).
  { intros a. rewrite elem_of_dom. unfold is_Some. split.
    - intros (v & (g & i & Hg & Hi & ->)%Hlook). exists g. split; [done|].
      apply lookup_lt_Some in Hi. lia.
    - intros (g & Hg & Ha).
      destruct (lookup_lt_is_Some_2 g.2 (Z.to_nat (a - g.1))) as [v Hv]; [lia|].
      exists v. apply Hlook. exists g, (Z.to_nat (a - g.1)). split_and!; [done | done | lia]. }
  assert (Hstarts : run_starts parameters = list_to_set (runs.*1)).
  { apply set_eq. intros a. unfold run_starts.
    rewrite elem_of_filter, elem_of_list_to_set, list_elem_of_fmap, !Hdom. split.
    - intros (Hpred & g & Hg & Ha). exists g. split; [|done].
      destruct (decide (a = g.1)) as [|Hneq]; [done|].
      exfalso. apply Hpred. exists g. split; [done | lia].
    - intros (g & -> & Hg). split.
      + intros (g' & Hg' & Ha).
        destruct (StronglySorted_trichotomy gap runs g g' Hgap Hg Hg')
          as [-> | [Hgg | Hgg]]; unfold gap in *; lia.
      + exists g. split; [done|].
        rewrite Forall_forall in Hne. specialize (Hne g Hg).
        destruct (g.2); [done | cbn; lia]. }
  rewrite Hstarts, size_list_to_set, length_fmap; [done|].
  clear -Hgap. induction Hgap as [|g l Hl IH Hg]; [constructor|].
  cbn. constructor; [|done].
  intros (g' & Heq & Hg')%list_elem_of_fmap.
  rewrite Forall_forall in Hg. specialize (Hg g' Hg'). unfold gap in Hg. lia.
Qed.

Section WriteFacts.

Context {Dev : Type} `{!Client Dev} `{!RegisterMaps}.

Implicit Types (t : Transport) (d : Dev) (w : Transport * Dev).

Lemma write_holding_registers_accepted address values t d :
  connected t = true -> client t = true -> accepts_every_write ->
  let f := write_frame address values (unit_id t) in
  _write_holding_registers address values (t, d) =
  (Ok true, (t, (dev_write d f).2), [EvWrite f]).
Proof.
  intros Hconn Hcl Hdev f. specialize (Hdev d f).
  unfold _write_holding_registers, _ensure_connected, check_client. munfold.
  cbn [fst snd]. rewrite Hconn. cbn [fst snd]. rewrite Hcl. cbn [fst snd].
  fold f. destruct (dev_write d f) as [o d1]. cbn in Hdev. subst o. done.
Qed.

Lemma write_all_accepted groups :
  forall t d,
    connected t = true -> client t = true -> accepts_every_write ->
    exists d',
      write_all groups (t, d) =
      (Ok tt, (t, d'),
       EvWrite <$> ((fun g => write_frame g.1 g.2 (unit_id t)) <$> groups)).
Proof.
  induction groups as [|[start values] rest IH]; intros t d Hconn Hcl Hdev;
    cbn [write_all].
  - by exists d.
  - rewrite bind_run, write_holding_registers_accepted by done.
    destruct (IH t (dev_write d (write_frame start values (unit_id t))).2)
      as [d' Hrun]; [done..|].
    rewrite Hrun. by exists d'.
Qed.

(** ** Write coalescing *)

(** Claim C3.  On a connected transport and a device that accepts its
    writes, [write_parameters] splits the parameter map into its maximal
    runs of consecutive addresses (non-empty, in ascending order, two
    successive runs separated by a gap, together holding the bindings of
    the map and nothing else), as many as the map has addresses whose
    predecessor is not in the map.  It issues one write frame per run,
    in that order, and nothing else: FC6 for a run of one register, FC16
    with the values of the run in address order otherwise.  It returns
    [True]. *)
Theorem write_parameters_coalesces (parameters : gmap Z Z) t d :
  connected t = true -> client t = true -> accepts_every_write ->
  let run := write_parameters parameters (t, d) in
  exists runs : list (Z * list Z),
    Forall (fun g => g.2 <> []) runs /\
    StronglySorted gap runs /\
    (forall a v, parameters !! a = Some v <->
       exists g i, g ∈ runs /\ g.2 !! i = Some v /\ a = g.1 + Z.of_nat i) /\
    length runs = size (run_starts parameters) /\
    run.1.1 = Ok true /\
    run.2 = EvWrite <$> writes run.2 /\
    Forall2 (fun f g =>
               frame_address f = g.1 /\ frame_values f = g.2 /\
               write_function_code f = if decide (length g.2 = 1%nat) then 6 else 16)
            (writes run.2) runs.
Proof.
  intros Hconn Hcl Hdev run.
  exists (write_groups parameters).
  destruct (write_groups_runs parameters) as (Hne & Hgap & Hlook).
  assert (Hrun : exists d', run =
            (Ok true, (t, d'),
             EvWrite <$> ((fun g => write_frame g.1 g.2 (unit_id t))
                            <$> write_groups parameters))).
  { subst run. unfold write_parameters. rewrite bind_run.
    destruct (write_all_accepted (write_groups parameters) t d) as [d' Hrun];
      [done..|].
    rewrite Hrun. exists d'. cbn. by rewrite app_nil_r. }
  destruct Hrun as [d' ->]. cbn [fst snd].
  assert (Hw : forall l : list WriteFrame, writes (EvWrite <$> l) = l).
  { intros l. induction l as [|f l IH]; [done|]. cbn. f_equal. apply IH. }
  rewrite Hw.
  split_and!; [done | done | done | apply run_count | done | done |].
  revert Hne. generalize (write_groups parameters). intros l Hne.
  induction Hne as [|[start values] l Hg Hl IH]; [constructor|].
  cbn. constructor; [|apply IH].
  cbn in Hg. destruct values as [|v [|v' vs]]; [done | done | done].
Qed.

(** ** The empty parameter map *)

(** Claim C10.  [write_parameters] of the empty map returns [True],
    puts nothing on the wire and leaves the transport and the device as
    they were. *)
Theorem write_parameters_empty w :
  write_parameters ∅ w = (Ok true, w, []).
Proof.
  unfold write_parameters, write_groups, sorted_items.
  rewrite map_to_list_empty. by destruct w.
Qed.

End WriteFacts.

Section BatteryFacts.

Context {Dev : Type} `{!Client Dev} `{!RegisterMaps}.

Implicit Types (t : Transport) (d : Dev) (w : Transport * Dev).

Lemma try_except_run {A} (m : M A) handles h w :
  try_except m handles h w =
  match m w with
  | (Ok a, w1, ev1) => (Ok a, w1, ev1)
  | (Raise e, w1, ev1) =>
      if handles e then let '(r, w2, ev2) := h e w1 in (r, w2, ev1 ++ ev2)
      else (Raise e, w1, ev1)
  end.
Proof. reflexivity. Qed.

Lemma read_runtime_window_unfold w :
  read_runtime_window w =
  match _read_registers 0 64 true w with
  | (Raise e, w1, ev1) => (Ok ∅, w1, ev1)
  | (Ok values1, w1, ev1) =>
      let all_registers := update ∅ (_registers_from_values 0 values1) in
      match _read_registers 64 64 true w1 with
      | (Ok values2, w2, ev2) =>
          (Ok (update all_registers (_registers_from_values 64 values2)), w2, ev1 ++ ev2)
      | (Raise e, w2, ev2) => (Ok all_registers, w2, ev1 ++ ev2)
      end
  end.
Proof.
  unfold read_runtime_window, _read_input_registers.
  rewrite try_except_run, bind_run.
  destruct (_read_registers 0 64 true w) as [[[values1|e] w1] ev1].
  - rewrite try_except_run, bind_run.
    destruct (_read_registers 64 64 true w1) as [[[values2|e] w2] ev2]; cbn;
      by rewrite ?app_nil_r.
  - cbn. by rewrite app_nil_r.
Qed.

Lemma read_individual_unfold all_registers include_individual w :
  read_individual all_registers include_individual w =
  if include_individual && (0 <? default 0 (all_registers !! 96)) then
    let total :=
      Z.min (default 0 (all_registers !! 96)) INDIVIDUAL_BATTERY_MAX_COUNT
      * INDIVIDUAL_BATTERY_REGISTER_COUNT in
    match read_chunks (Z.to_nat total) _read_input_registers
            INDIVIDUAL_BATTERY_BASE_ADDRESS total ∅ w with
    | (Ok regs, w1, ev1) => (Ok (Some regs), w1, ev1)
    | (Raise e, w1, ev1) => (Ok None, w1, ev1)
    end
  else (Ok None, w, []).
Proof.
  unfold read_individual. destruct (_ && _); [|done].
  cbv zeta. rewrite try_except_run, bind_run.
  destruct (read_chunks _ _ _ _ _ _) as [[[regs|e] w1] ev1]; cbn;
    by rewrite ?app_nil_r.
Qed.

Lemma read_battery_unfold include_individual w :
  read_battery include_individual w =
  match reconnect_if_needed w with
  | (Raise e, w0, ev0) => (Raise e, w0, ev0)
  | (Ok _, w0, ev0) =>
      match read_runtime_window w0 with
      | (Raise e, w1, ev1) => (Raise e, w1, ev0 ++ ev1)
      | (Ok all_registers, w1, ev1) =>
          match read_individual all_registers include_individual w1 with
          | (Raise e, w2, ev2) => (Raise e, w2, ev0 ++ ev1 ++ ev2)
          | (Ok individual, w2, ev2) =>
              (Ok (battery_from_modbus_registers battery_voltage NO_BATTERY_THRESHOLD
                     all_registers individual), w2, ev0 ++ ev1 ++ ev2)
          end
      end
  end.
Proof.
  unfold read_battery. rewrite bind_run.
  destruct (reconnect_if_needed w) as [[[[]|e] w0] ev0]; [|done].
  rewrite bind_run.
  destruct (read_runtime_window w0) as [[[all_registers|e] w1] ev1]; [|done].
  rewrite bind_run.
  destruct (read_individual all_registers include_individual w1)
    as [[[individual|e] w2] ev2]; cbn; by rewrite ?app_nil_r.
Qed.

(** The reads of the chunk loop never go below its first address. *)
Lemma read_chunks_addresses fuel :
  forall current_addr remaining result w,
    Forall (fun r => current_addr <= rd_address r)
      (reads (read_chunks fuel _read_input_registers current_addr remaining result w).2).
Proof.
  induction fuel as [|fuel IH]; intros a n res [t d]; cbn [read_chunks];
    [constructor|].
  destruct (0 <? n) eqn:Hn; [|constructor]. apply Z.ltb_lt in Hn.
  rewrite bind_run. unfold _read_input_registers at 1.
  destruct (read_registers_cases a (Z.min n 40) true t d)
    as (r & t' & d' & ev & -> & _ & Hatt & _).
  apply only_attempts_reads in Hatt.
  assert (Hev : Forall (fun r => a <= rd_address r) (reads ev)).
  { eapply Forall_impl; [exact Hatt|]. intros ? <-. cbn. lia. }
  destruct r as [values|e]; [|done].
  specialize (IH (a + Z.min n 40) (n - Z.min n 40)
                (update res (_registers_from_values a values)) (t', d')).
  destruct (read_chunks _ _ _ _ _ _) as [[r2 w2] ev2]. cbn [snd] in *.
  rewrite reads_app. apply Forall_app. split; [done|].
  eapply Forall_impl; [exact IH|]. cbn. intros; lia.
Qed.

(** With something left to read, on a connected transport, the loop asks
    for its first address. *)
Lemma read_chunks_first fuel current_addr remaining result t d :
  connected t = true -> client t = true -> 0 <= retries t ->
  0 < remaining -> fuel <> O ->
  exists r,
    r ∈ reads (read_chunks fuel _read_input_registers current_addr remaining result (t, d)).2
    /\ rd_address r = current_addr.
Proof.
  intros Hconn Hcl Hret Hn Hfuel. destruct fuel as [|fuel]; [done|].
  cbn [read_chunks]. rewrite (proj2 (Z.ltb_lt _ _) Hn), bind_run.
  pose proof (read_registers_issues current_addr (Z.min remaining 40) true t d
                Hconn Hcl Hret) as Hin.
  unfold _read_input_registers at 1.
  destruct (_read_registers current_addr (Z.min remaining 40) true (t, d))
    as [[[values|e] w1] ev1]; cbn [snd] in *.
  - destruct (read_chunks _ _ _ _ _ _) as [[r2 w2] ev2]. cbn [snd].
    eexists. rewrite reads_app, elem_of_app. split; [left; exact Hin | done].
  - eexists. split; [exact Hin | done].
Qed.

Lemma read_runtime_window_cases t d :
  exists all_registers t' d' ev,
    read_runtime_window (t, d) = (Ok all_registers, (t', d'), ev) /\
    same_settings t t' /\
    Forall (fun r => rd_address r < INDIVIDUAL_BATTERY_BASE_ADDRESS) (reads ev) /\
    (all_registers <> ∅ ->
     connected t = true /\ client t = true /\ 0 <= retries t).
Proof.
  rewrite read_runtime_window_unfold.
  destruct (read_registers_cases 0 64 true t d)
    as (r1 & t1 & d1 & ev1 & Hrun1 & Hset1 & Hatt1 & _).
  rewrite Hrun1. apply only_attempts_reads in Hatt1.
  assert (Hev1 : Forall (fun r => rd_address r < INDIVIDUAL_BATTERY_BASE_ADDRESS)
                   (reads ev1)).
  { eapply Forall_impl; [exact Hatt1|]. by intros ? <-. }
  destruct r1 as [values1|e].
  - apply read_registers_ok in Hrun1 as (Hconn & Hcl & Hret & _).
    destruct (read_registers_cases 64 64 true t1 d1)
      as (r2 & t2 & d2 & ev2 & Hrun2 & Hset2 & Hatt2 & _).
    rewrite Hrun2. apply only_attempts_reads in Hatt2.
    assert (Hev2 : Forall (fun r => rd_address r < INDIVIDUAL_BATTERY_BASE_ADDRESS)
                     (reads ev2)).
    { eapply Forall_impl; [exact Hatt2|]. by intros ? <-. }
    cbv zeta. destruct r2 as [values2|e]; eexists _, t2, d2, _;
      (split; [reflexivity|]);
      (split_and!; [by eapply same_settings_trans
                   | rewrite reads_app; by apply Forall_app | done]).
  - eexists _, t1, d1, _. split; [reflexivity|]. split_and!; done.
Qed.

(** ** No battery: the bank voltage and the individual-battery range *)

(** Claim C4, as the code has it.  When the reconnection step at its
    start does not fail, [read_battery] does not raise.  When the bank voltage is below the
    no-battery threshold, or was not obtained, it returns [None].  The
    individual-battery range at address 5000 and above is read exactly
    when [include_individual] is set and register 96 (the battery count)
    was obtained with a positive value, whatever the bank voltage is. *)
Theorem read_battery_below_threshold include_individual t d :
  0 < INDIVIDUAL_BATTERY_MAX_COUNT ->
  (reconnect_if_needed (t, d)).1.1 = Ok tt ->
  let run := read_battery include_individual (t, d) in
  exists all_registers,
    (read_runtime_window (reconnect_if_needed (t, d)).1.2).1.1 = Ok all_registers /\
    (exists result, run.1.1 = Ok result) /\
    ((forall v, decode_field all_registers battery_voltage = Some v ->
                (v < NO_BATTERY_THRESHOLD)%Q) ->
     run.1.1 = Ok None) /\
    ((exists r, r ∈ reads run.2 /\ INDIVIDUAL_BATTERY_BASE_ADDRESS <= rd_address r)
     <-> include_individual = true /\ 0 < default 0 (all_registers !! 96)).
Proof.
  intros Hmax Hrec run. subst run. rewrite read_battery_unfold.
  destruct (reconnect_if_needed_cases t d)
    as (r0 & t0 & d0 & ev0 & Hrun0 & _ & _ & _ & Hev0 & _).
  rewrite Hrun0 in *. cbn [fst snd] in Hrec. subst r0. cbn [fst snd].
  apply connection_events_reads in Hev0.
  destruct (read_runtime_window_cases t0 d0)
    as (all_registers & t1 & d1 & ev1 & Hrun1 & Hset1 & Hev1 & Hconn).
  rewrite Hrun1. cbn [fst snd]. exists all_registers. split; [done|].
  rewrite read_individual_unfold.
  set (battery_count := default 0 (all_registers !! 96)).
  set (total := Z.min battery_count INDIVIDUAL_BATTERY_MAX_COUNT
                * INDIVIDUAL_BATTERY_REGISTER_COUNT).
  assert (Hlow : forall r, r ∈ reads (ev0 ++ ev1) ->
                   rd_address r < INDIVIDUAL_BATTERY_BASE_ADDRESS).
  { intros r. rewrite reads_app, Hev0. cbn [app]. rewrite Forall_forall in Hev1.
    apply Hev1. }
  assert (Hdecode : forall individual,
            (forall v, decode_field all_registers battery_voltage = Some v ->
                       (v < NO_BATTERY_THRESHOLD)%Q) ->
            battery_from_modbus_registers battery_voltage NO_BATTERY_THRESHOLD
              all_registers individual = None).
  { intros individual Hv. unfold battery_from_modbus_registers.
    destruct (decode_field all_registers battery_voltage) as [v|]; [|done].
    destruct (Qlt_le_dec v NO_BATTERY_THRESHOLD) as [|Hge]; [done|].
    exfalso. specialize (Hv v eq_refl). apply Qle_not_lt in Hge. by apply Hge. }
  destruct (include_individual && (0 <? battery_count)) eqn:Hcond.
  - apply andb_true_iff in Hcond as [-> Hcount%Z.ltb_lt].
    assert (Hreg : is_Some (all_registers !! 96)).
    { subst battery_count. destruct (all_registers !! 96); [eauto | cbn in Hcount; lia]. }
    destruct Hconn as (Hc & Hcl & Hret).
    { intros ->. rewrite lookup_empty in Hreg. by destruct Hreg. }
    assert (Htotal : 0 < total).
    { subst total. unfold INDIVIDUAL_BATTERY_REGISTER_COUNT. lia. }
    destruct Hset1 as (_ & Hc1 & Hcl1 & _ & Hret1 & _).
    destruct (read_chunks_first (Z.to_nat total) INDIVIDUAL_BATTERY_BASE_ADDRESS
                total ∅ t1 d1) as (r & Hr & Haddr);
      [congruence | congruence | lia | done | lia |].
    cbv zeta. fold battery_count. fold total.
    destruct (read_chunks (Z.to_nat total) _read_input_registers
                INDIVIDUAL_BATTERY_BASE_ADDRESS total ∅ (t1, d1))
      as [[[regs|e] w2] ev2]; cbn [fst snd] in *.
    + split_and!; [by eexists | by intros ?%(Hdecode (Some regs)); f_equal |].
      split; [done|]. intros _. exists r. split; [|lia].
      rewrite app_assoc, reads_app, elem_of_app. by right.
    + split_and!; [by eexists | by intros ?%(Hdecode None); f_equal |].
      split; [done|]. intros _. exists r. split; [|lia].
      rewrite app_assoc, reads_app, elem_of_app. by right.
  - cbn [fst snd]. rewrite app_nil_r.
    split_and!; [by eexists | by intros ?%(Hdecode None); f_equal |].
    split.
    + intros (r & Hr%Hlow & Hge). lia.
    + intros [-> Hcount]. apply andb_false_iff in Hcond as [|Hf]; [done|].
      apply Z.ltb_ge in Hf. lia.
Qed.

(** ** A failed read of the runtime window *)

(** Claim C9.  When the reconnection step at its start does not fail,
    [read_battery] does not raise whatever the reads of the runtime
    window do: a failure while the window is read is caught, and the
    result is the decoding of the registers obtained until then.  When
    the first read fails no register was obtained, the result is [None],
    as for an absent battery, and the log is that of the reconnection
    step followed by that of the first read, so that nothing is read
    after it; when the second read fails the registers of the first are
    kept. *)
Theorem read_battery_survives_read_failure include_individual t d :
  (reconnect_if_needed (t, d)).1.1 = Ok tt ->
  let w0 := (reconnect_if_needed (t, d)).1.2 in
  let first := _read_input_registers 0 64 w0 in
  let run := read_battery include_individual (t, d) in
  (exists all_registers individual,
     (read_runtime_window w0).1.1 = Ok all_registers /\
     run.1.1 = Ok (battery_from_modbus_registers battery_voltage NO_BATTERY_THRESHOLD
                     all_registers individual)) /\
  (forall e, first.1.1 = Raise e ->
     (read_runtime_window w0).1.1 = Ok ∅ /\ run.1.1 = Ok None /\
     run.2 = (reconnect_if_needed (t, d)).2 ++ first.2) /\
  (forall values1 e,
     first.1.1 = Ok values1 ->
     (_read_input_registers 64 64 first.1.2).1.1 = Raise e ->
     (read_runtime_window w0).1.1 = Ok (update ∅ (_registers_from_values 0 values1))).
Proof.
  intros Hrec w0 first run. subst run first w0. rewrite read_battery_unfold.
  destruct (reconnect_if_needed_cases t d)
    as (r0 & t0 & d0 & ev0 & Hrun0 & _).
  rewrite Hrun0 in *. cbn [fst snd] in Hrec. subst r0. cbn [fst snd].
  unfold _read_input_registers.
  split_and!.
  - destruct (read_runtime_window_cases t0 d0)
      as (all_registers & t1 & d1 & ev1 & Hrun1 & _).
    rewrite Hrun1. cbn [fst snd].
    destruct (read_individual all_registers include_individual (t1, d1))
      as [[[individual|e] w2] ev2] eqn:Hind.
    + by exists all_registers, individual.
    + rewrite read_individual_unfold in Hind.
      destruct (_ && _); [|done]. cbv zeta in Hind.
      by destruct (read_chunks _ _ _ _ _ _) as [[[regs|e'] w3] ev3].
  - intros e He. rewrite read_runtime_window_unfold.
    destruct (_read_registers 0 64 true (t0, d0)) as [[[values1|e'] w1] ev1];
      cbn [fst snd] in *; [done|].
    rewrite read_individual_unfold, lookup_empty. cbn [default andb Z.ltb].
    rewrite andb_false_r. cbn [fst snd].
    split_and!; [done | | by rewrite app_nil_r].
    unfold battery_from_modbus_registers, decode_field.
    rewrite !lookup_empty. by destruct (bit_width battery_voltage).
  - intros values1 e Hv He. rewrite read_runtime_window_unfold.
    destruct (_read_registers 0 64 true (t0, d0)) as [[[values1'|e'] w1] ev1];
      cbn [fst snd] in *; [|done].
    injection Hv as ->.
    destruct (_read_registers 64 64 true w1) as [[[values2|e'] w2] ev2];
      cbn [fst snd] in *; done.
Qed.

End BatteryFacts.

Lemma store_values_lookup values :
  forall start regs a,
    a < start \/ start + Z.of_nat (length values) <= a ->
    store_values start values regs !! a = regs !! a.
Proof.
  induction values as [|v vs IH]; intros start regs a Ha; cbn [store_values];
    [done|].
  cbn [length] in Ha. rewrite IH by lia. apply lookup_insert_ne. lia.
Qed.

Section EnergyFacts.

Context {Dev : Type} `{!Client Dev} `{!RegisterMaps}.

Implicit Types (t : Transport) (d : Dev) (w : Transport * Dev).

(** A batch that fails, fails with the error of its failing group. *)
Lemma read_groups_loop_raise groups :
  forall regs dly w e w' ev,
    read_groups_loop groups regs dly w = (Raise e, w', ev) ->
    is_read_or_timeout e = true.
Proof.
  induction groups as [|[name [start count]] rest IH]; intros regs dly [t d] e w' ev;
    [done|].
  rewrite read_groups_loop_step.
  destruct (_read_registers start count true (t, d)) as [[[values|e'] w1] ev1].
  - cbv zeta. destruct rest as [|g rest']; [done|].
    destruct (read_groups_loop (g :: rest') _ _ w1) as [[r2 w2] ev2] eqn:Hrest.
    intros [= -> <- <-]. by eapply IH.
  - by intros [= <- <- <-].
Qed.

(** A batch that succeeds leaves the error counter at zero. *)
Lemma read_groups_loop_errors groups :
  forall regs dly t d res t' d' ev,
    read_groups_loop groups regs dly (t, d) = (Ok res, (t', d'), ev) ->
    groups <> [] -> consecutive_errors t' = 0.
Proof.
  induction groups as [|[name [start count]] rest IH];
    intros regs dly t d res t' d' ev; [done|].
  rewrite read_groups_loop_step.
  destruct (_read_registers start count true (t, d)) as [[[values|e] [t1 d1]] ev1]
    eqn:Hrun1; [|done].
  apply read_registers_ok in Hrun1 as (_ & _ & _ & Herr & _).
  cbv zeta. destruct rest as [|g rest'].
  - by intros [= <- <- <- <-].
  - destruct (read_groups_loop (g :: rest') _ _ (t1, d1)) as [[r2 [t2 d2]] ev2]
      eqn:Hrest.
    intros [= -> <- <- <-] _. by eapply IH.
Qed.

(** With well-formed answers, a batch that succeeds has written only
    inside the windows of its groups. *)
Lemma read_groups_loop_ok groups :
  well_formed_answers ->
  forall regs dly t d res t' d' ev,
    read_groups_loop groups regs dly (t, d) = (Ok res, (t', d'), ev) ->
    (forall a, Forall (fun g => a < g.2.1 \/ g.2.1 + g.2.2 <= a) groups ->
               res !! a = regs !! a) /\
    (groups <> [] -> consecutive_errors t' = 0).
Proof.
  intros Hwf. induction groups as [|[name [start count]] rest IH];
    intros regs dly t d res t' d' ev.
  - by intros [= <- <- <- <-].
  - rewrite read_groups_loop_step.
    destruct (_read_registers start count true (t, d)) as [[[values|e] [t1 d1]] ev1]
      eqn:Hrun1; [|done].
    apply read_registers_ok in Hrun1 as (_ & _ & _ & Herr & d0 & Hd0).
    apply Hwf in Hd0. cbn [rd_count] in Hd0.
    assert (Hstore : forall a, a < start \/ start + count <= a ->
              store_values start values regs !! a = regs !! a).
    { intros a Ha. destruct values as [|v vs]; [done|].
      apply store_values_lookup. cbn [length] in *. lia. }
    cbv zeta. destruct rest as [|g rest'].
    + intros [= <- <- <- <-]. split; [|done].
      intros a [Ha _]%Forall_cons. by apply Hstore.
    + destruct (read_groups_loop (g :: rest') _ _ (t1, d1)) as [[r2 [t2 d2]] ev2]
        eqn:Hrest.
      intros [= -> <- <- <-].
      apply IH in Hrest as [Hlook Herr2]. split; [|intros _; by apply Herr2].
      intros a [Ha Hrest]%Forall_cons. rewrite Hlook by done. by apply Hstore.
Qed.

Lemma decode_field_missing regs def :
  regs !! address def = None -> decode_field regs def = None.
Proof.
  intros Hmiss. unfold decode_field. rewrite Hmiss. by destruct (bit_width def).
Qed.

Lemma read_energy_unfold w :
  read_energy w =
  match _read_register_groups (Some ["power_energy"%string; "status_energy"%string]) w with
  | (Raise e, w1, ev1) => (Raise e, w1, ev1)
  | (Ok input_registers, w1, ev1) =>
      match _read_register_groups (Some ["bms_data"%string]) w1 with
      | (Ok bms_registers, w2, ev2) =>
          (Ok (decode_record energy_register_map (update input_registers bms_registers)),
           w2, ev1 ++ ev2)
      | (Raise e, w2, ev2) =>
          if is_read_or_timeout e
          then (Ok (decode_record energy_register_map input_registers), w2, ev1 ++ ev2)
          else (Raise e, w2, ev1 ++ ev2)
      end
  end.
Proof.
  unfold read_energy. rewrite bind_run.
  destruct (_read_register_groups (Some ["power_energy"%string; "status_energy"%string]) w)
    as [[[input_registers|e] w1] ev1]; [|done].
  rewrite bind_run, try_except_run, bind_run.
  destruct (_read_register_groups (Some ["bms_data"%string]) w1)
    as [[[bms_registers|e] w2] ev2].
  - cbn. by rewrite !app_nil_r.
  - destruct (is_read_or_timeout e); cbn; by rewrite ?app_nil_r.
Qed.

(** ** The supplementary BMS read of [read_energy] *)

(** Claim C5.  A failure of a primary group ([power_energy],
    [status_energy]) fails [read_energy] with that error.  A read or
    timeout error of the supplementary [bms_data] group does not: the
    record is decoded from the registers of the primary groups alone
    (with a positive error limit a failed [bms_data] read is always
    such an error).  On a device that answers with no more registers
    than it is asked for, the fields
    that live in the BMS window, registers 80 to 112, are then [None].
    When the [bms_data] read succeeds its registers are merged in. *)
Theorem read_energy_bms_supplementary t d :
  let primary :=
    _read_register_groups (Some ["power_energy"%string; "status_energy"%string]) (t, d) in
  let run := read_energy (t, d) in
  (forall e, primary.1.1 = Raise e -> run.1.1 = Raise e) /\
  (forall input_registers, primary.1.1 = Ok input_registers ->
     let bms := _read_register_groups (Some ["bms_data"%string]) primary.1.2 in
     (forall e, bms.1.1 = Raise e -> is_read_or_timeout e = true ->
        run.1.1 = Ok (decode_record energy_register_map input_registers)) /\
     (forall e, bms.1.1 = Raise e -> 0 < max_consecutive_errors t ->
        is_read_or_timeout e = true) /\
     (forall bms_registers, bms.1.1 = Ok bms_registers ->
        run.1.1 = Ok (decode_record energy_register_map
                        (update input_registers bms_registers))) /\
     (well_formed_answers ->
      forall def, def ∈ energy_register_map -> 80 <= address def <= 112 ->
        decode_field input_registers def = None)).
Proof.
  intros primary run. subst run primary. rewrite read_energy_unfold.
  destruct (_read_register_groups _ (t, d)) as [[[input_registers|e] [t1 d1]] ev1]
    eqn:Hprimary; cbn [fst snd].
  2:{ split; [by intros ? [= ->] | by intros ? [=]]. }
  split; [by intros ? [=]|]. intros ? [= <-].
  rewrite read_register_groups_unfold in Hprimary.
  destruct (reconnect_if_needed_cases t d)
    as (r0 & t0 & d0 & ev0 & Hrun0 & _ & _ & Hmax0 & _).
  rewrite Hrun0 in Hprimary. destruct r0 as [[]|e]; [|done].
  cbn [fst snd] in Hprimary.
  destruct (read_groups_loop _ _ _ (t0, d0)) as [[r [t1' d1']] ev] eqn:Hloop.
  injection Hprimary as -> -> -> <-.
  destruct (read_groups_loop_spec
              (select_groups (Some ["power_energy"%string; "status_energy"%string]))
              ∅ (inter_register_delay t0) t0 d0)
    as (r' & t' & d' & ev' & Hloop' & Hset & _).
  rewrite Hloop in Hloop'. injection Hloop' as <- <- <- <-.
  destruct (_read_register_groups (Some ["bms_data"%string]) (t1, d1))
    as [[[bms_registers|e] w2] ev2] eqn:Hbms; cbn [fst snd].
  - split_and!; [by intros ? [=] | by intros ? [=] | by intros ? [= ->] |].
    intros Hwf def _ Haddr. apply decode_field_missing.
    destruct (read_groups_loop_ok _ Hwf _ _ _ _ _ _ _ _ Hloop) as [Hlook _].
    rewrite Hlook; [apply lookup_empty|].
    cbn. repeat constructor; cbn; lia.
  - split_and!.
    + intros ? [= <-] ->. done.
    + intros ? [= <-] Hmax.
      pose proof (read_groups_loop_errors _ _ _ _ _ _ _ _ _ Hloop) as Herr.
      rewrite read_register_groups_unfold in Hbms.
      destruct (reconnect_if_needed_cases t1 d1)
        as (r2 & t2 & d2 & ev3 & Hrun2 & _ & _ & _ & _ & Hnone).
      destruct Hnone as (-> & -> & -> & ->).
      { rewrite Herr by done. destruct Hset as (_&_&_&_&_&_&_&->). lia. }
      rewrite Hrun2 in Hbms. cbn [fst snd] in Hbms.
      destruct (read_groups_loop _ _ _ (t1, d1)) as [[r3 w3] ev4] eqn:Hloop3.
      injection Hbms as -> _ _. by eapply read_groups_loop_raise.
    + by intros ? [=].
    + intros Hwf def _ Haddr. apply decode_field_missing.
      destruct (read_groups_loop_ok _ Hwf _ _ _ _ _ _ _ _ Hloop) as [Hlook _].
      rewrite Hlook; [apply lookup_empty|].
      cbn. repeat constructor; cbn; lia.
Qed.

End EnergyFacts.

Section IdentityFacts.

Context {Dev : Type} `{!Client Dev} `{!RegisterMaps}.

Implicit Types (t : Transport) (d : Dev) (w : Transport * Dev).

(** The requests of one call of [_read_registers] on a connected
    transport: the same request, at least once. *)
Lemma read_registers_requests address count input t d :
  connected t = true -> client t = true -> 0 <= retries t ->
  let rs := reads (_read_registers address count input (t, d)).2 in
  rs <> [] /\
  Forall (eq (mkRead input address (Z.min count 40) (unit_id t))) rs.
Proof.
  intros Hconn Hcl Hret rs. subst rs.
  pose proof (read_registers_issues address count input t d Hconn Hcl Hret) as Hin.
  destruct (read_registers_cases address count input t d)
    as (r & t' & d' & ev & Hrun & _ & Hatt & _).
  rewrite Hrun in *. cbn [snd] in *. split.
  - intros Hnil. rewrite Hnil in Hin. by apply elem_of_nil in Hin.
  - by apply only_attempts_reads.
Qed.

Lemma read_serial_number_unfold w :
  read_serial_number w =
  match _read_registers 115 SERIAL_REGISTER_COUNT true w with
  | (Ok values, w1, ev) => (Ok (decode_ascii values), w1, ev)
  | (Raise e, w1, ev) => (Raise e, w1, ev)
  end.
Proof.
  unfold read_serial_number, read_serial_number_async, _read_input_registers.
  rewrite bind_run. cbn [get_self fst snd app]. rewrite bind_run.
  destruct (_read_registers 115 SERIAL_REGISTER_COUNT true w) as [[[values|e] w1] ev];
    cbn; by rewrite ?app_nil_r.
Qed.

Lemma read_firmware_version_unfold w :
  read_firmware_version w =
  match _read_registers 7 4 false w with
  | (Ok values, w1, ev) => (Ok (strip (decode_ascii values)), w1, ev)
  | (Raise e, w1, ev) => (Ok ""%string, w1, ev)
  end.
Proof.
  unfold read_firmware_version, read_firmware_version_async, _read_holding_registers.
  rewrite try_except_run, bind_run.
  destruct (_read_registers 7 4 false w) as [[[values|e] w1] ev];
    cbn; by rewrite ?app_nil_r.
Qed.

Lemma read_device_type_unfold w :
  read_device_type w =
  match _read_registers 19 1 false w with
  | (Ok (v :: _), w1, ev) => (Ok v, w1, ev)
  | (Ok [], w1, ev) => (Raise OtherException, w1, ev)
  | (Raise e, w1, ev) => (Raise e, w1, ev)
  end.
Proof.
  unfold read_device_type, read_device_type_async, _read_holding_registers.
  rewrite bind_run.
  destruct (_read_registers 19 1 false w) as [[[[|v values]|e] w1] ev];
    cbn; by rewrite ?app_nil_r.
Qed.

(** ** The identity reads *)

(** Claim C2, as the code has it.  On a connected transport the device
    type is read from holding register 19 and the firmware code from the
    four holding registers 7 to 10, both with FC3; the serial number is
    read from the input registers, with FC4, from the window that starts
    at 115.  The firmware code and the serial number are the two ASCII
    bytes of each word of their window, the firmware code stripped of
    surrounding blanks. *)
Theorem identity_reads t d :
  connected t = true -> client t = true -> 0 <= retries t ->
  let device_type := read_device_type (t, d) in
  let firmware := read_firmware_version (t, d) in
  let serial_number := read_serial_number (t, d) in
  (reads device_type.2 <> [] /\
   Forall (fun r => function_code r = 3 /\ rd_address r = 19 /\ rd_count r = 1)
     (reads device_type.2)) /\
  (reads firmware.2 <> [] /\
   Forall (fun r => function_code r = 3 /\ rd_address r = 7 /\ rd_count r = 4)
     (reads firmware.2)) /\
  (reads serial_number.2 <> [] /\
   Forall (fun r => function_code r = 4 /\ rd_address r = 115 /\
                    rd_count r = Z.min SERIAL_REGISTER_COUNT 40)
     (reads serial_number.2)) /\
  (forall word words,
     (dev_read d (mkRead false 19 1 (unit_id t))).1 = Registers (word :: words) ->
     device_type.1.1 = Ok word) /\
  (forall words,
     (dev_read d (mkRead false 7 4 (unit_id t))).1 = Registers words ->
     firmware.1.1 = Ok (strip (decode_ascii words))) /\
  (forall words,
     (dev_read d (mkRead true 115 (Z.min SERIAL_REGISTER_COUNT 40) (unit_id t))).1
       = Registers words ->
     serial_number.1.1 = Ok (decode_ascii words)).
Proof.
  intros Hconn Hcl Hret device_type firmware serial_number.
  subst device_type firmware serial_number.
  rewrite read_device_type_unfold, read_firmware_version_unfold,
    read_serial_number_unfold.
  pose proof (read_registers_requests 19 1 false t d Hconn Hcl Hret) as [Hne1 Hall1].
  pose proof (read_registers_requests 7 4 false t d Hconn Hcl Hret) as [Hne2 Hall2].
  pose proof (read_registers_requests 115 SERIAL_REGISTER_COUNT true t d Hconn Hcl Hret)
    as [Hne3 Hall3].
  pose proof (fun regs => read_registers_answered 19 1 false t d regs Hconn Hcl Hret)
    as Hans1.
  pose proof (fun regs => read_registers_answered 7 4 false t d regs Hconn Hcl Hret)
    as Hans2.
  pose proof (fun regs => read_registers_answered 115 SERIAL_REGISTER_COUNT true t d regs
                            Hconn Hcl Hret) as Hans3.
  cbv zeta in Hans1, Hans2, Hans3.
  change (Z.min 1 40) with 1 in *. change (Z.min 4 40) with 4 in *.
  destruct (_read_registers 19 1 false (t, d)) as [[[[|v1 vs1]|e1] w1] ev1];
    destruct (_read_registers 7 4 false (t, d)) as [[[v2|e2] w2] ev2];
    destruct (_read_registers 115 SERIAL_REGISTER_COUNT true (t, d))
      as [[[v3|e3] w3] ev3];
    cbn [fst snd] in *.
  all: split_and!; try done.
  all: try (eapply Forall_impl; [eassumption|]; by intros ? <-).
  all: try (intros word words Hw; specialize (Hans1 _ Hw); congruence).
  all: try (intros words Hw; specialize (Hans2 _ Hw); congruence).
  all: try (intros words Hw; specialize (Hans3 _ Hw); congruence).
Qed.

End IdentityFacts.

(** ** CIDR ranges *)

(** Claim C8, as the tests have it.  The range 192.168.1.0/24 gives
    the 254 hosts 192.168.1.1 to 192.168.1.254, without .0 and .255.
    For a CIDR range of prefix at most 30 the hosts are the addresses
    strictly between the network and the broadcast address; a /32 gives
    its one address. *)
Theorem cidr_hosts_exclude_network_and_broadcast :
  (forall tolerance,
     parse_ip_range tolerance "192.168.1.0/24" = Hosts (seqZ 3232235777 254)) /\
  format_ip <$> seqZ 3232235777 254
    = (fun i => "192.168.1." +:+ pretty i) <$> seqZ 1 254 /\
  (forall tolerance ip_range hosts,
     existsb (Ascii.eqb "/") (list_ascii_of_string (strip ip_range)) = true ->
     parse_ip_range tolerance ip_range = Hosts hosts ->
     exists ip prefix,
       parse_cidr (list_ascii_of_string (strip ip_range)) = Some (ip, prefix) /\
       hosts = cidr_hosts ip prefix /\
       (prefix <= 30 ->
        (network_address ip prefix ∉ hosts) /\
        (broadcast_address ip prefix ∉ hosts) /\
        forall a, a ∈ hosts <->
                  network_address ip prefix < a < broadcast_address ip prefix) /\
       (prefix = 32 -> hosts = [ip])).
Proof.
  split_and!; [by intros tolerance; vm_compute | by vm_compute |].
  intros tolerance ip_range hosts Hslash. unfold parse_ip_range.
  cbv zeta. rewrite Hslash.
  destruct (existsb (Ascii.eqb ":") _); [done|].
  destruct (parse_cidr _) as [[ip prefix]|]; [|done].
  destruct (negb _); [done|].
  destruct (MAX_SAFE_HOSTS <? host_count prefix); [done|].
  intros [= <-]. exists ip, prefix. split_and!; [done | done | |].
  - intros Hp. unfold cidr_hosts.
    rewrite (proj2 (Z.eqb_neq prefix 32)) by lia.
    rewrite (proj2 (Z.eqb_neq prefix 31)) by lia.
    split_and!.
    + rewrite elem_of_seqZ. lia.
    + rewrite elem_of_seqZ. lia.
    + intros a. rewrite elem_of_seqZ. lia.
  - intros ->. unfold cidr_hosts, network_address. cbn. by rewrite Z.mod_1_r, Z.sub_0_r.
Qed.

(** The network of a /32 is its own network and broadcast address, and
    its only host. *)
Lemma slash32_keeps_its_address :
  ~ cidr_excludes_network_and_broadcast (fun _ _ => true) "192.168.1.50/32".
Proof.
  intros Hclaim.
  destruct (Hclaim 3232235826 32 [3232235826]) as [Hnet _];
    [by vm_compute | by vm_compute |].
  apply Hnet. vm_compute. by left.
Qed.

(** * The claims at concrete inputs *)

Section Examples.

#[local] Existing Instance example_maps.

(** The register file meets the assumptions made of a device. *)
Example register_file_answers_every_read : answers_every_read (Dev := RegisterFile).
Proof. intros d r. by eexists. Qed.

Example register_file_well_formed : well_formed_answers (Dev := RegisterFile).
Proof.
  intros d r regs [= <-]. unfold sim_window. by rewrite length_fmap, length_seq.
Qed.

Example register_file_accepts_every_write : accepts_every_write (Dev := RegisterFile).
Proof. by intros d f. Qed.

(** The retry policy on a device that times out, answers with an
    exception response, then answers. *)
Lemma read_registers_retry_policy_witness :
  let address := 0 in
  let count := 8 in
  let input := true in
  let t := connected_transport in
  let d := flaky_device in
  (connected t = true /\ client t = true /\ 0 <= retries t <= 1024) /\
  (let req := mkRead input address (Z.min count 40) (unit_id t) in
   let run := _read_registers address count input (t, d) in
   exists outcomes o_last,
     device_answers d req (S (length outcomes)) = outcomes ++ [o_last] /\
     (length outcomes <= Z.to_nat (retries t))%nat /\
     Forall (fun o => is_Some (caught_failure input address o)) outcomes /\
     (is_Some (caught_failure input address o_last) ->
      length outcomes = Z.to_nat (retries t)) /\
     run.2 = retry_log t req 0 (length outcomes) ++ [EvRead req] /\
     run.1.1 = final_result input address o_last /\
     (o_last = ErrorResponse ->
      run.1.1 = Raise (TransportReadError (MsgModbusReadError address) None)) /\
     (forall e err, o_last = Raises e ->
        classify_read_failure input address e = Some err ->
        run.1.1 = Raise err /\ (err = e \/ cause_of err = Some e))).
Proof.
  cbv zeta. split.
  - split_and!; [reflexivity | reflexivity | by vm_compute | by vm_compute].
  - apply (read_registers_retry_policy 0 8 true connected_transport flaky_device);
      [reflexivity | reflexivity | split; by vm_compute].
Defined.

(** Three exception responses in a row: three requests go out. *)
Lemma exception_response_is_retried :
  ~ exception_response_not_retried (connected_transport, always_error_device) 0 1 true.
Proof.
  intros Hclaim. specialize (Hclaim eq_refl). vm_compute in Hclaim. discriminate.
Qed.

Example exception_response_attempts :
  (_read_registers 0 1 true (connected_transport, always_error_device)).2 =
  [ EvRead (mkRead true 0 1 1); EvBackoff ((1 # 2) * inject_Z 1);
    EvRead (mkRead true 0 1 1); EvBackoff ((1 # 2) * inject_Z 2);
    EvRead (mkRead true 0 1 1) ].
Proof. reflexivity. Qed.

(** The identity reads of an inverter "CE12345678". *)
Lemma identity_reads_witness :
  let t := connected_transport in
  let d := identity_device in
  (connected t = true /\ client t = true /\ 0 <= retries t) /\
  (let device_type := read_device_type (t, d) in
   let firmware := read_firmware_version (t, d) in
   let serial_number := read_serial_number (t, d) in
   (reads device_type.2 <> [] /\
    Forall (fun r => function_code r = 3 /\ rd_address r = 19 /\ rd_count r = 1)
      (reads device_type.2)) /\
   (reads firmware.2 <> [] /\
    Forall (fun r => function_code r = 3 /\ rd_address r = 7 /\ rd_count r = 4)
      (reads firmware.2)) /\
   (reads serial_number.2 <> [] /\
    Forall (fun r => function_code r = 4 /\ rd_address r = 115 /\
                     rd_count r = Z.min SERIAL_REGISTER_COUNT 40)
      (reads serial_number.2)) /\
   (forall word words,
      (dev_read d (mkRead false 19 1 (unit_id t))).1 = Registers (word :: words) ->
      device_type.1.1 = Ok word) /\
   (forall words,
      (dev_read d (mkRead false 7 4 (unit_id t))).1 = Registers words ->
      firmware.1.1 = Ok (strip (decode_ascii words))) /\
   (forall words,
      (dev_read d (mkRead true 115 (Z.min SERIAL_REGISTER_COUNT 40) (unit_id t))).1
        = Registers words ->
      serial_number.1.1 = Ok (decode_ascii words))).
Proof.
  cbv zeta. split.
  - split_and!; [reflexivity | reflexivity | by vm_compute].
  - apply (identity_reads connected_transport identity_device);
      [reflexivity | reflexivity | by vm_compute].
Defined.

Example identity_of_CE12345678 :
  (read_serial_number (connected_transport, identity_device)).1.1 = Ok "CE12345678"%string /\
  (read_firmware_version (connected_transport, identity_device)).1.1 = Ok "FAAB"%string /\
  (read_device_type (connected_transport, identity_device)).1.1 = Ok 2092.
Proof. by vm_compute. Qed.

(** The serial number is asked of the input registers: function code 4. *)
Lemma serial_number_is_read_with_fc4 :
  ~ serial_read_from_holding_registers (connected_transport, identity_device).
Proof.
  unfold serial_read_from_holding_registers. intros Hclaim.
  vm_compute in Hclaim. apply Forall_cons in Hclaim as [Hfc _]. discriminate.
Qed.

(** The coalescing scenario of the spec on a device that accepts every
    write. *)
Lemma write_parameters_coalesces_witness :
  let parameters := scenario_parameters in
  let t := connected_transport in
  let d := identity_device in
  (connected t = true /\ client t = true /\ accepts_every_write (Dev := RegisterFile)) /\
  (let run := write_parameters parameters (t, d) in
   exists runs : list (Z * list Z),
     Forall (fun g => g.2 <> []) runs /\
     StronglySorted gap runs /\
     (forall a v, parameters !! a = Some v <->
        exists g i, g ∈ runs /\ g.2 !! i = Some v /\ a = g.1 + Z.of_nat i) /\
     length runs = size (run_starts parameters) /\
     run.1.1 = Ok true /\
     run.2 = EvWrite <$> writes run.2 /\
     Forall2 (fun f g =>
                frame_address f = g.1 /\ frame_values f = g.2 /\
                write_function_code f = if decide (length g.2 = 1%nat) then 6 else 16)
             (writes run.2) runs).
Proof.
  cbv zeta. split.
  - split_and!; [reflexivity | reflexivity | by intros d f].
  - apply (write_parameters_coalesces scenario_parameters connected_transport
             identity_device); [reflexivity | reflexivity | by intros d f].
Defined.

Example coalescing_scenario :
  writes (write_parameters scenario_parameters (connected_transport, identity_device)).2
    = [WriteMultiple 10 [1; 2; 3] 1; WriteSingle 20 9 1] /\
  size (run_starts scenario_parameters) = 2%nat.
Proof. by vm_compute. Qed.

(** A device without a battery whose register 96 reads 1. *)
Lemma read_battery_below_threshold_witness :
  let include_individual := true in
  let t := connected_transport in
  let d := no_battery_device in
  (0 < INDIVIDUAL_BATTERY_MAX_COUNT /\ (reconnect_if_needed (t, d)).1.1 = Ok tt) /\
  (let run := read_battery include_individual (t, d) in
   exists all_registers,
     (read_runtime_window (reconnect_if_needed (t, d)).1.2).1.1 = Ok all_registers /\
     (exists result, run.1.1 = Ok result) /\
     ((forall v, decode_field all_registers battery_voltage = Some v ->
                 (v < NO_BATTERY_THRESHOLD)%Q) ->
      run.1.1 = Ok None) /\
     ((exists r, r ∈ reads run.2 /\ INDIVIDUAL_BATTERY_BASE_ADDRESS <= rd_address r)
      <-> include_individual = true /\ 0 < default 0 (all_registers !! 96))).
Proof.
  cbv zeta. split.
  - split; [by vm_compute | reflexivity].
  - apply (read_battery_below_threshold true connected_transport no_battery_device);
      [by vm_compute | reflexivity].
Defined.

(** No bank voltage, and yet the range at 5000 is read. *)
Lemma individual_range_read_without_battery :
  ~ no_battery_no_individual_read (connected_transport, no_battery_device).
Proof.
  intros Hclaim.
  destruct (read_runtime_window (connected_transport, no_battery_device)).1.1
    as [all_registers|e] eqn:Hwindow; [|by vm_compute in Hwindow].
  assert (Hvoltage : exists v, decode_field all_registers battery_voltage = Some v /\
                                (v < NO_BATTERY_THRESHOLD)%Q).
  { vm_compute in Hwindow. injection Hwindow as <-.
    eexists. split; [vm_compute; reflexivity | by vm_compute]. }
  destruct Hvoltage as (v & Hv & Hlow).
  destruct (Hclaim all_registers v Hwindow Hv Hlow) as [_ Hreads].
  vm_compute in Hreads.
  apply Forall_cons in Hreads as [_ Hreads].
  apply Forall_cons in Hreads as [_ Hreads].
  apply Forall_cons in Hreads as [Haddr _]. by vm_compute in Haddr.
Qed.

Example no_battery_reads :
  reads (read_battery true (connected_transport, no_battery_device)).2 =
  [mkRead true 0 40 1; mkRead true 64 40 1; mkRead true 5000 30 1] /\
  (read_battery true (connected_transport, no_battery_device)).1.1 = Ok None.
Proof. by vm_compute. Qed.

(** A device that answers no request of the runtime window. *)
Lemma read_battery_survives_read_failure_witness :
  let include_individual := true in
  let t := connected_transport in
  let d := silent_device in
  (reconnect_if_needed (t, d)).1.1 = Ok tt /\
  (let w0 := (reconnect_if_needed (t, d)).1.2 in
   let first := _read_input_registers 0 64 w0 in
   let run := read_battery include_individual (t, d) in
   (exists all_registers individual,
      (read_runtime_window w0).1.1 = Ok all_registers /\
      run.1.1 = Ok (battery_from_modbus_registers battery_voltage NO_BATTERY_THRESHOLD
                      all_registers individual)) /\
   (forall e, first.1.1 = Raise e ->
      (read_runtime_window w0).1.1 = Ok ∅ /\ run.1.1 = Ok None /\
      run.2 = (reconnect_if_needed (t, d)).2 ++ first.2) /\
   (forall values1 e,
      first.1.1 = Ok values1 ->
      (_read_input_registers 64 64 first.1.2).1.1 = Raise e ->
      (read_runtime_window w0).1.1 = Ok (update ∅ (_registers_from_values 0 values1)))).
Proof.
  cbv zeta. split.
  - reflexivity.
  - apply (read_battery_survives_read_failure true connected_transport silent_device).
    reflexivity.
Defined.

Example silent_device_gives_none :
  (read_battery true (connected_transport, silent_device)).1.1 = Ok None /\
  length (reads (read_battery true (connected_transport, silent_device)).2) = 3%nat.
Proof. by vm_compute. Qed.

(** A batch in which the first group needs one retry: the delay doubles
    once and stays. *)
Example pacing_after_a_retry :
  paces (_read_register_groups None
           (connected_transport, mkSim [Raises TimeoutError] (fun a => a) [] true)).2
  = [Qmin ((1 # 20) * 2) 1; Qmin ((1 # 20) * 2) 1; Qmin ((1 # 20) * 2) 1;
     Qmin ((1 # 20) * 2) 1; Qmin ((1 # 20) * 2) 1].
Proof. reflexivity. Qed.

(** Ninety-five parameters from address 100: chunks of 40, 40 and 15. *)
Example chunks_of_95 :
  reads (read_parameters 100 95 (connected_transport, identity_device)).2 =
  [mkRead false 100 40 1; mkRead false 140 40 1; mkRead false 180 15 1].
Proof. by vm_compute. Qed.

(** The energy read on a device whose BMS window times out. *)
Example energy_without_bms :
  (read_energy
     (connected_transport,
      mkSim [ Registers [1; 2]; Registers [3]; Raises TimeoutError;
              Raises TimeoutError; Raises TimeoutError ] (fun _ => 0) [] true)).1.1
  = Ok [("pv1_energy_today"%string, None); ("bms_passthrough_energy"%string, None)].
Proof. by vm_compute. Qed.

End Examples.

(** * Further properties of the transport

    What the code of [_modbus_base.py] shows beyond the claims: the
    error paths of writes, the dictionaries of parameter reads, the
    error counter and the reconnection it triggers, the cost of reads
    and batches, and the traffic of the device-data methods. *)

Section WriteFailureFacts.

Context {Dev : Type} `{!Client Dev} `{!RegisterMaps}.

Implicit Types (t : Transport) (d : Dev) (w : Transport * Dev).

Lemma write_holding_registers_unfold address values t d :
  _write_holding_registers address values (t, d) =
  if connected t then
    if client t then
      let f := write_frame address values (unit_id t) in
      (write_result address (dev_write d f).1, (t, (dev_write d f).2), [EvWrite f])
    else (Raise (TransportConnectionError MsgClientNotInitialized None), (t, d), [])
  else (Raise (TransportConnectionError MsgNotConnected None), (t, d), []).
Proof.
  unfold _write_holding_registers, _ensure_connected, check_client. munfold.
  cbn [fst snd]. destruct (connected t); [|done]. cbn [fst snd].
  destruct (client t); [|done]. cbn [fst snd].
  destruct (dev_write d _) as [[| |e] d1]; done.
Qed.

(** ** A write goes out once *)

(** X1.  On a connected transport [_write_holding_registers] puts one
    frame on the wire, whatever the device answers: a write is not
    retried, and the transport is left as it was, its error counter
    included.  The result is [True] exactly when the device accepts; an
    exception response raises a write error without cause, a timeout a
    timeout error and another I/O error a write error, both with the
    exception of the client as cause. *)
Theorem write_is_never_retried address values t d :
  connected t = true -> client t = true ->
  let frame := write_frame address values (unit_id t) in
  let answer := (dev_write d frame).1 in
  let run := _write_holding_registers address values (t, d) in
  run.2 = [EvWrite frame] /\
  run.1.2 = (t, (dev_write d frame).2) /\
  (run.1.1 = Ok true <-> answer = WriteAccepted) /\
  (answer = WriteErrorResponse ->
   run.1.1 = Raise (TransportWriteError (MsgModbusWriteError address) None)) /\
  (answer = WriteRaises TimeoutError \/ answer = WriteRaises (ModbusIOException true) ->
   exists e, answer = WriteRaises e /\
     run.1.1 = Raise (TransportTimeoutError (MsgTimeoutWriting address) (Some e))) /\
  (answer = WriteRaises OSError \/ answer = WriteRaises (ModbusIOException false) ->
   exists e, answer = WriteRaises e /\
     run.1.1 = Raise (TransportWriteError (MsgFailedToWrite address) (Some e))).
Proof.
  intros Hconn Hcl frame answer run. subst run answer.
  rewrite write_holding_registers_unfold, Hconn, Hcl. cbv zeta. fold frame.
  cbn [fst snd]. split_and!; [done | done | | | |].
  - destruct (dev_write d frame).1 as [| |e]; cbn; [done | split; done |].
    split; [|done]. by destruct e as [[]| | | | | | | |].
  - by intros ->.
  - intros [-> | ->]; eexists; (split; [reflexivity|]); done.
  - intros [-> | ->]; eexists; (split; [reflexivity|]); done.
Qed.

Lemma writes_fmap fs : writes (EvWrite <$> fs) = fs.
Proof. induction fs as [|f fs IH]; [done|]. cbn. f_equal. apply IH. Qed.

Lemma accepted_prefix_refused answers o :
  answers !! accepted_prefix answers = Some o -> o <> WriteAccepted.
Proof.
  induction answers as [|[| |e] rest IH]; cbn; [done | exact IH | | ];
    by intros [= <-].
Qed.

Lemma write_all_spec groups :
  forall t d,
    connected t = true -> client t = true ->
    let frames := (fun g => write_frame g.1 g.2 (unit_id t)) <$> groups in
    let k := accepted_prefix (write_answers d frames) in
    exists r d',
      write_all groups (t, d) = (r, (t, d'), EvWrite <$> take (S k) frames) /\
      (r = Ok tt <-> k = length frames) /\
      (forall f, frames !! k = Some f ->
         exists e, r = Raise e /\
           forall o, write_answers d frames !! k = Some o ->
             Raise e = write_result (frame_address f) o).
Proof.
  induction groups as [|[start values] rest IH]; intros t d Hconn Hcl frames k.
  - exists (Ok tt), d. by split_and!.
  - subst k frames. cbn [write_all]. rewrite bind_run, write_holding_registers_unfold.
    rewrite Hconn, Hcl. cbv zeta. cbn [fmap list_fmap fst snd write_answers].
    set (f := write_frame start values (unit_id t)).
    destruct (dev_write d f) as [o d1] eqn:Hw. cbn [fst snd].
    destruct o as [| |e]; cbn [write_result accepted_prefix].
    + destruct (IH t d1 Hconn Hcl) as (r & d' & Hrun & Hok & Hfail).
      rewrite Hrun. exists r, d'. split_and!.
      * done.
      * rewrite Hok. cbn [length]. rewrite !length_fmap. split; lia.
      * intros f' Hf'. cbn in Hf'. destruct (Hfail f' Hf') as (e & -> & He).
        exists e. split; [done|]. intros o Ho. cbn in Ho. by eapply He.
    + eexists _, d1. split_and!; [reflexivity | by split | ].
      intros f' [= <-]. eexists. split; [reflexivity|].
      intros o [= <-]. subst f. unfold write_frame.
      by destruct values as [|? []].
    + eexists _, d1. split_and!; [reflexivity | by split | ].
      intros f' [= <-]. eexists. split; [reflexivity|].
      intros o [= <-]. subst f. unfold write_frame.
      by destruct values as [|? []].
Qed.

(** ** A refused write stops [write_parameters] *)

(** X2.  [write_parameters] sends the frames of its groups in order and
    stops at the first one the device does not accept: the accepted
    frames before it stay written, the refused frame is the last one
    sent, and the error is what [_write_holding_registers] makes of that
    answer.  The result is [True] exactly when every frame is
    accepted. *)
Theorem write_parameters_stops_at_first_refusal (parameters : gmap Z Z) t d :
  connected t = true -> client t = true ->
  let frames := parameter_frames parameters (unit_id t) in
  let accepted := accepted_prefix (write_answers d frames) in
  let run := write_parameters parameters (t, d) in
  writes run.2 = take (S accepted) frames /\
  run.1.2.1 = t /\
  (run.1.1 = Ok true <-> accepted = length frames) /\
  (forall f o, frames !! accepted = Some f ->
     write_answers d frames !! accepted = Some o ->
     o <> WriteAccepted /\ run.1.1 = write_result (frame_address f) o).
Proof.
  intros Hconn Hcl frames accepted run. subst run accepted frames.
  unfold write_parameters, parameter_frames. rewrite bind_run.
  destruct (write_all_spec (write_groups parameters) t d Hconn Hcl)
    as (r & d' & Hrun & Hok & Hfail).
  rewrite Hrun. unfold ret. destruct r as [[]|e]; cbn [fst snd].
  - rewrite app_nil_r, writes_fmap.
    split_and!; [done | done | | ].
    + split; [intros _; by apply Hok | done].
    + intros f o Hf _. destruct (Hfail f Hf) as (e & [=] & _).
  - rewrite writes_fmap. split_and!; [done | done | | ].
    + split; [done|]. intros Hk. by apply Hok in Hk.
    + intros f o Hf Ho. destruct (Hfail f Hf) as (e' & [= <-] & He).
      split; [by eapply accepted_prefix_refused|]. by apply He.
Qed.

End WriteFailureFacts.

(** ** The dictionary of a contiguous read *)

Lemma store_values_lookup_in values :
  forall start regs i v,
    values !! i = Some v ->
    store_values start values regs !! (start + Z.of_nat i) = Some v.
Proof.
  induction values as [|v0 vs IH]; intros start regs i v Hi; [done|].
  cbn [store_values]. destruct i as [|i].
  - injection Hi as ->. rewrite store_values_lookup by lia.
    rewrite Z.add_0_r. apply lookup_insert_eq.
  - cbn in Hi. replace (start + Z.of_nat (S i)) with (start + 1 + Z.of_nat i) by lia.
    by apply IH.
Qed.

Lemma lookup_registers_from_values start values a :
  _registers_from_values start values !! a =
  if decide (start <= a) then values !! Z.to_nat (a - start) else None.
Proof.
  unfold _registers_from_values. destruct (decide (start <= a)) as [Hle|Hlt].
  - destruct (values !! Z.to_nat (a - start)) as [v|] eqn:Hv.
    + replace a with (start + Z.of_nat (Z.to_nat (a - start))) at 1 by lia.
      by apply store_values_lookup_in.
    + apply lookup_ge_None in Hv. rewrite store_values_lookup by lia. done.
  - rewrite store_values_lookup by lia. done.
Qed.

(** X3.  [_registers_from_values start values] binds [start + i] to
    [values[i]] for every index of the list, and no address outside
    [start .. start + len(values) - 1]. *)
Theorem registers_from_values_lookup start values :
  (forall i, _registers_from_values start values !! (start + Z.of_nat i) = values !! i) /\
  (forall a, a < start \/ start + Z.of_nat (length values) <= a ->
             _registers_from_values start values !! a = None).
Proof.
  split.
  - intros i. rewrite lookup_registers_from_values, decide_True by lia.
    f_equal. lia.
  - intros a Ha. rewrite lookup_registers_from_values.
    destruct (decide (start <= a)); [|done]. apply lookup_ge_None. lia.
Qed.

Lemma update_lookup (d other : gmap Z Z) a :
  update d other !! a = match other !! a with Some v => Some v | None => d !! a end.
Proof.
  unfold update. destruct (other !! a) as [v|] eqn:Ho.
  - by apply lookup_union_Some_l.
  - by apply lookup_union_r.
Qed.

Section ParameterFacts.

Context {Dev : Type} `{!Client Dev} `{!RegisterMaps}.

Implicit Types (t : Transport) (d : Dev) (w : Transport * Dev).

Lemma read_chunks_keys input fuel :
  answers_in_full ->
  forall current_addr remaining result t d,
    connected t = true -> client t = true -> 0 <= retries t ->
    (Z.to_nat remaining <= fuel)%nat ->
    exists regs w',
      (read_chunks fuel (fun a c => _read_registers a c input)
         current_addr remaining result (t, d)).1 = (Ok regs, w') /\
      forall a, is_Some (regs !! a) <->
                is_Some (result !! a) \/ current_addr <= a < current_addr + remaining.
Proof.
  intros Hdev. induction fuel as [|fuel IH];
    intros a n res t d Hconn Hcl Hret Hfuel; cbn [read_chunks].
  - exists res, (t, d). split; [done|]. intros x. split; [by left|]. intros [?|?]; [done|lia].
  - destruct (0 <? n) eqn:Hn.
    2:{ apply Z.ltb_ge in Hn. exists res, (t, d). split; [done|].
        intros x. split; [by left|]. intros [?|?]; [done|lia]. }
    apply Z.ltb_lt in Hn. rewrite bind_run.
    set (req := mkRead input a (Z.min (Z.min n 40) 40) (unit_id t)).
    destruct (Hdev d req) as (values & Hans & Hlen).
    rewrite (read_registers_answered _ _ _ _ _ values) by done. fold req.
    set (t1 := set_consecutive_errors 0 (set_last_read_retried false t)).
    destruct (IH (a + Z.min n 40) (n - Z.min n 40)
                (update res (_registers_from_values a values)) t1 (dev_read d req).2)
      as (regs & w' & Hrun & Hkeys); [done | done | done | lia |].
    destruct (read_chunks _ _ _ _ _ _) as [[r2 w2] ev2]. cbn [fst] in *.
    exists regs, w'. split; [done|]. intros x. rewrite Hkeys.
    rewrite update_lookup, lookup_registers_from_values.
    cbn [rd_count req] in Hlen. rewrite Z.min_l in Hlen by lia.
    destruct (decide (a <= x)) as [Hle|Hlt].
    + destruct (values !! Z.to_nat (x - a)) as [v|] eqn:Hv.
      * apply lookup_lt_Some in Hv. split; [intros _; right; lia | eauto].
      * apply lookup_ge_None in Hv. split; intros [?|?]; first [by left | right; lia].
    + split; intros [?|?]; first [by left | right; lia | lia].
Qed.

(** ** The keys of [read_parameters] *)

(** X4.  On a connected transport and a device that answers every
    request in full, [read_parameters start count] succeeds and the keys
    of its result are exactly the addresses [start .. start + count - 1]. *)
Theorem read_parameters_keys start_address count t d :
  connected t = true -> client t = true -> 0 <= retries t ->
  answers_in_full ->
  exists result,
    (read_parameters start_address count (t, d)).1.1 = Ok result /\
    forall a, is_Some (result !! a) <-> start_address <= a < start_address + count.
Proof.
  intros Hconn Hcl Hret Hdev. unfold read_parameters.
  destruct (read_chunks_keys false (Z.to_nat count) Hdev start_address count ∅ t d)
    as (regs & w' & Hrun & Hkeys); [done | done | done | lia |].
  exists regs. unfold _read_holding_registers. split; [by rewrite Hrun|].
  intros a. rewrite Hkeys, lookup_empty. split; [intros [[? [=]]|?]; done | by right].
Qed.

End ParameterFacts.

(** ** Writing parameters and reading them back *)

Lemma file_store_lookup values :
  forall start regs x,
    file_store start values regs x =
    if decide (start <= x) then default (regs x) (values !! Z.to_nat (x - start))
    else regs x.
Proof.
  induction values as [|v vs IH]; intros start regs x; cbn [file_store].
  - by destruct (decide _).
  - rewrite IH. destruct (decide (start + 1 <= x)) as [H1|H1].
    + rewrite decide_True by lia.
      replace (Z.to_nat (x - start)) with (S (Z.to_nat (x - (start + 1)))) by lia.
      cbn [lookup list_lookup]. 
      destruct (vs !! Z.to_nat (x - (start + 1))); cbn; [done|].
      by rewrite (proj2 (Z.eqb_neq x start)) by lia.
    + destruct (decide (start <= x)) as [H0|H0].
      * assert (x = start) as -> by lia. rewrite Z.eqb_refl, Z.sub_diag. done.
      * by rewrite (proj2 (Z.eqb_neq x start)) by lia.
Qed.

Lemma write_holding_registers_file address values t (d : RegisterFile) :
  connected t = true -> client t = true ->
  _write_holding_registers address values (t, d) =
  (Ok true, (t, mkFile (input_file d) (file_store address values (holding_file d))),
   [EvWrite (write_frame address values (unit_id t))]).
Proof.
  intros Hconn Hcl. rewrite write_holding_registers_unfold, Hconn, Hcl.
  cbv zeta. unfold write_frame. by destruct values as [|v [|v' vs]].
Qed.

Lemma write_all_file groups :
  forall t (d : RegisterFile),
    connected t = true -> client t = true ->
    exists d' ev,
      write_all groups (t, d) = (Ok tt, (t, d'), ev) /\
      forall x vx,
        (forall g i v, g ∈ groups -> g.2 !! i = Some v -> x = g.1 + Z.of_nat i -> v = vx) ->
        holding_file d' x = vx \/
        (holding_file d' x = holding_file d x /\
         forall g i, g ∈ groups -> x = g.1 + Z.of_nat i -> g.2 !! i = None).
Proof.
  induction groups as [|[start values] rest IH]; intros t d Hconn Hcl; cbn [write_all].
  - exists d, []. split; [done|]. intros x vx _. right. split; [done|].
    intros g i Hg. by apply elem_of_nil in Hg.
  - rewrite bind_run, write_holding_registers_file by done.
    set (d1 := mkFile _ _).
    destruct (IH t d1 Hconn Hcl) as (d' & ev & Hrun & Hfile).
    rewrite Hrun. eexists d', _. split; [reflexivity|].
    intros x vx Hall.
    destruct (Hfile x vx) as [Hx | [Hx Hnone]].
    { intros g i v Hg. apply Hall. by right. }
    + by left.
    + rewrite Hx. subst d1. cbn [holding_file]. rewrite file_store_lookup.
      destruct (decide (start <= x)) as [Hle|Hlt].
      * destruct (values !! Z.to_nat (x - start)) as [v|] eqn:Hv; cbn.
        -- left. apply (Hall (start, values) (Z.to_nat (x - start)) v);
             [by left | done | cbn; lia].
        -- right. split; [done|].
           intros g i [-> | Hg]%elem_of_cons Hi; [|by eapply Hnone].
           cbn in Hi |- *. by replace i with (Z.to_nat (x - start)) by lia.
      * right. split; [done|].
        intros g i [-> | Hg]%elem_of_cons Hi; [|by eapply Hnone].
        cbn in Hi. lia.
Qed.

Lemma read_chunks_file fuel :
  forall current_addr remaining result t (d : RegisterFile),
    connected t = true -> client t = true -> 0 <= retries t ->
    (Z.to_nat remaining <= fuel)%nat ->
    exists regs t' ev,
      read_chunks fuel _read_holding_registers current_addr remaining result (t, d)
        = (Ok regs, (t', d), ev) /\
      forall a, regs !! a =
        if decide (current_addr <= a < current_addr + remaining)
        then Some (holding_file d a) else result !! a.
Proof.
  induction fuel as [|fuel IH];
    intros a n res t d Hconn Hcl Hret Hfuel; cbn [read_chunks].
  - exists res, t, []. split; [done|]. intros x. by rewrite decide_False by lia.
  - destruct (0 <? n) eqn:Hn.
    2:{ apply Z.ltb_ge in Hn. exists res, t, []. split; [done|].
        intros x. by rewrite decide_False by lia. }
    apply Z.ltb_lt in Hn. rewrite bind_run. unfold _read_holding_registers at 1.
    set (req := mkRead false a (Z.min (Z.min n 40) 40) (unit_id t)).
    rewrite (read_registers_answered _ _ _ _ _ (sim_window (holding_file d) req))
      by done.
    fold req. cbn [dev_read register_file_client snd].
    set (t1 := set_consecutive_errors 0 (set_last_read_retried false t)).
    destruct (IH (a + Z.min n 40) (n - Z.min n 40)
                (update res (_registers_from_values a (sim_window (holding_file d) req)))
                t1 d)
      as (regs & t' & ev & Hrun & Hlook); [done | done | done | lia |].
    rewrite Hrun. eexists regs, t', _. split; [reflexivity|].
    intros x. rewrite Hlook, update_lookup, lookup_registers_from_values.
    unfold sim_window. subst req. cbn [rd_count rd_address].
    rewrite (Z.min_l (Z.min n 40) 40) by lia. rewrite list_lookup_fmap.
    destruct (decide (a + Z.min n 40 <= x < a + Z.min n 40 + (n - Z.min n 40)))
      as [Hin|Hout].
    + by rewrite decide_True by lia.
    + destruct (decide (a <= x)) as [Hle|Hlt].
      * destruct (decide (x < a + Z.min n 40)) as [Hlo|Hhi].
        -- rewrite lookup_seq_lt by lia. cbn.
           rewrite decide_True by lia. do 2 f_equal. lia.
        -- rewrite lookup_seq_ge by lia. cbn. by rewrite decide_False by lia.
      * by rewrite decide_False by lia.
Qed.

(** X6.  Round trip on a register file: after [write_parameters
    parameters], [read_parameters start count] returns for every address
    of its window the value the map gave it, and the value the register
    held before where the map is silent. *)
Theorem write_then_read_parameters (parameters : gmap Z Z) start_address count t
    (d : RegisterFile) :
  connected t = true -> client t = true -> 0 <= retries t ->
  let written := write_parameters parameters (t, d) in
  let read_back := read_parameters start_address count written.1.2 in
  written.1.1 = Ok true /\
  exists result,
    read_back.1.1 = Ok result /\
    forall a, result !! a =
      if decide (start_address <= a < start_address + count)
      then Some (default (holding_file d a) (parameters !! a)) else None.
Proof.
  intros Hconn Hcl Hret written read_back. subst read_back written.
  unfold write_parameters. rewrite bind_run.
  destruct (write_all_file (write_groups parameters) t d Hconn Hcl)
    as (d' & ev & Hrun & Hfile).
  rewrite Hrun. unfold ret. cbn [fst snd]. split; [done|].
  unfold read_parameters.
  destruct (read_chunks_file (Z.to_nat count) start_address count ∅ t d')
    as (regs & t' & ev' & Hread & Hlook); [done | done | done | lia |].
  rewrite Hread. exists regs. split; [done|].
  intros a. rewrite Hlook, lookup_empty.
  destruct (decide _); [|done]. f_equal.
  destruct (write_groups_runs parameters) as (_ & _ & Hruns).
  destruct (parameters !! a) as [v|] eqn:Hp; cbn.
  - destruct (Hfile a v) as [Hx | [_ Hnone]]; [|done|].
    + intros g i v' Hg Hi ->.
      assert (parameters !! (g.1 + Z.of_nat i) = Some v') as Hv'
        by (apply Hruns; eauto).
      congruence.
    + apply Hruns in Hp as (g & i & Hg & Hi & ->).
      by rewrite (Hnone g i Hg eq_refl) in Hi.
  - destruct (Hfile a (holding_file d a)) as [Hx | [Hx _]]; [|done|done].
    intros g i v' Hg Hi ->.
    assert (parameters !! (g.1 + Z.of_nat i) = Some v') as Hv'
      by (apply Hruns; eauto).
    congruence.
Qed.

Section ErrorCounterFacts.

Context {Dev : Type} `{!Client Dev} `{!RegisterMaps}.

Implicit Types (t : Transport) (d : Dev) (w : Transport * Dev).

Lemma classify_read_failure_none input address e :
  classify_read_failure input address e = None -> is_read_or_timeout e = false.
Proof. by destruct e as [[]| | | | | | | |]. Qed.

Lemma classify_read_failure_some input address e err :
  classify_read_failure input address e = Some err -> is_read_or_timeout err = true.
Proof. destruct e as [[]| | | | | | | |]; cbn; by intros [= <-]. Qed.

(** The attempts that are left all fail: the counter has grown by their
    number. *)
Lemma read_attempts_counter address count input todo :
  forall attempt last_err t d,
    Z.of_nat todo + attempt = retries t + 1 ->
    (todo = O -> exists err, last_err = Some err /\ is_read_or_timeout err = true) ->
    let run := read_attempts todo attempt address count input last_err (t, d) in
    (forall regs, run.1.1 = Ok regs -> consecutive_errors run.1.2.1 = 0) /\
    (forall e, run.1.1 = Raise e -> is_read_or_timeout e = true ->
       consecutive_errors run.1.2.1 = consecutive_errors t + Z.of_nat todo /\
       length (reads run.2) = todo) /\
    (forall e, run.1.1 = Raise e -> is_read_or_timeout e = false ->
       consecutive_errors t <= consecutive_errors run.1.2.1
         < consecutive_errors t + Z.of_nat todo).
Proof.
  induction todo as [|todo IH]; intros attempt last_err t d Hsum Hlast run; subst run.
  - destruct (Hlast eq_refl) as (err & -> & Herr). cbn. unfold raise. cbn.
    split_and!; [done | intros e [= <-] _; split; [lia | done] |].
    intros e [= <-]. congruence.
  - rewrite read_attempts_step. cbv zeta.
    set (req := mkRead input address (Z.min count 40) (unit_id t)).
    destruct (attempt_outcome address (dev_read d req).1) as [regs|e0]; cbn [fst snd].
    { split_and!; [done | done | done]. }
    destruct (classify_read_failure input address e0) as [err|] eqn:Hc; cbn [fst snd].
    2:{ apply classify_read_failure_none in Hc.
        split_and!; [done | intros e [= <-]; congruence |].
        intros e _ _. lia. }
    apply classify_read_failure_some in Hc.
    set (t1 := set_consecutive_errors (consecutive_errors t + 1) t).
    destruct (attempt <? retries t).
    + destruct (IH (attempt + 1) (Some err) (set_last_read_retried true t1)
                  (dev_read d req).2) as (Hok & Hfail & Hpass);
        [cbn; lia | intros _; eauto |].
      destruct (read_attempts _ _ _ _ _ _ _) as [[r w2] ev2]. cbn [fst snd] in *.
      split_and!; [done | |].
      * intros e He Hcls. destruct (Hfail e He Hcls) as [Hcnt Hlen].
        subst t1. cbn in Hcnt. split; [lia | cbn; f_equal; exact Hlen].
      * intros e He Hcls. specialize (Hpass e He Hcls). subst t1. cbn in Hpass. lia.
    + destruct (IH (attempt + 1) (Some err) t1 (dev_read d req).2)
        as (Hok & Hfail & Hpass); [cbn; lia | intros _; eauto |].
      destruct (read_attempts _ _ _ _ _ _ _) as [[r w2] ev2]. cbn [fst snd] in *.
      split_and!; [done | |].
      * intros e He Hcls. destruct (Hfail e He Hcls) as [Hcnt Hlen].
        subst t1. cbn in Hcnt. split; [lia | cbn; f_equal; exact Hlen].
      * intros e He Hcls. specialize (Hpass e He Hcls). subst t1. cbn in Hpass. lia.
Qed.

(** A read that failed for good has counted every attempt. *)
Lemma failed_read_counter address count input t d e :
  connected t = true -> client t = true -> 0 <= retries t ->
  (_read_registers address count input (t, d)).1.1 = Raise e ->
  is_read_or_timeout e = true ->
  consecutive_errors (_read_registers address count input (t, d)).1.2.1
  = consecutive_errors t + retries t + 1.
Proof.
  intros Hconn Hcl Hret. rewrite read_registers_unfold, Hconn, Hcl.
  destruct (read_attempts_counter address count input (Z.to_nat (retries t + 1)) 0 None
              (set_last_read_retried false t) d) as (_ & Hfail & _);
    [cbn; lia | lia |].
  cbn [consecutive_errors set_last_read_retried] in *.
  intros He Hcls. destruct (Hfail e He Hcls). lia.
Qed.

(** ** The counter of consecutive errors *)

(** X7.  The counter of consecutive errors after [_read_registers] on a
    connected transport: 0 after a success; its old value plus
    [retries + 1] after a read that failed at every attempt, which then
    has sent [retries + 1] requests; and, when an exception of an
    uncaught class ends the read, a value from the old one up to the
    old one plus [retries]. *)
Theorem read_registers_error_counter address count input t d :
  connected t = true -> client t = true -> 0 <= retries t ->
  let run := _read_registers address count input (t, d) in
  (forall regs, run.1.1 = Ok regs -> consecutive_errors run.1.2.1 = 0) /\
  (forall e, run.1.1 = Raise e -> is_read_or_timeout e = true ->
     consecutive_errors run.1.2.1 = consecutive_errors t + retries t + 1 /\
     length (reads run.2) = Z.to_nat (retries t + 1)) /\
  (forall e, run.1.1 = Raise e -> is_read_or_timeout e = false ->
     consecutive_errors t <= consecutive_errors run.1.2.1
       <= consecutive_errors t + retries t).
Proof.
  intros Hconn Hcl Hret run. subst run. rewrite read_registers_unfold, Hconn, Hcl.
  destruct (read_attempts_counter address count input (Z.to_nat (retries t + 1)) 0 None
              (set_last_read_retried false t) d) as (Hok & Hfail & Hpass);
    [cbn; lia | lia |].
  cbn [consecutive_errors set_last_read_retried] in *.
  split_and!; [done | |].
  - intros e He Hcls. destruct (Hfail e He Hcls). split; [lia | done].
  - intros e He Hcls. specialize (Hpass e He Hcls). lia.
Qed.

Lemma reconnect_if_needed_due t d :
  max_consecutive_errors t <= consecutive_errors t -> client t = true ->
  reconnect_if_needed (t, d) =
  if (dev_connect d).1
  then (Ok tt,
        (set_consecutive_errors 0
           (set_connected true (set_client true
              (set_connected false (set_client false t)))),
         (dev_connect d).2),
        [EvClose; EvConnect])
  else (Raise (TransportConnectionError MsgFailedToConnect None),
        (set_client true (set_connected false (set_client false t)), (dev_connect d).2),
        [EvClose; EvConnect]).
Proof.
  intros Hdue Hcl.
  unfold reconnect_if_needed, _reconnect, disconnect, connect. munfold. cbn.
  rewrite (proj2 (Z.leb_le _ _)) by lia. cbn.
  rewrite (proj2 (Z.ltb_ge _ _)) by lia. cbn. rewrite Hcl. cbn.
  by destruct (dev_connect d) as [[] d1].
Qed.

(** ** Reconnection after a failed read *)

(** X8.  With [max_consecutive_errors <= retries + 1], as with the
    defaults, one read that failed at every attempt makes the next batch
    reconnect: [_read_register_groups] first closes the client and
    connects anew, and when that fails it raises the connection error
    without a read. *)
Theorem failed_read_makes_next_batch_reconnect address count input group_names t d :
  connected t = true -> client t = true -> 0 <= retries t ->
  0 <= consecutive_errors t -> max_consecutive_errors t <= retries t + 1 ->
  let failed := _read_registers address count input (t, d) in
  forall e, failed.1.1 = Raise e -> is_read_or_timeout e = true ->
    let next := _read_register_groups group_names failed.1.2 in
    (exists rest, next.2 = EvClose :: EvConnect :: rest) /\
    ((dev_connect failed.1.2.2).1 = false ->
     next.1.1 = Raise (TransportConnectionError MsgFailedToConnect None) /\
     reads next.2 = [] /\ connected next.1.2.1 = false).
Proof.
  intros Hconn Hcl Hret Hcnt Hmax failed e He Hcls next. subst next.
  pose proof (failed_read_counter address count input t d e Hconn Hcl Hret He Hcls)
    as Hcounter.
  destruct (read_registers_cases address count input t d)
    as (r & t' & d' & ev & Hrun & Hset & _).
  subst failed. rewrite Hrun in *. cbn [fst snd] in *.
  destruct Hset as (_ & _ & Hcl' & _ & _ & _ & _ & Hmax').
  rewrite read_register_groups_unfold, reconnect_if_needed_due by (lia || congruence).
  destruct (dev_connect d') as [[] d1]; cbn [fst snd].
  - destruct (read_groups_loop _ _ _ _) as [[r2 w2] ev2]. cbn [snd].
    split; [by eexists | done].
  - split; [by eexists | done].
Qed.

End ErrorCounterFacts.

Lemma backoffs_retry_log t r attempt n :
  0 <= attempt ->
  (total_sleep (backoffs (retry_log t r attempt n ++ [EvRead r]))
   == retry_delay t * inject_Z (2 ^ (attempt + Z.of_nat n) - 2 ^ attempt))%Q.
Proof.
  revert attempt. induction n as [|n IH]; intros attempt Ha.
  - cbn. rewrite Z.add_0_r, Z.sub_diag. ring.
  - cbn [retry_log app]. 
    change (backoffs (EvRead r :: EvBackoff (retry_delay t * inject_Z (2 ^ attempt))
              :: retry_log t r (attempt + 1) n ++ [EvRead r]))
      with ((retry_delay t * inject_Z (2 ^ attempt))%Q
              :: backoffs (retry_log t r (attempt + 1) n ++ [EvRead r])).
    cbn [total_sleep foldr]. fold (total_sleep (backoffs (retry_log t r (attempt + 1) n ++ [EvRead r]))).
    rewrite IH by lia.
    replace (attempt + Z.of_nat (S n)) with (attempt + 1 + Z.of_nat n) by lia.
    rewrite <- Qmult_plus_distr_r, <- inject_Z_plus.
    replace (2 ^ attempt + (2 ^ (attempt + 1 + Z.of_nat n) - 2 ^ (attempt + 1)))
      with (2 ^ (attempt + 1 + Z.of_nat n) - 2 ^ attempt); [reflexivity|].
    rewrite (Z.pow_add_r 2 attempt 1) by lia. lia.
Qed.

Lemma length_backoffs_retry_log t r attempt n :
  length (backoffs (retry_log t r attempt n ++ [EvRead r])) = n.
Proof.
  revert attempt. induction n as [|n IH]; intros attempt; [done|].
  cbn. f_equal. apply IH.
Qed.

Lemma Qmult_le_l_weak (x y z : Q) : (0 <= z -> x <= y -> z * x <= z * y)%Q.
Proof.
  intros Hz Hxy. rewrite (Qmult_comm z x), (Qmult_comm z y).
  by apply Qmult_le_compat_r.
Qed.

Section BackoffFacts.

Context {Dev : Type} `{!Client Dev} `{!RegisterMaps}.

Implicit Types (t : Transport) (d : Dev) (w : Transport * Dev).

(** ** The cost of one read *)

(** X10.  The cost of one [_read_registers] on a connected transport:
    between 1 and [retries + 1] requests, one backoff between two
    requests, and with [n] requests a total backoff of
    [retry_delay * (2^(n-1) - 1)], at most
    [retry_delay * (2^retries - 1)]. *)
Theorem read_registers_cost address count input t d :
  connected t = true -> client t = true -> 0 <= retries t ->
  (0 <= retry_delay t)%Q ->
  let run := _read_registers address count input (t, d) in
  (1 <= length (reads run.2) <= Z.to_nat (retries t + 1))%nat /\
  length (backoffs run.2) = (length (reads run.2) - 1)%nat /\
  (total_sleep (backoffs run.2)
   == retry_delay t * inject_Z (2 ^ Z.of_nat (length (reads run.2) - 1) - 1))%Q /\
  (total_sleep (backoffs run.2) <= retry_delay t * inject_Z (2 ^ retries t - 1))%Q.
Proof.
  intros Hconn Hcl Hret Hdelay run. subst run.
  rewrite read_registers_unfold, Hconn, Hcl.
  destruct (read_attempts_spec address count input (Z.to_nat (retries t + 1)) 0 None
              (set_last_read_retried false t) d)
    as (outcomes & o_last & t1 & d1 & _ & Hlen & _ & _ & Hrun & _);
    [lia | cbn; lia |].
  rewrite Hrun. cbn [snd unit_id set_last_read_retried].
  set (req := mkRead input address (Z.min count 40) (unit_id t)).
  rewrite reads_retry_log, length_replicate.
  assert (Hsum := backoffs_retry_log (set_last_read_retried false t) req 0
                    (length outcomes) ltac:(lia)).
  cbn [retry_delay set_last_read_retried] in Hsum.
  rewrite Z.add_0_l, Z.pow_0_r in Hsum.
  rewrite length_backoffs_retry_log.
  split_and!.
  - lia.
  - lia.
  - cbn. lia.
  - rewrite Hsum. replace (S (length outcomes) - 1)%nat with (length outcomes) by lia.
    reflexivity.
  - rewrite Hsum. apply Qmult_le_l_weak; [done|].
    rewrite <- Zle_Qle. apply Z.sub_le_mono_r, Z.pow_le_mono_r; lia.
Qed.

End BackoffFacts.

Section PacingBounds.

Context {Dev : Type} `{!Client Dev} `{!RegisterMaps}.

Implicit Types (t : Transport) (d : Dev) (w : Transport * Dev).

Lemma next_delay_bounds (dly : Q) (retried : bool) :
  (0 <= dly)%Q -> (dly <= 1)%Q ->
  let dly' := if retried then Qmin (dly * 2) 1 else dly in
  (dly <= dly')%Q /\ (dly' <= 1)%Q.
Proof.
  intros H0 H1. destruct retried; cbn; [|split; [apply Qle_refl | done]].
  split; [|apply Q.le_min_r].
  apply Q.min_glb; [lra | done].
Qed.

Lemma read_groups_loop_paces groups :
  forall regs dly t d,
    (0 <= dly)%Q -> (dly <= 1)%Q ->
    let ev := (read_groups_loop groups regs dly (t, d)).2 in
    Forall (fun q => dly <= q /\ q <= 1)%Q (paces ev) /\
    StronglySorted Qle (paces ev) /\
    (length (paces ev) <= length groups - 1)%nat.
Proof.
  induction groups as [|[name [start count]] rest IH]; intros regs dly t d H0 H1 ev;
    subst ev.
  - cbn. split_and!; [constructor | constructor | lia].
  - rewrite read_groups_loop_step.
    destruct (read_registers_cases start count true t d)
      as (r1 & t1 & d1 & ev1 & Hrun1 & _ & Hatt & _).
    rewrite Hrun1. pose proof (only_attempts_no_pace _ _ Hatt) as Hnp.
    destruct r1 as [values|e]; cbn [fst snd].
    2:{ rewrite paces_no_pace by done. split_and!; [constructor | constructor | cbn; lia]. }
    cbv zeta.
    destruct (next_delay_bounds dly (last_read_retried t1) H0 H1) as [Hlo Hhi].
    set (dly' := if last_read_retried t1 then Qmin (dly * 2) 1 else dly) in *.
    destruct rest as [|g rest'].
    { cbn [snd]. rewrite paces_no_pace by done.
      split_and!; [constructor | constructor | cbn; lia]. }
    destruct (IH (store_values start values regs) dly' t1 d1) as (Hall & Hsorted & Hlen);
      [by eapply Qle_trans | done |].
    destruct (read_groups_loop _ _ _ _) as [[r2 w2] ev2]. cbn [snd] in *.
    rewrite paces_app, paces_no_pace by done. cbn [app].
    change (paces (EvPace dly' :: ev2)) with (dly' :: paces ev2).
    split_and!.
    + constructor; [done|]. eapply Forall_impl; [exact Hall|].
      intros q [Hq1 Hq2]. split; [by eapply Qle_trans | done].
    + constructor; [done|]. eapply Forall_impl; [exact Hall|]. by intros q [Hq _].
    + cbn [length] in *. lia.
Qed.

(** ** The sleeps of a batch *)

(** X12.  With an inter-group delay between 0 and 1 second, the sleeps
    of a batch never decrease, each lies between the configured delay
    and one second, and there are at most one fewer than groups, also in
    a batch that fails. *)
Theorem batch_pacing_bounds group_names t d :
  (0 <= inter_register_delay t)%Q -> (inter_register_delay t <= 1)%Q ->
  let run := _read_register_groups group_names (t, d) in
  Forall (fun q => inter_register_delay t <= q /\ q <= 1)%Q (paces run.2) /\
  StronglySorted Qle (paces run.2) /\
  (length (paces run.2) <= length (select_groups group_names) - 1)%nat.
Proof.
  intros H0 H1 run. subst run. rewrite read_register_groups_unfold.
  destruct (reconnect_if_needed_cases t d)
    as (r0 & t0 & d0 & ev0 & Hrun0 & _ & Hd & _ & Hev0 & _).
  rewrite Hrun0. pose proof (connection_events_no_pace _ Hev0) as Hnp.
  destruct r0 as [[]|e]; cbn [fst snd].
  - destruct (read_groups_loop_paces (select_groups group_names) ∅
                (inter_register_delay t0) t0 d0) as (Hall & Hsorted & Hlen);
      [by rewrite Hd | by rewrite Hd |].
    destruct (read_groups_loop _ _ _ _) as [[r w2] ev]. cbn [snd] in *.
    rewrite paces_app, paces_no_pace by done. cbn [app]. by rewrite <- Hd.
  - rewrite paces_no_pace by done. split_and!; [constructor | constructor | cbn; lia].
Qed.

End PacingBounds.

Section BatteryWindow.

Context {Dev : Type} `{!Client Dev} `{!RegisterMaps}.

Implicit Types (t : Transport) (d : Dev) (w : Transport * Dev).

(** The requests of the first [try] block of [read_battery] and, on a
    device that sends no more words than it is asked for, the addresses
    of the dictionary it fills. *)
Lemma read_runtime_window_spec t d :
  let run := read_runtime_window (t, d) in
  Forall (fun r => rd_count r = 40 /\ (rd_address r = 0 \/ rd_address r = 64))
    (reads run.2) /\
  (well_formed_answers ->
   forall all_registers a,
     run.1.1 = Ok all_registers -> is_Some (all_registers !! a) ->
     0 <= a < 40 \/ 64 <= a < 104).
Proof.
  intros run. subst run. rewrite read_runtime_window_unfold.
  destruct (read_registers_cases 0 64 true t d)
    as (r1 & t1 & d1 & ev1 & Hrun1 & _ & Hatt1 & _).
  rewrite Hrun1. apply only_attempts_reads in Hatt1.
  assert (Hev1 : Forall (fun r => rd_count r = 40 /\ (rd_address r = 0 \/ rd_address r = 64))
                   (reads ev1)).
  { eapply Forall_impl; [exact Hatt1|]. intros ? <-. cbn. by split; [|left]. }
  destruct r1 as [values1|e].
  - apply read_registers_ok in Hrun1 as (_ & _ & _ & _ & d0 & Hans1).
    destruct (read_registers_cases 64 64 true t1 d1)
      as (r2 & t2 & d2 & ev2 & Hrun2 & _ & Hatt2 & _).
    rewrite Hrun2. apply only_attempts_reads in Hatt2.
    assert (Hev2 : Forall (fun r => rd_count r = 40 /\ (rd_address r = 0 \/ rd_address r = 64))
                     (reads ev2)).
    { eapply Forall_impl; [exact Hatt2|]. intros ? <-. cbn. by split; [|right]. }
    cbv zeta. destruct r2 as [values2|e]; cbn [fst snd].
    + apply read_registers_ok in Hrun2 as (_ & _ & _ & _ & d0' & Hans2).
      split; [rewrite reads_app; by apply Forall_app|].
      intros Hwf regs a [= <-]. apply Hwf in Hans1, Hans2. cbn in Hans1, Hans2.
      rewrite !update_lookup, !lookup_registers_from_values, lookup_empty.
      destruct (decide (64 <= a)) as [H64|H64].
      * destruct (values2 !! Z.to_nat (a - 64)) as [v|] eqn:Hv.
        -- apply lookup_lt_Some in Hv. intros _. right. lia.
        -- rewrite decide_True by lia.
           destruct (values1 !! Z.to_nat (a - 0)) as [v|] eqn:Hv1; [|by intros [? [=]]].
           apply lookup_lt_Some in Hv1. lia.
      * destruct (decide (0 <= a)) as [H0|H0]; [|by intros [? [=]]].
        destruct (values1 !! Z.to_nat (a - 0)) as [v|] eqn:Hv1; [|by intros [? [=]]].
        apply lookup_lt_Some in Hv1. intros _. left. lia.
    + split; [rewrite reads_app; by apply Forall_app|].
      intros Hwf regs a [= <-]. apply Hwf in Hans1. cbn in Hans1.
      rewrite !update_lookup, !lookup_registers_from_values, lookup_empty.
      destruct (decide (0 <= a)) as [H0|H0]; [|by intros [? [=]]].
      destruct (values1 !! Z.to_nat (a - 0)) as [v|] eqn:Hv1; [|by intros [? [=]]].
      apply lookup_lt_Some in Hv1. intros _. left. lia.
  - cbn [fst snd]. split; [done|]. intros _ regs a [= <-].
    rewrite lookup_empty. by intros [? [=]].
Qed.

(** ** The registers [read_battery] asks for *)

(** X18.  Below the error limit, the registers [read_battery] asks for
    are 0 to 39, 64 to 103 and the individual range from 5000 on: its
    two reads of 64 words are sent as reads of 40.  On a device that
    answers with no more words than it is asked for, the dictionary of
    the runtime window holds no address in 40 to 63, nor from 104 on. *)
Theorem read_battery_requested_registers include_individual t d :
  consecutive_errors t < max_consecutive_errors t ->
  let run := read_battery include_individual (t, d) in
  (forall r a, r ∈ reads run.2 ->
     rd_address r <= a < rd_address r + rd_count r ->
     0 <= a < 40 \/ 64 <= a < 104 \/ INDIVIDUAL_BATTERY_BASE_ADDRESS <= a) /\
  (well_formed_answers ->
   forall all_registers a,
     (read_runtime_window (t, d)).1.1 = Ok all_registers ->
     is_Some (all_registers !! a) ->
     0 <= a < 40 \/ 64 <= a < 104).
Proof.
  intros Hlow run. subst run. split.
  - rewrite read_battery_unfold.
    destruct (reconnect_if_needed_cases t d)
      as (r0 & t0 & d0 & ev0 & Hrun0 & _ & _ & _ & _ & Hnoop).
    destruct (Hnoop Hlow) as (-> & -> & -> & ->). rewrite Hrun0. cbn [fst snd app].
    destruct (read_runtime_window_spec t d) as [Hwin _].
    destruct (read_runtime_window (t, d)) as [[[all_registers|e] w1] ev1];
      cbn [fst snd] in *.
    2:{ intros r a Hr Ha.
        rewrite Forall_forall in Hwin. destruct (Hwin r Hr) as [Hc [Ha0|Ha0]]; lia. }
    rewrite read_individual_unfold.
    assert (Hind : Forall (fun r => INDIVIDUAL_BATTERY_BASE_ADDRESS <= rd_address r)
              (reads (if include_individual && (0 <? default 0 (all_registers !! 96))
                      then
                        let total :=
                          Z.min (default 0 (all_registers !! 96))
                            INDIVIDUAL_BATTERY_MAX_COUNT
                          * INDIVIDUAL_BATTERY_REGISTER_COUNT in
                        match read_chunks (Z.to_nat total) _read_input_registers
                                INDIVIDUAL_BATTERY_BASE_ADDRESS total ∅ w1 with
                        | (Ok regs, w2, ev2) => (Ok (Some regs), w2, ev2)
                        | (Raise e, w2, ev2) => (Ok None, w2, ev2)
                        end
                      else (Ok None, w1, [])).2)).
    { destruct (_ && _); [|constructor]. cbv zeta.
      pose proof (read_chunks_addresses
                    (Z.to_nat (Z.min (default 0 (all_registers !! 96))
                                 INDIVIDUAL_BATTERY_MAX_COUNT
                               * INDIVIDUAL_BATTERY_REGISTER_COUNT))
                    INDIVIDUAL_BATTERY_BASE_ADDRESS
                    (Z.min (default 0 (all_registers !! 96))
                       INDIVIDUAL_BATTERY_MAX_COUNT
                     * INDIVIDUAL_BATTERY_REGISTER_COUNT) ∅ w1) as Haddr.
      by destruct (read_chunks _ _ _ _ _ _) as [[[regs|e] w2] ev2]. }
    destruct (if include_individual && _ then _ else _) as [[[individual|e] w2] ev2];
      cbn [fst snd] in *.
    + rewrite !reads_app. intros r a [Hr|Hr]%elem_of_app Ha.
      * rewrite Forall_forall in Hwin. destruct (Hwin r Hr) as [Hc [Ha0|Ha0]]; lia.
      * rewrite Forall_forall in Hind. specialize (Hind r Hr). lia.
    + rewrite !reads_app. intros r a [Hr|Hr]%elem_of_app Ha.
      * rewrite Forall_forall in Hwin. destruct (Hwin r Hr) as [Hc [Ha0|Ha0]]; lia.
      * rewrite Forall_forall in Hind. specialize (Hind r Hr). lia.
  - intros Hwf regs a Hres Ha.
    destruct (read_runtime_window_spec t d) as [_ Hkeys]. by eapply Hkeys.
Qed.

End BatteryWindow.

Section LogFacts.

Context {Dev : Type} `{!Client Dev} `{!RegisterMaps}.

Implicit Types (t : Transport) (d : Dev) (w : Transport * Dev).

Variable P : Event -> Prop.

Lemma logs_only_ret {A} (a : A) : logs_only (Dev:=Dev) P (mret a).
Proof. intros w. constructor. Qed.

Lemma logs_only_raise {A} e : logs_only (Dev:=Dev) P (@raise Dev A e).
Proof. intros w. constructor. Qed.

Lemma logs_only_bind {A B} (m : M A) (k : A -> M B) :
  logs_only (Dev:=Dev) P m -> (forall a, logs_only (Dev:=Dev) P (k a)) ->
  logs_only (Dev:=Dev) P (m ≫= k).
Proof.
  intros Hm Hk w. rewrite bind_run. specialize (Hm w).
  destruct (m w) as [[[a|e] w1] ev1]; [|done].
  specialize (Hk a w1). destruct (k a w1) as [[r w2] ev2].
  cbn [snd] in *. by apply Forall_app.
Qed.

Lemma logs_only_try {A} (m : M A) handles h :
  logs_only (Dev:=Dev) P m -> (forall e, logs_only (Dev:=Dev) P (h e)) ->
  logs_only (Dev:=Dev) P (try_except m handles h).
Proof.
  intros Hm Hh w. unfold try_except. specialize (Hm w).
  destruct (m w) as [[[a|e] w1] ev1]; [done|].
  destruct (handles e); [|done].
  specialize (Hh e w1). destruct (h e w1) as [[r w2] ev2].
  cbn [snd] in *. by apply Forall_app.
Qed.

Lemma logs_only_get : logs_only (Dev:=Dev) P (@get_self Dev).
Proof. intros w. constructor. Qed.

Lemma logs_only_emit e : P e -> logs_only (Dev:=Dev) P (@emit Dev e).
Proof. intros He w. by repeat constructor. Qed.

Lemma logs_only_read_chunks read fuel :
  (forall a c, logs_only (Dev:=Dev) P (read a c)) ->
  forall current_addr remaining result,
    logs_only (Dev:=Dev) P (read_chunks fuel read current_addr remaining result).
Proof.
  intros Hread. induction fuel as [|fuel IH]; intros a n res; cbn [read_chunks].
  - apply logs_only_ret.
  - destruct (0 <? n); [|apply logs_only_ret].
    apply logs_only_bind; [apply Hread|]. intros values. apply IH.
Qed.

End LogFacts.

Section ConnectionFacts.

Context {Dev : Type} `{!Client Dev} `{!RegisterMaps}.

Implicit Types (t : Transport) (d : Dev) (w : Transport * Dev).

Lemma read_registers_keeps_connection address count input :
  logs_only (Dev:=Dev) not_connection (_read_registers address count input).
Proof.
  intros [t d].
  destruct (read_registers_cases address count input t d)
    as (r & t' & d' & ev & -> & _ & Hatt & _).
  cbn [snd]. eapply Forall_impl; [exact Hatt|].
  by intros e [->|[q ->]].
Qed.

Lemma write_holding_registers_keeps_connection address values :
  logs_only (Dev:=Dev) not_connection (_write_holding_registers address values).
Proof.
  intros [t d]. rewrite write_holding_registers_unfold.
  destruct (connected t); [|constructor]. destruct (client t); [|constructor].
  by repeat constructor.
Qed.

Lemma write_all_keeps_connection groups :
  logs_only (Dev:=Dev) not_connection (write_all groups).
Proof.
  induction groups as [|[start values] rest IH]; cbn [write_all].
  - apply logs_only_ret.
  - apply logs_only_bind; [apply write_holding_registers_keeps_connection|].
    intros _. apply IH.
Qed.

Lemma midbox_loop_keeps_connection : logs_only (Dev:=Dev) not_connection read_midbox_runtime.
Proof.
  unfold read_midbox_runtime.
  apply logs_only_bind; [|intros ?; apply logs_only_ret].
  apply logs_only_try; [|intros ?; apply logs_only_raise].
  generalize (∅ : gmap Z Z). generalize _MIDBOX_REGISTER_GROUPS.
  intros groups. induction groups as [|[start count] rest IH]; intros regs.
  - apply logs_only_ret.
  - apply logs_only_bind; [apply read_registers_keeps_connection|]. intros values.
    apply logs_only_bind; [apply logs_only_get|]. intros self.
    apply logs_only_bind; [|intros _; apply IH].
    destruct rest; [apply logs_only_ret | by apply logs_only_emit].
Qed.

(** ** The methods that never reconnect *)

(** X9.  Where the connection is reset.  [_read_registers],
    [_write_holding_registers], [read_parameters], [write_parameters],
    [read_midbox_runtime] and the identity reads never close or open
    the connection, whatever the error counter says.
    [_read_register_groups] does not either while the counter is below
    [max_consecutive_errors]; once the limit is reached it begins with
    one disconnection and one connection, and there is no other. *)
Theorem reconnection_only_in_batches :
  (forall address count input w,
     Forall not_connection (_read_registers address count input w).2) /\
  (forall address values w,
     Forall not_connection (_write_holding_registers address values w).2) /\
  (forall start_address count w,
     Forall not_connection (read_parameters start_address count w).2) /\
  (forall parameters w, Forall not_connection (write_parameters parameters w).2) /\
  (forall w, Forall not_connection (read_midbox_runtime w).2) /\
  (forall w, Forall not_connection (read_serial_number w).2) /\
  (forall expected_serial w,
     Forall not_connection (validate_serial expected_serial w).2) /\
  (forall w, Forall not_connection (read_firmware_version w).2) /\
  (forall w, Forall not_connection (read_device_type w).2) /\
  (forall group_names t d,
     consecutive_errors t < max_consecutive_errors t ->
     Forall not_connection (_read_register_groups group_names (t, d)).2) /\
  (forall group_names t d,
     max_consecutive_errors t <= consecutive_errors t -> client t = true ->
     exists rest,
       (_read_register_groups group_names (t, d)).2 = EvClose :: EvConnect :: rest /\
       Forall not_connection rest).
Proof.
  assert (Hserial : logs_only (Dev:=Dev) not_connection read_serial_number).
  { unfold read_serial_number, read_serial_number_async, _read_input_registers.
    apply logs_only_bind; [apply logs_only_get|]. intros self.
    apply logs_only_bind; [apply read_registers_keeps_connection|].
    intros ?. apply logs_only_ret. }
  assert (Hloop : forall groups regs dly,
             logs_only (Dev:=Dev) not_connection (read_groups_loop groups regs dly)).
  { induction groups as [|[name [start count]] rest IH]; intros regs dly;
      cbn [read_groups_loop].
    - apply logs_only_ret.
    - apply logs_only_bind.
      + apply logs_only_try; [apply read_registers_keeps_connection|].
        intros e. apply logs_only_raise.
      + intros values. apply logs_only_bind; [apply logs_only_get|]. intros self.
        apply logs_only_bind; [|intros _; apply IH].
        destruct rest; [apply logs_only_ret | by apply logs_only_emit]. }
  split_and!.
  - intros address count input. apply read_registers_keeps_connection.
  - intros address values. apply write_holding_registers_keeps_connection.
  - intros start_address count. apply logs_only_read_chunks.
    intros a c. apply read_registers_keeps_connection.
  - intros parameters. unfold write_parameters.
    apply logs_only_bind; [apply write_all_keeps_connection|].
    intros _. apply logs_only_ret.
  - apply midbox_loop_keeps_connection.
  - apply Hserial.
  - intros expected_serial. unfold validate_serial.
    apply logs_only_bind; [apply Hserial|]. intros ?. apply logs_only_ret.
  - unfold read_firmware_version, read_firmware_version_async, _read_holding_registers.
    apply logs_only_try; [|intros ?; apply logs_only_ret].
    apply logs_only_bind; [apply read_registers_keeps_connection|].
    intros ?. apply logs_only_ret.
  - unfold read_device_type, read_device_type_async, _read_holding_registers.
    apply logs_only_bind; [apply read_registers_keeps_connection|].
    intros [|v ?]; [apply logs_only_raise | apply logs_only_ret].
  - intros group_names t d Hlow. rewrite read_register_groups_unfold.
    destruct (reconnect_if_needed_cases t d)
      as (r0 & t0 & d0 & ev0 & Hrun0 & _ & _ & _ & _ & Hnoop).
    destruct (Hnoop Hlow) as (-> & -> & -> & ->). rewrite Hrun0. cbn [fst snd app].
    specialize (Hloop (select_groups group_names) ∅ (inter_register_delay t) (t, d)).
    by destruct (read_groups_loop _ _ _ _) as [[r w2] ev].
  - intros group_names t d Hdue Hcl.
    rewrite read_register_groups_unfold, reconnect_if_needed_due by done.
    destruct (dev_connect d) as [[] d1]; cbn [fst snd].
    + match goal with
      | |- context [read_groups_loop ?g ?r ?q ?w] => specialize (Hloop g r q w)
      end.
      destruct (read_groups_loop _ _ _ _) as [[r w2] ev]. cbn [snd] in *.
      by eexists.
    + eexists. split; [reflexivity | constructor].
Qed.

End ConnectionFacts.

Section MidboxFacts.

Context {Dev : Type} `{!Client Dev} `{!RegisterMaps}.

Implicit Types (t : Transport) (d : Dev) (w : Transport * Dev).




(** ** The GridBOSS read *)


End MidboxFacts.

Lemma select_groups_filter names :
  select_groups (Some names) =
  select_groups
    (Some (filter (fun name => is_Some (group_lookup name INPUT_REGISTER_GROUPS)) names)).
Proof.
  unfold select_groups. generalize INPUT_REGISTER_GROUPS. intros table.
  induction names as [|name names IH]; [done|].
  rewrite filter_cons. cbn [omap list_omap].
  destruct (decide (is_Some (group_lookup name table))) as [[g Hg]|Hnone].
  - cbn [omap list_omap]. rewrite Hg. cbn. f_equal. apply IH.
  - destruct (group_lookup name table) as [g|]; [by destruct Hnone|]. apply IH.
Qed.

Section GroupFacts.

Context {Dev : Type} `{!Client Dev} `{!RegisterMaps}.

Implicit Types (t : Transport) (d : Dev) (w : Transport * Dev).


(** ** Unknown group names *)

(** X15.  Group names that are not in [INPUT_REGISTER_GROUPS] are
    ignored: the batch is that of the known names, and with no known
    name, below the error limit, it returns the empty dictionary and
    sends nothing. *)
Theorem unknown_group_names_are_skipped names t d :
  _read_register_groups (Some names) (t, d) =
  _read_register_groups
    (Some (filter (fun name => is_Some (group_lookup name INPUT_REGISTER_GROUPS)) names))
    (t, d) /\
  (Forall (fun name => group_lookup name INPUT_REGISTER_GROUPS = None) names ->
   consecutive_errors t < max_consecutive_errors t ->
   _read_register_groups (Some names) (t, d) = (Ok ∅, (t, d), [])).
Proof.
  split.
  - rewrite !read_register_groups_unfold. by rewrite <- select_groups_filter.
  - intros Hnames Hlow. rewrite read_register_groups_unfold.
    destruct (reconnect_if_needed_cases t d)
      as (r0 & t0 & d0 & ev0 & Hrun0 & _ & _ & _ & _ & Hnoop).
    destruct (Hnoop Hlow) as (-> & -> & -> & ->). rewrite Hrun0.
    assert (select_groups (Some names) = []) as ->; [|done].
    unfold select_groups. induction Hnames as [|name names Hname _ IH]; [done|].
    cbn [omap list_omap]. by rewrite Hname.
Qed.

(** ** The errors of a batch *)


(** ** A transport that is not connected *)

(** X21.  On a transport that is not connected, or without client,
    nothing is sent and nothing changes.  [_read_registers],
    [_write_holding_registers] and [read_parameters] (of a positive
    count) raise the connection error.  Below the error limit
    [read_runtime] raises the read error of its first group, with the
    connection error as cause, and [read_battery] does not raise: it
    returns what the decoder makes of an empty dictionary. *)
Theorem nothing_is_sent_when_not_connected t d :
  connected t = false \/ client t = false ->
  let error :=
    TransportConnectionError
      (if connected t then MsgClientNotInitialized else MsgNotConnected) None in
  (forall address count input,
     _read_registers address count input (t, d) = (Raise error, (t, d), [])) /\
  (forall address values,
     _write_holding_registers address values (t, d) = (Raise error, (t, d), [])) /\
  (forall start_address count,
     0 < count ->
     read_parameters start_address count (t, d) = (Raise error, (t, d), [])) /\
  (forall include_individual,
     consecutive_errors t < max_consecutive_errors t ->
     read_battery include_individual (t, d) =
     (Ok (battery_from_modbus_registers battery_voltage NO_BATTERY_THRESHOLD ∅ None),
      (t, d), [])) /\
  (consecutive_errors t < max_consecutive_errors t ->
   read_runtime (t, d) =
   (Raise (TransportReadError (MsgGroupFailed "power_energy") (Some error)), (t, d), [])).
Proof.
  intros Hoff error.
  assert (Hread : forall address count input,
            _read_registers address count input (t, d) = (Raise error, (t, d), [])).
  { intros address count input. rewrite read_registers_unfold. subst error.
    destruct Hoff as [-> | Hcl]; [done|]. rewrite Hcl. by destruct (connected t). }
  split_and!.
  - exact Hread.
  - intros address values. rewrite write_holding_registers_unfold. subst error.
    destruct Hoff as [-> | Hcl]; [done|]. rewrite Hcl. by destruct (connected t).
  - intros start_address count Hcount. unfold read_parameters.
    destruct (Z.to_nat count) as [|fuel] eqn:Hfuel; [lia|].
    cbn [read_chunks]. rewrite (proj2 (Z.ltb_lt _ _) Hcount), bind_run.
    unfold _read_holding_registers at 1. by rewrite Hread.
  - intros include_individual Hlow. rewrite read_battery_unfold.
    destruct (reconnect_if_needed_cases t d)
      as (r0 & t0 & d0 & ev0 & Hrun0 & _ & _ & _ & _ & Hnoop).
    destruct (Hnoop Hlow) as (-> & -> & -> & ->). rewrite Hrun0.
    rewrite read_runtime_window_unfold, Hread, read_individual_unfold.
    rewrite lookup_empty. cbn. by rewrite andb_false_r.
  - intros Hlow. unfold read_runtime. rewrite bind_run, read_register_groups_unfold.
    destruct (reconnect_if_needed_cases t d)
      as (r0 & t0 & d0 & ev0 & Hrun0 & _ & _ & _ & _ & Hnoop).
    destruct (Hnoop Hlow) as (-> & -> & -> & ->). rewrite Hrun0.
    unfold select_groups, INPUT_REGISTER_GROUPS. cbn [fst snd].
    rewrite read_groups_loop_step, Hread. done.
Qed.

End GroupFacts.

Section IndividualFacts.

Context {Dev : Type} `{!Client Dev} `{!RegisterMaps}.

Implicit Types (t : Transport) (d : Dev) (w : Transport * Dev).

(** ** The requests for the individual batteries *)

(** X19.  On a connected transport below the error limit and a device
    that answers, [read_battery] with the individual batteries sends the
    reads (0, 40) and (64, 40) and then FC4 reads that tile the range
    from 5000 up to 5000 plus 30 words per battery, for as many
    batteries as register 96 counts, at most
    [INDIVIDUAL_BATTERY_MAX_COUNT]; it logs nothing else. *)
Theorem read_battery_individual_chunks t d :
  connected t = true -> client t = true -> 0 <= retries t ->
  consecutive_errors t < max_consecutive_errors t ->
  answers_every_read ->
  let run := read_battery true (t, d) in
  exists all_registers rs,
    (read_runtime_window (t, d)).1.1 = Ok all_registers /\
    run.2 = EvRead <$> (mkRead true 0 40 (unit_id t) :: mkRead true 64 40 (unit_id t) :: rs) /\
    tiles INDIVIDUAL_BATTERY_BASE_ADDRESS
      (INDIVIDUAL_BATTERY_BASE_ADDRESS
       + Z.min (default 0 (all_registers !! 96)) INDIVIDUAL_BATTERY_MAX_COUNT
         * INDIVIDUAL_BATTERY_REGISTER_COUNT) rs /\
    Forall (fun r => function_code r = 4) rs.
Proof.
  intros Hconn Hcl Hret Hlow Hdev run. subst run.
  rewrite read_battery_unfold.
  destruct (reconnect_if_needed_cases t d)
    as (r0 & t0 & d0 & ev0 & Hrun0 & _ & _ & _ & _ & Hnoop).
  destruct (Hnoop Hlow) as (-> & -> & -> & ->). rewrite Hrun0. clear Hrun0 Hnoop.
  rewrite read_runtime_window_unfold.
  set (req0 := mkRead true 0 (Z.min 64 40) (unit_id t)).
  destruct (Hdev d req0) as [values1 Hans1].
  rewrite (read_registers_answered _ _ _ _ _ values1) by done. fold req0.
  set (t1 := set_consecutive_errors 0 (set_last_read_retried false t)).
  set (req64 := mkRead true 64 (Z.min 64 40) (unit_id t1)).
  destruct (Hdev (dev_read d req0).2 req64) as [values2 Hans2].
  rewrite (read_registers_answered _ _ _ _ _ values2) by done. fold req64.
  cbv zeta. cbn [fst snd].
  set (all_registers := update (update ∅ _) _).
  set (t2 := set_consecutive_errors 0 (set_last_read_retried false t1)).
  rewrite read_individual_unfold. cbn [andb].
  destruct (0 <? default 0 (all_registers !! 96)) eqn:Hcount.
  - cbv zeta.
    set (total := Z.min (default 0 (all_registers !! 96)) INDIVIDUAL_BATTERY_MAX_COUNT
                  * INDIVIDUAL_BATTERY_REGISTER_COUNT).
    destruct (read_chunks_answered true (Z.to_nat total) Hdev
                INDIVIDUAL_BATTERY_BASE_ADDRESS total ∅ t2 (dev_read (dev_read d req0).2 req64).2)
      as (regs & t' & d' & rs & Hrun & Htiles & Hall); [done | done | done | lia |].
    unfold _read_input_registers. rewrite Hrun.
    exists all_registers, rs. split_and!; [done | done | done |].
    eapply Forall_impl; [exact Hall|]. intros r [Hin _].
    unfold function_code. by rewrite Hin.
  - apply Z.ltb_ge in Hcount.
    exists all_registers, []. split_and!; [done | done | | constructor].
    cbn [tiles]. unfold INDIVIDUAL_BATTERY_REGISTER_COUNT. lia.
Qed.

End IndividualFacts.

Lemma store_values_keys values start regs a :
  is_Some (store_values start values regs !! a) <->
  is_Some (regs !! a) \/ start <= a < start + Z.of_nat (length values).
Proof.
  destruct (decide (start <= a < start + Z.of_nat (length values))) as [Hin|Hout].
  - destruct (values !! Z.to_nat (a - start)) as [v|] eqn:Hv.
    + replace a with (start + Z.of_nat (Z.to_nat (a - start))) at 1 by lia.
      rewrite (store_values_lookup_in _ _ _ _ _ Hv). split; [by right | eauto].
    + apply lookup_ge_None in Hv. lia.
  - rewrite store_values_lookup by lia. split; [by left | by intros [?|?]].
Qed.

Lemma select_groups_table group_names g :
  g ∈ select_groups group_names -> g ∈ INPUT_REGISTER_GROUPS.
Proof.
  destruct group_names as [names|]; [|done]. unfold select_groups.
  generalize INPUT_REGISTER_GROUPS. intros table.
  rewrite list_elem_of_omap. intros (name & _ & Hname).
  destruct (group_lookup name table) as [win|] eqn:Hl; [|done].
  injection Hname as <-. clear -Hl.
  induction table as [|[n win'] table IH]; [done|]. cbn in Hl.
  destruct (String.eqb name n) eqn:Heq.
  - injection Hl as ->. apply String.eqb_eq in Heq as ->. by left.
  - right. by apply IH.
Qed.

Lemma input_register_groups_fit g :
  g ∈ INPUT_REGISTER_GROUPS -> 0 < g.2.2 <= 40.
Proof.
  unfold INPUT_REGISTER_GROUPS. rewrite !elem_of_cons, elem_of_nil.
  intros [->|[->|[->|[->|[->|[->|[]]]]]]]; cbn; lia.
Qed.

Lemma undisturbed_log_ext t t' groups :
  unit_id t = unit_id t' -> inter_register_delay t = inter_register_delay t' ->
  undisturbed_log t groups = undisturbed_log t' groups.
Proof.
  intros Hu Hd. induction groups as [|[name [start count]] rest IH]; [done|].
  cbn [undisturbed_log]. rewrite Hu, Hd. destruct rest; [done|]. by rewrite IH.
Qed.

Section UndisturbedFacts.

Context {Dev : Type} `{!Client Dev} `{!RegisterMaps}.

Implicit Types (t : Transport) (d : Dev) (w : Transport * Dev).

Lemma read_groups_loop_answered groups :
  answers_in_full ->
  Forall (fun g => 0 < g.2.2 <= 40) groups ->
  forall regs dly t d,
    connected t = true -> client t = true -> 0 <= retries t ->
    dly = inter_register_delay t ->
    exists res t' d',
      read_groups_loop groups regs dly (t, d)
        = (Ok res, (t', d'), undisturbed_log t groups) /\
      (forall a, is_Some (res !! a) <->
         is_Some (regs !! a) \/ exists g, g ∈ groups /\ g.2.1 <= a < g.2.1 + g.2.2) /\
      (groups <> [] -> consecutive_errors t' = 0).
Proof.
  intros Hdev Hfit. induction Hfit as [|[name [start count]] rest Hcount _ IH];
    intros regs dly t d Hconn Hcl Hret ->.
  - exists regs, t, d. split_and!; [done | | done].
    intros a. split; [by left|]. intros [?|(g & Hg & _)]; [done|]. by apply elem_of_nil in Hg.
  - cbn in Hcount. rewrite read_groups_loop_step.
    set (req := mkRead true start (Z.min count 40) (unit_id t)).
    destruct (Hdev d req) as (values & Hans & Hlen).
    cbn [rd_count req] in Hlen. rewrite Z.min_l in Hlen by lia.
    rewrite (read_registers_answered _ _ _ _ _ values) by done. fold req.
    cbv zeta. cbn [fst snd last_read_retried set_consecutive_errors set_last_read_retried].
    set (t1 := set_consecutive_errors 0 (set_last_read_retried false t)).
    assert (Hkeys : forall a, is_Some (store_values start values regs !! a) <->
                      is_Some (regs !! a) \/ start <= a < start + count).
    { intros a. rewrite store_values_keys. by replace (Z.of_nat (length values)) with count by lia. }
    destruct rest as [|g rest'].
    + exists (store_values start values regs), t1, (dev_read d req).2.
      split_and!; [done | | done].
      intros a. rewrite Hkeys. split.
      * intros [?|?]; [by left|]. right. exists (name, (start, count)).
        split; [by left | done].
      * intros [?|(g & Hg%list_elem_of_singleton & Ha)]; [by left|]. subst g. by right.
    + destruct (IH (store_values start values regs) (inter_register_delay t1) t1
                  (dev_read d req).2) as (res & t' & d' & Hrun & Hres & Herr);
        [done | done | done | done |].
      change (inter_register_delay t1) with (inter_register_delay t) in Hrun.
      rewrite Hrun. exists res, t', d'. split_and!.
      * by rewrite (undisturbed_log_ext t1 t).
      * intros a. rewrite Hres, Hkeys. split.
        -- intros [[?|?]|(g' & Hg' & Ha)].
           ++ by left.
           ++ right. exists (name, (start, count)). split; [by left | done].
           ++ right. exists g'. split; [by right | done].
        -- intros [?|(g' & [->|Hg']%elem_of_cons & Ha)].
           ++ by left; left.
           ++ left. by right.
           ++ right. by exists g'.
      * intros _. by apply Herr.
Qed.

(** ** A batch that meets no failure *)

(** X14.  A batch that meets no failure, on a connected transport below
    the error limit: one request per selected group, in order, a sleep
    of the configured delay between two groups and nothing else; the
    error counter ends at 0 and the keys of the result are exactly the
    addresses of the selected windows. *)
Theorem undisturbed_batch group_names t d :
  connected t = true -> client t = true -> 0 <= retries t ->
  consecutive_errors t < max_consecutive_errors t ->
  answers_in_full ->
  let run := _read_register_groups group_names (t, d) in
  let groups := select_groups group_names in
  run.2 = undisturbed_log t groups /\
  (groups <> [] -> consecutive_errors run.1.2.1 = 0) /\
  exists registers,
    run.1.1 = Ok registers /\
    forall a, is_Some (registers !! a) <->
              exists g, g ∈ groups /\ g.2.1 <= a < g.2.1 + g.2.2.
Proof.
  intros Hconn Hcl Hret Hlow Hdev run groups. subst run.
  rewrite read_register_groups_unfold. fold groups.
  destruct (reconnect_if_needed_cases t d)
    as (r0 & t0 & d0 & ev0 & Hrun0 & _ & _ & _ & _ & Hnoop).
  destruct (Hnoop Hlow) as (-> & -> & -> & ->). rewrite Hrun0. cbn [fst snd].
  destruct (read_groups_loop_answered groups Hdev) with
    (regs := (∅ : gmap Z Z)) (dly := inter_register_delay t) (t := t) (d := d)
    as (res & t' & d' & Hrun & Hres & Herr); [ | done | done | done | done | ].
  { apply Forall_forall. intros g Hg.
    by apply input_register_groups_fit, (select_groups_table group_names). }
  rewrite Hrun. cbn [fst snd app]. split_and!; [done | done |].
  exists res. split; [done|]. intros a. rewrite Hres, lookup_empty.
  split; [intros [[? [=]]|?]; done | by right].
Qed.

End UndisturbedFacts.

Section ChunkAlignment.

Context {Dev : Type} `{!Client Dev} `{!RegisterMaps}.

Implicit Types (t : Transport) (d : Dev) (w : Transport * Dev).

Lemma read_chunks_aligned input fuel :
  forall current_addr remaining result w,
    Forall (fun r => exists k, 0 <= k /\ 40 * k < remaining /\
                       rd_address r = current_addr + 40 * k /\
                       rd_count r = Z.min (remaining - 40 * k) 40 /\
                       rd_input r = input)
      (reads (read_chunks fuel (fun a c => _read_registers a c input)
                current_addr remaining result w).2).
Proof.
  induction fuel as [|fuel IH]; intros a n res [t d]; cbn [read_chunks];
    [constructor|].
  destruct (0 <? n) eqn:Hn; [|constructor]. apply Z.ltb_lt in Hn.
  rewrite bind_run.
  destruct (read_registers_cases a (Z.min n 40) input t d)
    as (r & t' & d' & ev & -> & _ & Hatt & _).
  apply only_attempts_reads in Hatt.
  assert (Hev : Forall (fun r => exists k, 0 <= k /\ 40 * k < n /\
                          rd_address r = a + 40 * k /\
                          rd_count r = Z.min (n - 40 * k) 40 /\ rd_input r = input)
                  (reads ev)).
  { eapply Forall_impl; [exact Hatt|]. intros ? <-. exists 0. cbn.
    split_and!; [lia | lia | lia | lia | done]. }
  destruct r as [values|e]; [|done].
  specialize (IH (a + Z.min n 40) (n - Z.min n 40)
                (update res (_registers_from_values a values)) (t', d')).
  destruct (read_chunks _ _ _ _ _ _) as [[r2 w2] ev2]. cbn [snd] in *.
  rewrite reads_app. apply Forall_app. split; [done|].
  eapply Forall_impl; [exact IH|]. cbn.
  intros r (k & Hk & Hlt & Haddr & Hcnt & Hin). exists (k + 1).
  split_and!; [lia | lia | lia | lia | done].
Qed.

(** ** The requests of [read_parameters] *)

(** X5.  Whatever happens, every request [read_parameters start count]
    sends is the FC3 read of a chunk of its window: it starts at
    [start + 40 k] for some [k] with [0 <= 40 k < count] and asks for
    [min (count - 40 k) 40] words. *)
Theorem read_parameters_requests_are_aligned start_address count w :
  Forall (fun r => exists k, 0 <= k /\ 40 * k < count /\
                     rd_address r = start_address + 40 * k /\
                     rd_count r = Z.min (count - 40 * k) 40 /\
                     function_code r = 3)
    (reads (read_parameters start_address count w).2).
Proof.
  unfold read_parameters, _read_holding_registers.
  eapply Forall_impl; [apply (read_chunks_aligned false)|].
  intros r (k & Hk & Hlt & Haddr & Hcnt & Hin). exists k.
  unfold function_code. rewrite Hin. by split_and!.
Qed.

(** ** A negative retry count *)

(** X22.  With a negative [retries] the loop over the attempts is
    empty: [_read_registers] sends nothing and its [raise last_err]
    raises a [TypeError], [last_err] being [None]. *)
Theorem negative_retries_read_nothing address count input t d :
  connected t = true -> client t = true -> retries t < 0 ->
  _read_registers address count input (t, d)
  = (Raise TypeError, (set_last_read_retried false t, d), []).
Proof.
  intros Hconn Hcl Hneg. rewrite read_registers_unfold, Hconn, Hcl.
  by replace (Z.to_nat (retries t + 1)) with O by lia.
Qed.

End ChunkAlignment.

Section EnergyPacing.

Context {Dev : Type} `{!Client Dev} `{!RegisterMaps}.

Implicit Types (t : Transport) (d : Dev) (w : Transport * Dev).

(** A batch sleeps at most once between two groups, and reads nothing
    but the windows of its groups. *)
Lemma read_groups_loop_log groups :
  forall regs dly t d,
    let run := read_groups_loop groups regs dly (t, d) in
    (length (paces run.2) <= length groups - 1)%nat /\
    Forall (fun r => exists g, g ∈ groups /\
                       r = mkRead true g.2.1 (Z.min g.2.2 40) (unit_id t))
      (reads run.2) /\
    unit_id run.1.2.1 = unit_id t.
Proof.
  induction groups as [|[name [start count]] rest IH]; intros regs dly t d run;
    subst run.
  - cbn. split_and!; [lia | constructor | done].
  - rewrite read_groups_loop_step.
    destruct (read_registers_cases start count true t d)
      as (r1 & t1 & d1 & ev1 & Hrun1 & Hset1 & Hatt & _).
    rewrite Hrun1. pose proof (only_attempts_no_pace _ _ Hatt) as Hnp.
    apply only_attempts_reads in Hatt.
    assert (Hu : unit_id t1 = unit_id t)
      by (by destruct Hset1 as (_ & _ & _ & Hu & _)).
    assert (Hev1 : Forall (fun r => exists g, g ∈ (name, (start, count)) :: rest /\
                             r = mkRead true g.2.1 (Z.min g.2.2 40) (unit_id t))
                     (reads ev1)).
    { eapply Forall_impl; [exact Hatt|]. intros ? <-.
      exists (name, (start, count)). split; [by left | done]. }
    destruct r1 as [values|e]; cbn [fst snd].
    2:{ rewrite paces_no_pace by done. split_and!; [cbn; lia | done | done]. }
    cbv zeta. destruct rest as [|g rest'].
    { cbn [fst snd]. rewrite paces_no_pace by done. split_and!; [cbn; lia | done | done]. }
    match goal with
    | |- context [read_groups_loop ?gs ?r ?q (t1, d1)] =>
        destruct (IH r q t1 d1) as (Hlen & Hreads & Hu2)
    end.
    destruct (read_groups_loop _ _ _ _) as [[r2 w2] ev2]. cbn [fst snd] in *.
    split_and!.
    + rewrite paces_app, paces_no_pace by done. cbn [app].
      match goal with
      | |- context [paces (EvPace ?q :: ev2)] =>
          change (paces (EvPace q :: ev2)) with (q :: paces ev2)
      end.
      cbn [length] in *. lia.
    + rewrite reads_app. apply Forall_app. split; [done|].
      change (reads (EvPace ?q :: ev2)) with (reads ev2).
      eapply Forall_impl; [exact Hreads|].
      intros r (g' & Hg' & ->). exists g'. split; [by right | by rewrite Hu].
    + congruence.
Qed.

Lemma read_register_groups_log group_names t d :
  let run := _read_register_groups group_names (t, d) in
  (length (paces run.2) <= length (select_groups group_names) - 1)%nat /\
  Forall (fun r => exists g, g ∈ select_groups group_names /\
                     r = mkRead true g.2.1 (Z.min g.2.2 40) (unit_id t))
    (reads run.2) /\
  unit_id run.1.2.1 = unit_id t.
Proof.
  intros run. subst run. rewrite read_register_groups_unfold.
  destruct (reconnect_if_needed_cases t d)
    as (r0 & t0 & d0 & ev0 & Hrun0 & Hu & _ & _ & Hev0 & _).
  rewrite Hrun0. pose proof (connection_events_no_pace _ Hev0) as Hnp.
  apply connection_events_reads in Hev0.
  destruct r0 as [[]|e]; cbn [fst snd].
  - destruct (read_groups_loop_log (select_groups group_names) ∅
                (inter_register_delay t0) t0 d0) as (Hlen & Hreads & Hu2).
    destruct (read_groups_loop _ _ _ _) as [[res w2] ev]. cbn [fst snd] in *.
    rewrite paces_app, paces_no_pace, reads_app, Hev0 by done. cbn [app].
    split_and!; [done | | congruence].
    eapply Forall_impl; [exact Hreads|]. intros r (g & Hg & ->). exists g.
    by rewrite Hu.
  - rewrite paces_no_pace, Hev0 by done. split_and!; [cbn; lia | constructor | done].
Qed.

(** ** The traffic of [read_energy] *)

(** X17.  The traffic of [read_energy] below the error limit: FC4
    requests for the windows (0, 32), (32, 32) and (80, 33) only, and at
    most one inter-group sleep, so none between the [status_energy] read
    and the [bms_data] read.  On a connected transport and a device that
    answers in full the log is: read (0, 32), sleep, read (32, 32),
    read (80, 33). *)
Theorem read_energy_traffic t d :
  0 <= consecutive_errors t < max_consecutive_errors t ->
  let run := read_energy (t, d) in
  (length (paces run.2) <= 1)%nat /\
  Forall (fun r => r = mkRead true 0 32 (unit_id t) \/
                   r = mkRead true 32 32 (unit_id t) \/
                   r = mkRead true 80 33 (unit_id t)) (reads run.2) /\
  (connected t = true -> client t = true -> 0 <= retries t ->
   answers_in_full ->
   run.2 = [ EvRead (mkRead true 0 32 (unit_id t));
             EvPace (inter_register_delay t);
             EvRead (mkRead true 32 32 (unit_id t));
             EvRead (mkRead true 80 33 (unit_id t)) ]).
Proof.
  intros Hcnt run. subst run. rewrite read_energy_unfold.
  destruct (read_register_groups_log
              (Some ["power_energy"%string; "status_energy"%string]) t d)
    as (Hlen1 & Hreads1 & Hu1).
  assert (Hprimary : Forall (fun r => r = mkRead true 0 32 (unit_id t) \/
                               r = mkRead true 32 32 (unit_id t) \/
                               r = mkRead true 80 33 (unit_id t))
            (reads (_read_register_groups
                      (Some ["power_energy"%string; "status_energy"%string]) (t, d)).2)).
  { eapply Forall_impl; [exact Hreads1|]. cbn.
    intros r (g & Hg & ->). rewrite !elem_of_cons, elem_of_nil in Hg.
    destruct Hg as [->|[->|[]]]; cbn; eauto. }
  split_and!.
  - destruct (_read_register_groups _ (t, d)) as [[[regs|e] [t1 d1]] ev1];
      cbn [fst snd] in *; [|exact Hlen1].
    destruct (read_register_groups_log (Some ["bms_data"%string]) t1 d1)
      as (Hlen2 & _ & _).
    destruct (_read_register_groups _ (t1, d1)) as [[[bms|e] w2] ev2]; cbn [fst snd] in *.
    + rewrite paces_app, length_app. cbn in Hlen1, Hlen2. lia.
    + destruct (is_read_or_timeout e); cbn [snd];
        rewrite paces_app, length_app; cbn in Hlen1, Hlen2; lia.
  - destruct (_read_register_groups _ (t, d)) as [[[regs|e] [t1 d1]] ev1];
      cbn [fst snd] in *; [|exact Hprimary].
    destruct (read_register_groups_log (Some ["bms_data"%string]) t1 d1)
      as (_ & Hreads2 & _).
    assert (Hbms : Forall (fun r => r = mkRead true 0 32 (unit_id t) \/
                             r = mkRead true 32 32 (unit_id t) \/
                             r = mkRead true 80 33 (unit_id t))
              (reads (_read_register_groups (Some ["bms_data"%string]) (t1, d1)).2)).
    { eapply Forall_impl; [exact Hreads2|]. cbn.
      intros r (g & Hg & ->). rewrite !elem_of_cons, elem_of_nil in Hg.
      destruct Hg as [->|[]]; cbn. rewrite Hu1. eauto. }
    destruct (_read_register_groups _ (t1, d1)) as [[[bms|e] w2] ev2]; cbn [fst snd] in *.
    + rewrite reads_app. by apply Forall_app.
    + destruct (is_read_or_timeout e); cbn [snd]; rewrite reads_app; by apply Forall_app.
  - intros Hconn Hcl Hret Hdev.
    rewrite !read_register_groups_unfold.
    destruct (reconnect_if_needed_cases t d)
      as (r0 & t0 & d0 & ev0 & Hrun0 & _ & _ & _ & _ & Hnoop).
    destruct Hnoop as (-> & -> & -> & ->); [lia|]. rewrite Hrun0. cbn [fst snd].
    destruct (read_groups_loop_answered
                (select_groups (Some ["power_energy"%string; "status_energy"%string]))
                Hdev) with (regs := (∅ : gmap Z Z)) (dly := inter_register_delay t)
                           (t := t) (d := d)
      as (res & t1 & d1 & Hrun1 & _ & Herr1); [ | done | done | done | done | ].
    { cbn. repeat constructor; cbn; lia. }
    destruct (read_groups_loop_spec
                (select_groups (Some ["power_energy"%string; "status_energy"%string]))
                ∅ (inter_register_delay t) t d)
      as (r' & t1' & d1' & ev' & Hrun1' & Hset & _).
    rewrite Hrun1 in Hrun1'. injection Hrun1' as <- <- <- <-.
    rewrite Hrun1. cbn [fst snd app].
    destruct Hset as (_ & Hconn1 & Hcl1 & Hu & Hret1 & _ & Hd1 & Hmax1).
    rewrite read_register_groups_unfold.
    destruct (reconnect_if_needed_cases t1 d1)
      as (r0 & t0 & d0 & ev0 & Hrun0' & _ & _ & _ & _ & Hnoop).
    destruct Hnoop as (-> & -> & -> & ->); [rewrite Herr1 by done; lia|].
    rewrite Hrun0'. cbn [fst snd].
    destruct (read_groups_loop_answered (select_groups (Some ["bms_data"%string])) Hdev)
      with (regs := (∅ : gmap Z Z)) (dly := inter_register_delay t1) (t := t1) (d := d1)
      as (res2 & t2 & d2 & Hrun2 & _); [ | congruence | congruence | lia | done | ].
    { cbn. repeat constructor; cbn; lia. }
    rewrite Hrun2. cbn. by rewrite Hu.
Qed.

End EnergyPacing.

Lemma backoffs_app ev1 ev2 : backoffs (ev1 ++ ev2) = backoffs ev1 ++ backoffs ev2.
Proof. apply omap_app. Qed.

Lemma total_sleep_app l1 l2 :
  (total_sleep (l1 ++ l2) == total_sleep l1 + total_sleep l2)%Q.
Proof.
  unfold total_sleep. induction l1 as [|q l1 IH]; cbn [app foldr]; [ring|].
  rewrite IH. ring.
Qed.

Section BatchCost.

Context {Dev : Type} `{!Client Dev} `{!RegisterMaps}.

Implicit Types (t : Transport) (d : Dev) (w : Transport * Dev).

(** The cost of one read, whatever the state of the transport. *)
Lemma read_registers_cost_bound address count input t d :
  0 <= retries t -> (0 <= retry_delay t)%Q ->
  let run := _read_registers address count input (t, d) in
  (length (reads run.2) <= Z.to_nat (retries t + 1))%nat /\
  (total_sleep (backoffs run.2) <= retry_delay t * inject_Z (2 ^ retries t - 1))%Q.
Proof.
  intros Hret Hdelay run. subst run.
  assert (Hzero : (0 <= retry_delay t * inject_Z (2 ^ retries t - 1))%Q).
  { apply Qmult_le_0_compat; [done|]. change 0%Q with (inject_Z 0).
    rewrite <- Zle_Qle. pose proof (Z.pow_pos_nonneg 2 (retries t)). lia. }
  rewrite read_registers_unfold.
  destruct (connected t); [destruct (client t)|]; [|by split; [cbn; lia|]..].
  destruct (read_attempts_spec address count input (Z.to_nat (retries t + 1)) 0 None
              (set_last_read_retried false t) d)
    as (outcomes & o_last & t1 & d1 & _ & Hlen & _ & _ & Hrun & _);
    [lia | cbn; lia |].
  rewrite Hrun. cbn [snd unit_id set_last_read_retried].
  rewrite reads_retry_log, length_replicate.
  split; [lia|].
  rewrite backoffs_retry_log by lia. cbn [retry_delay set_last_read_retried].
  rewrite Z.add_0_l, Z.pow_0_r.
  apply Qmult_le_l_weak; [done|].
  rewrite <- Zle_Qle. apply Z.sub_le_mono_r, Z.pow_le_mono_r; lia.
Qed.

Lemma read_groups_loop_cost groups :
  forall regs dly t d,
    0 <= retries t -> (0 <= retry_delay t)%Q ->
    let run := read_groups_loop groups regs dly (t, d) in
    (length (reads run.2) <= length groups * Z.to_nat (retries t + 1))%nat /\
    (total_sleep (backoffs run.2)
     <= inject_Z (Z.of_nat (length groups))
        * (retry_delay t * inject_Z (2 ^ retries t - 1)))%Q.
Proof.
  induction groups as [|[name [start count]] rest IH]; intros regs dly t d Hret Hdelay run;
    subst run.
  - cbn. split; [lia|]. rewrite Qmult_0_l. apply Qle_refl.
  - rewrite read_groups_loop_step.
    destruct (read_registers_cost_bound start count true t d Hret Hdelay)
      as [Hreads Hsleep].
    destruct (read_registers_cases start count true t d)
      as (r1 & t1 & d1 & ev1 & Hrun1 & Hset1 & _ & _).
    rewrite Hrun1 in *. cbn [fst snd] in *.
    destruct Hset1 as (_ & _ & _ & _ & Hret1 & Hdelay1 & _).
    set (unit := (retry_delay t * inject_Z (2 ^ retries t - 1))%Q) in *.
    assert (Hunit : (0 <= unit)%Q).
    { apply Qmult_le_0_compat; [done|]. change 0%Q with (inject_Z 0).
      rewrite <- Zle_Qle. pose proof (Z.pow_pos_nonneg 2 (retries t)). lia. }
    assert (Hrest : (0 <= inject_Z (Z.of_nat (length rest)) * unit)%Q).
    { apply Qmult_le_0_compat; [|done]. change 0%Q with (inject_Z 0).
      rewrite <- Zle_Qle. lia. }
    assert (Hsplit : (inject_Z (Z.of_nat (length ((name, (start, count)) :: rest))) * unit
                      == unit + inject_Z (Z.of_nat (length rest)) * unit)%Q).
    { cbn [length]. rewrite Nat2Z.inj_succ, <- Z.add_1_l, inject_Z_plus. ring. }
    destruct r1 as [values|e]; cbn [fst snd].
    2:{ split; [cbn [length]; lia|]. rewrite Hsplit. lra. }
    cbv zeta. destruct rest as [|g rest'].
    { cbn [fst snd]. split; [cbn [length]; lia|]. rewrite Hsplit. lra. }
    match goal with
    | |- context [read_groups_loop ?gs ?r ?q (t1, d1)] =>
        destruct (IH r q t1 d1) as (Hlen2 & Hsleep2); [lia | by rewrite Hdelay1 |]
    end.
    rewrite Hret1 in Hlen2. rewrite Hret1, Hdelay1 in Hsleep2. fold unit in Hsleep2.
    destruct (read_groups_loop _ _ _ _) as [[r2 w2] ev2]. cbn [fst snd] in *.
    split.
    + rewrite reads_app, length_app.
      change (reads (EvPace ?q :: ev2)) with (reads ev2). cbn [length] in *. lia.
    + rewrite backoffs_app, total_sleep_app.
      change (backoffs (EvPace ?q :: ev2)) with (backoffs ev2).
      rewrite Hsplit. lra.
Qed.

Lemma reconnect_if_needed_retry_settings t d :
  retries (reconnect_if_needed (t, d)).1.2.1 = retries t /\
  retry_delay (reconnect_if_needed (t, d)).1.2.1 = retry_delay t.
Proof.
  unfold reconnect_if_needed, _reconnect, disconnect, connect. munfold. cbn.
  destruct (max_consecutive_errors t <=? consecutive_errors t) eqn:Hle; cbn; [|done].
  rewrite (proj2 (Z.ltb_ge _ _)) by lia. cbn.
  destruct (client t); cbn; by destruct (dev_connect d) as [[] d1].
Qed.

(** ** The cost of a batch *)

(** X11.  The cost of a batch of [g] groups.  Its log is that of the
    reconnection step followed by that of the group reads, and below the
    error limit that of the group reads alone.  The group reads send at
    most [g * (retries + 1)] requests and back off for at most
    [g * retry_delay * (2^retries - 1)] in all. *)
Theorem batch_cost group_names t d :
  0 <= retries t -> (0 <= retry_delay t)%Q ->
  let run := _read_register_groups group_names (t, d) in
  let groups := select_groups group_names in
  exists batch,
    run.2 = (reconnect_if_needed (t, d)).2 ++ batch /\
    (consecutive_errors t < max_consecutive_errors t -> run.2 = batch) /\
    (length (reads batch) <= length groups * Z.to_nat (retries t + 1))%nat /\
    (total_sleep (backoffs batch)
     <= inject_Z (Z.of_nat (length groups))
        * (retry_delay t * inject_Z (2 ^ retries t - 1)))%Q.
Proof.
  intros Hret Hdelay run groups. subst run.
  rewrite read_register_groups_unfold. fold groups.
  destruct (reconnect_if_needed_retry_settings t d) as [Hret0 Hdelay0].
  destruct (reconnect_if_needed_cases t d)
    as (r0 & t0 & d0 & ev0 & Hrun0 & _ & _ & _ & _ & Hnoop).
  rewrite Hrun0 in *. cbn [fst snd] in *.
  assert (Hzero : (0 <= inject_Z (Z.of_nat (length groups))
                        * (retry_delay t * inject_Z (2 ^ retries t - 1)))%Q).
  { apply Qmult_le_0_compat.
    - change 0%Q with (inject_Z 0). rewrite <- Zle_Qle. lia.
    - apply Qmult_le_0_compat; [done|]. change 0%Q with (inject_Z 0).
      rewrite <- Zle_Qle. pose proof (Z.pow_pos_nonneg 2 (retries t)). lia. }
  destruct r0 as [[]|e]; cbn [fst snd].
  - destruct (read_groups_loop_cost groups ∅ (inter_register_delay t0) t0 d0)
      as [Hreads Hsleep]; [lia | by rewrite Hdelay0 |].
    rewrite Hret0 in Hreads. rewrite Hret0, Hdelay0 in Hsleep.
    destruct (read_groups_loop _ _ _ _) as [[r w2] ev]. cbn [fst snd] in *.
    exists ev. split_and!; [done | | done | done].
    intros Hlow. by destruct (Hnoop Hlow) as (_ & _ & _ & ->).
  - exists []. split_and!; [by rewrite app_nil_r | | cbn; lia | done].
    intros Hlow. by destruct (Hnoop Hlow) as ([=] & _).
Qed.

(** ** The methods that never pace *)

(** X13.  No inter-group sleep outside the batches: [_read_registers],
    [read_battery], [read_parameters], [write_parameters] and the
    identity reads never pace their requests. *)
Theorem pacing_only_in_batches :
  (forall address count input w, paces (_read_registers address count input w).2 = []) /\
  (forall include_individual w, paces (read_battery include_individual w).2 = []) /\
  (forall start_address count w, paces (read_parameters start_address count w).2 = []) /\
  (forall parameters w, paces (write_parameters parameters w).2 = []) /\
  (forall w, paces (read_serial_number w).2 = []) /\
  (forall w, paces (read_firmware_version w).2 = []) /\
  (forall w, paces (read_device_type w).2 = []).
Proof.
  set (quiet := fun e : Event => forall q, e <> EvPace q).
  assert (Hread : forall address count input,
            logs_only (Dev:=Dev) quiet (_read_registers address count input)).
  { intros address count input [t d].
    destruct (read_registers_cases address count input t d)
      as (r & t' & d' & ev & -> & _ & Hatt & _).
    by apply only_attempts_no_pace in Hatt. }
  assert (Hreconnect : logs_only (Dev:=Dev) quiet reconnect_if_needed).
  { intros [t d].
    destruct (reconnect_if_needed_cases t d) as (r & t' & d' & ev & -> & _ & _ & _ & Hev & _).
    by apply connection_events_no_pace in Hev. }
  assert (Hwrite : forall groups, logs_only (Dev:=Dev) quiet (write_all groups)).
  { induction groups as [|[start values] rest IH]; cbn [write_all].
    - apply logs_only_ret.
    - apply logs_only_bind; [|intros _; apply IH].
      intros [t d]. rewrite write_holding_registers_unfold.
      destruct (connected t); [|constructor]. destruct (client t); [|constructor].
      by repeat constructor. }
  split_and!; intros; apply paces_no_pace.
  - apply Hread.
  - unfold read_battery, read_runtime_window, read_individual, _read_input_registers.
    apply logs_only_bind; [apply Hreconnect|]. intros _.
    apply logs_only_bind.
    { apply logs_only_try; [|intros ?; apply logs_only_ret].
      apply logs_only_bind; [apply Hread|]. intros ?.
      apply logs_only_try; [|intros ?; apply logs_only_ret].
      apply logs_only_bind; [apply Hread|]. intros ?.
      apply logs_only_ret. }
    intros regs. apply logs_only_bind; [|intros ?; apply logs_only_ret].
    destruct (_ && _); [|apply logs_only_ret].
    apply logs_only_try; [|intros ?; apply logs_only_ret].
    apply logs_only_bind; [|intros ?; apply logs_only_ret].
    apply logs_only_read_chunks. intros a c. apply Hread.
  - apply logs_only_read_chunks. intros a c. apply Hread.
  - unfold write_parameters.
    apply logs_only_bind; [apply Hwrite|]. intros _. apply logs_only_ret.
  - unfold read_serial_number, read_serial_number_async, _read_input_registers.
    apply logs_only_bind; [apply logs_only_get|]. intros self.
    apply logs_only_bind; [apply Hread|]. intros ?. apply logs_only_ret.
  - unfold read_firmware_version, read_firmware_version_async, _read_holding_registers.
    apply logs_only_try; [|intros ?; apply logs_only_ret].
    apply logs_only_bind; [apply Hread|]. intros ?. apply logs_only_ret.
  - unfold read_device_type, read_device_type_async, _read_holding_registers.
    apply logs_only_bind; [apply Hread|].
    intros [|v ?]; [apply logs_only_raise | apply logs_only_ret].
Qed.

End BatchCost.

(** * Further examples *)

Section MoreExamples.

#[local] Existing Instance example_maps.

Example register_file_answers_in_full : answers_in_full (Dev := RegisterFile).
Proof.
  intros d r. eexists. split; [reflexivity|].
  unfold sim_window. by rewrite length_fmap, length_seq.
Qed.

(** A write that times out. *)
Lemma write_is_never_retried_witness :
  let address := 21 in
  let values := [1] in
  let t := connected_transport in
  let d := slow_writer in
  (connected t = true /\ client t = true) /\
  (let frame := write_frame address values (unit_id t) in
   let answer := (dev_write d frame).1 in
   let run := _write_holding_registers address values (t, d) in
   run.2 = [EvWrite frame] /\
   run.1.2 = (t, (dev_write d frame).2) /\
   (run.1.1 = Ok true <-> answer = WriteAccepted) /\
   (answer = WriteErrorResponse ->
    run.1.1 = Raise (TransportWriteError (MsgModbusWriteError address) None)) /\
   (answer = WriteRaises TimeoutError \/ answer = WriteRaises (ModbusIOException true) ->
    exists e, answer = WriteRaises e /\
      run.1.1 = Raise (TransportTimeoutError (MsgTimeoutWriting address) (Some e))) /\
   (answer = WriteRaises OSError \/ answer = WriteRaises (ModbusIOException false) ->
    exists e, answer = WriteRaises e /\
      run.1.1 = Raise (TransportWriteError (MsgFailedToWrite address) (Some e)))).
Proof.
  cbv zeta. split; [by split|].
  by apply (write_is_never_retried 21 [1] connected_transport slow_writer).
Defined.

Example slow_write_raises_timeout :
  _write_holding_registers 21 [1] (connected_transport, slow_writer)
  = (Raise (TransportTimeoutError (MsgTimeoutWriting 21) (Some TimeoutError)),
     (connected_transport, mkSim [] (fun _ => 0) [] true),
     [EvWrite (WriteSingle 21 1 1)]).
Proof. reflexivity. Qed.

(** The coalescing scenario on a device that refuses the first frame:
    the second is never sent. *)
Lemma write_parameters_stops_at_first_refusal_witness :
  let parameters := scenario_parameters in
  let t := connected_transport in
  let d := refusing_device in
  (connected t = true /\ client t = true) /\
  (let frames := parameter_frames parameters (unit_id t) in
   let accepted := accepted_prefix (write_answers d frames) in
   let run := write_parameters parameters (t, d) in
   writes run.2 = take (S accepted) frames /\
   run.1.2.1 = t /\
   (run.1.1 = Ok true <-> accepted = length frames) /\
   (forall f o, frames !! accepted = Some f ->
      write_answers d frames !! accepted = Some o ->
      o <> WriteAccepted /\ run.1.1 = write_result (frame_address f) o)).
Proof.
  cbv zeta. split; [by split|].
  by apply (write_parameters_stops_at_first_refusal scenario_parameters
              connected_transport refusing_device).
Defined.

Example refused_first_frame :
  writes (write_parameters scenario_parameters (connected_transport, refusing_device)).2
    = [WriteMultiple 10 [1; 2; 3] 1] /\
  (write_parameters scenario_parameters (connected_transport, refusing_device)).1.1
    = Raise (TransportWriteError (MsgModbusWriteError 10) None).
Proof. by vm_compute. Qed.

Lemma read_parameters_keys_witness :
  let start_address := 100 in
  let count := 95 in
  let t := connected_transport in
  let d := identity_device in
  (connected t = true /\ client t = true /\ 0 <= retries t /\
   answers_in_full (Dev := RegisterFile)) /\
  (exists result,
     (read_parameters start_address count (t, d)).1.1 = Ok result /\
     forall a, is_Some (result !! a) <-> start_address <= a < start_address + count).
Proof.
  cbv zeta. split.
  - split_and!; [reflexivity | reflexivity | by vm_compute
                | exact register_file_answers_in_full].
  - apply (read_parameters_keys 100 95 connected_transport identity_device);
      [reflexivity | reflexivity | by vm_compute | exact register_file_answers_in_full].
Defined.

Lemma write_then_read_parameters_witness :
  let parameters := scenario_parameters in
  let start_address := 8 in
  let count := 16 in
  let t := connected_transport in
  let d := identity_device in
  (connected t = true /\ client t = true /\ 0 <= retries t) /\
  (let written := write_parameters parameters (t, d) in
   let read_back := read_parameters start_address count written.1.2 in
   written.1.1 = Ok true /\
   exists result,
     read_back.1.1 = Ok result /\
     forall a, result !! a =
       if decide (start_address <= a < start_address + count)
       then Some (default (holding_file d a) (parameters !! a)) else None).
Proof.
  cbv zeta. split.
  - split_and!; [reflexivity | reflexivity | by vm_compute].
  - apply (write_then_read_parameters scenario_parameters 8 16 connected_transport
             identity_device); [reflexivity | reflexivity | by vm_compute].
Defined.

(** The firmware window and the first parameters of the scenario, read
    after the write. *)
Example written_then_read :
  match (read_parameters 7 6
           (write_parameters scenario_parameters
              (connected_transport, identity_device)).1.2).1.1 with
  | Ok result => (fun a => result !! a) <$> [7; 8; 9; 10; 11; 12; 13]
  | Raise _ => []
  end
  = [Some 16710; Some 16961; Some 8224; Some 1; Some 2; Some 3; None].
Proof. by vm_compute. Qed.

(** Three timeouts with the default settings. *)
Lemma read_registers_error_counter_witness :
  let address := 0 in
  let count := 8 in
  let input := true in
  let t := connected_transport in
  let d := silent_device in
  (connected t = true /\ client t = true /\ 0 <= retries t) /\
  (let run := _read_registers address count input (t, d) in
   (forall regs, run.1.1 = Ok regs -> consecutive_errors run.1.2.1 = 0) /\
   (forall e, run.1.1 = Raise e -> is_read_or_timeout e = true ->
      consecutive_errors run.1.2.1 = consecutive_errors t + retries t + 1 /\
      length (reads run.2) = Z.to_nat (retries t + 1)) /\
   (forall e, run.1.1 = Raise e -> is_read_or_timeout e = false ->
      consecutive_errors t <= consecutive_errors run.1.2.1
        <= consecutive_errors t + retries t)).
Proof.
  cbv zeta. split.
  - split_and!; [reflexivity | reflexivity | by vm_compute].
  - apply (read_registers_error_counter 0 8 true connected_transport silent_device);
      [reflexivity | reflexivity | by vm_compute].
Defined.

Example three_timeouts_count_three :
  consecutive_errors
    (_read_registers 0 8 true (connected_transport, silent_device)).1.2.1 = 3.
Proof. reflexivity. Qed.

Lemma failed_read_makes_next_batch_reconnect_witness :
  let address := 0 in
  let count := 8 in
  let input := true in
  let group_names := Some ["power_energy"%string] in
  let t := connected_transport in
  let d := silent_device in
  let e := TransportTimeoutError (MsgTimeoutReading true 0) (Some TimeoutError) in
  (connected t = true /\ client t = true /\ 0 <= retries t /\
   0 <= consecutive_errors t /\ max_consecutive_errors t <= retries t + 1 /\
   (_read_registers address count input (t, d)).1.1 = Raise e /\
   is_read_or_timeout e = true) /\
  (let failed := _read_registers address count input (t, d) in
   let next := _read_register_groups group_names failed.1.2 in
   (exists rest, next.2 = EvClose :: EvConnect :: rest) /\
   ((dev_connect failed.1.2.2).1 = false ->
    next.1.1 = Raise (TransportConnectionError MsgFailedToConnect None) /\
    reads next.2 = [] /\ connected next.1.2.1 = false)).
Proof.
  cbv zeta. split.
  - split_and!; [reflexivity | reflexivity | by vm_compute | by vm_compute
                | by vm_compute | reflexivity | reflexivity].
  - eapply (failed_read_makes_next_batch_reconnect 0 8 true (Some ["power_energy"%string])
              connected_transport silent_device);
      [reflexivity | reflexivity | by vm_compute | by vm_compute | by vm_compute
      | reflexivity | reflexivity].
Defined.

Example reconnect_then_read :
  (_read_register_groups (Some ["power_energy"%string])
     (_read_registers 0 8 true (connected_transport, silent_device)).1.2).2
  = [EvClose; EvConnect; EvRead (mkRead true 0 32 1)].
Proof. reflexivity. Qed.

Lemma read_registers_cost_witness :
  let address := 0 in
  let count := 8 in
  let input := true in
  let t := connected_transport in
  let d := flaky_device in
  (connected t = true /\ client t = true /\ 0 <= retries t /\ (0 <= retry_delay t)%Q) /\
  (let run := _read_registers address count input (t, d) in
   (1 <= length (reads run.2) <= Z.to_nat (retries t + 1))%nat /\
   length (backoffs run.2) = (length (reads run.2) - 1)%nat /\
   (total_sleep (backoffs run.2)
    == retry_delay t * inject_Z (2 ^ Z.of_nat (length (reads run.2) - 1) - 1))%Q /\
   (total_sleep (backoffs run.2) <= retry_delay t * inject_Z (2 ^ retries t - 1))%Q).
Proof.
  cbv zeta. split.
  - split_and!; [reflexivity | reflexivity | by vm_compute | by vm_compute].
  - apply (read_registers_cost 0 8 true connected_transport flaky_device);
      [reflexivity | reflexivity | by vm_compute | by vm_compute].
Defined.

Lemma batch_pacing_bounds_witness :
  let group_names : option (list string) := None in
  let t := connected_transport in
  let d := flaky_device in
  ((0 <= inter_register_delay t)%Q /\ (inter_register_delay t <= 1)%Q) /\
  (let run := _read_register_groups group_names (t, d) in
   Forall (fun q => inter_register_delay t <= q /\ q <= 1)%Q (paces run.2) /\
   StronglySorted Qle (paces run.2) /\
   (length (paces run.2) <= length (select_groups group_names) - 1)%nat).
Proof.
  cbv zeta. split.
  - split; by vm_compute.
  - apply (batch_pacing_bounds None connected_transport flaky_device); by vm_compute.
Defined.

Lemma nothing_is_sent_when_not_connected_witness :
  let t := init_transport "CE12345678" in
  let d := identity_device in
  (connected t = false \/ client t = false) /\
  (let error :=
     TransportConnectionError
       (if connected t then MsgClientNotInitialized else MsgNotConnected) None in
   (forall address count input,
      _read_registers address count input (t, d) = (Raise error, (t, d), [])) /\
   (forall address values,
      _write_holding_registers address values (t, d) = (Raise error, (t, d), [])) /\
   (forall start_address count,
      0 < count ->
      read_parameters start_address count (t, d) = (Raise error, (t, d), [])) /\
   (forall include_individual,
      consecutive_errors t < max_consecutive_errors t ->
      read_battery include_individual (t, d) =
      (Ok (battery_from_modbus_registers battery_voltage NO_BATTERY_THRESHOLD ∅ None),
       (t, d), [])) /\
   (consecutive_errors t < max_consecutive_errors t ->
    read_runtime (t, d) =
    (Raise (TransportReadError (MsgGroupFailed "power_energy") (Some error)), (t, d), []))).
Proof.
  cbv zeta. split.
  - by left.
  - apply (nothing_is_sent_when_not_connected (init_transport "CE12345678")
             identity_device). by left.
Defined.

Lemma read_battery_individual_chunks_witness :
  let t := connected_transport in
  let d := no_battery_device in
  (connected t = true /\ client t = true /\ 0 <= retries t /\
   consecutive_errors t < max_consecutive_errors t /\
   answers_every_read (Dev := RegisterFile)) /\
  (let run := read_battery true (t, d) in
   exists all_registers rs,
     (read_runtime_window (t, d)).1.1 = Ok all_registers /\
     run.2 = EvRead <$> (mkRead true 0 40 (unit_id t) :: mkRead true 64 40 (unit_id t) :: rs) /\
     tiles INDIVIDUAL_BATTERY_BASE_ADDRESS
       (INDIVIDUAL_BATTERY_BASE_ADDRESS
        + Z.min (default 0 (all_registers !! 96)) INDIVIDUAL_BATTERY_MAX_COUNT
          * INDIVIDUAL_BATTERY_REGISTER_COUNT) rs /\
     Forall (fun r => function_code r = 4) rs).
Proof.
  cbv zeta. split.
  - split_and!; [reflexivity | reflexivity | by vm_compute | by vm_compute
                | exact register_file_answers_every_read].
  - apply (read_battery_individual_chunks connected_transport no_battery_device);
      [reflexivity | reflexivity | by vm_compute | by vm_compute
      | exact register_file_answers_every_read].
Defined.

Lemma undisturbed_batch_witness :
  let group_names : option (list string) := None in
  let t := connected_transport in
  let d := identity_device in
  (connected t = true /\ client t = true /\ 0 <= retries t /\
   consecutive_errors t < max_consecutive_errors t /\
   answers_in_full (Dev := RegisterFile)) /\
  (let run := _read_register_groups group_names (t, d) in
   let groups := select_groups group_names in
   run.2 = undisturbed_log t groups /\
   (groups <> [] -> consecutive_errors run.1.2.1 = 0) /\
   exists registers,
     run.1.1 = Ok registers /\
     forall a, is_Some (registers !! a) <->
               exists g, g ∈ groups /\ g.2.1 <= a < g.2.1 + g.2.2).
Proof.
  cbv zeta. split.
  - split_and!; [reflexivity | reflexivity | by vm_compute | by vm_compute
                | exact register_file_answers_in_full].
  - apply (undisturbed_batch None connected_transport identity_device);
      [reflexivity | reflexivity | by vm_compute | by vm_compute
      | exact register_file_answers_in_full].
Defined.

Example runtime_poll_traffic :
  (read_runtime (connected_transport, identity_device)).2
  = [ EvRead (mkRead true 0 32 1); EvPace (1 # 20);
      EvRead (mkRead true 32 32 1); EvPace (1 # 20);
      EvRead (mkRead true 64 16 1); EvPace (1 # 20);
      EvRead (mkRead true 80 33 1); EvPace (1 # 20);
      EvRead (mkRead true 113 18 1); EvPace (1 # 20);
      EvRead (mkRead true 170 2 1) ].
Proof. by vm_compute. Qed.

Lemma negative_retries_read_nothing_witness :
  let address := 0 in
  let count := 8 in
  let input := true in
  let t := transport_without_attempts in
  let d := identity_device in
  (connected t = true /\ client t = true /\ retries t < 0) /\
  _read_registers address count input (t, d)
  = (Raise TypeError, (set_last_read_retried false t, d), []).
Proof.
  cbv zeta. split.
  - split_and!; [reflexivity | reflexivity | by vm_compute].
  - apply (negative_retries_read_nothing 0 8 true transport_without_attempts
             identity_device); [reflexivity | reflexivity | by vm_compute].
Defined.

Lemma batch_cost_witness :
  let group_names : option (list string) := None in
  let t := connected_transport in
  let d := silent_device in
  (0 <= retries t /\ (0 <= retry_delay t)%Q) /\
  (let run := _read_register_groups group_names (t, d) in
   let groups := select_groups group_names in
   exists batch,
     run.2 = (reconnect_if_needed (t, d)).2 ++ batch /\
     (consecutive_errors t < max_consecutive_errors t -> run.2 = batch) /\
     (length (reads batch) <= length groups * Z.to_nat (retries t + 1))%nat /\
     (total_sleep (backoffs batch)
      <= inject_Z (Z.of_nat (length groups))
         * (retry_delay t * inject_Z (2 ^ retries t - 1)))%Q).
Proof.
  cbv zeta. split.
  - split; by vm_compute.
  - apply (batch_cost None connected_transport silent_device); by vm_compute.
Defined.

Lemma read_energy_traffic_witness :
  let t := connected_transport in
  let d := identity_device in
  (0 <= consecutive_errors t < max_consecutive_errors t) /\
  (let run := read_energy (t, d) in
   (length (paces run.2) <= 1)%nat /\
   Forall (fun r => r = mkRead true 0 32 (unit_id t) \/
                    r = mkRead true 32 32 (unit_id t) \/
                    r = mkRead true 80 33 (unit_id t)) (reads run.2) /\
   (connected t = true -> client t = true -> 0 <= retries t ->
    answers_in_full ->
    run.2 = [ EvRead (mkRead true 0 32 (unit_id t));
              EvPace (inter_register_delay t);
              EvRead (mkRead true 32 32 (unit_id t));
              EvRead (mkRead true 80 33 (unit_id t)) ])).
Proof.
  cbv zeta. split.
  - split; by vm_compute.
  - apply (read_energy_traffic connected_transport identity_device).
    split; by vm_compute.
Defined.

Lemma read_battery_requested_registers_witness :
  let include_individual := true in
  let t := connected_transport in
  let d := no_battery_device in
  consecutive_errors t < max_consecutive_errors t /\
  (let run := read_battery include_individual (t, d) in
   (forall r a, r ∈ reads run.2 ->
      rd_address r <= a < rd_address r + rd_count r ->
      0 <= a < 40 \/ 64 <= a < 104 \/ INDIVIDUAL_BATTERY_BASE_ADDRESS <= a) /\
   (well_formed_answers ->
    forall all_registers a,
      (read_runtime_window (t, d)).1.1 = Ok all_registers ->
      is_Some (all_registers !! a) ->
      0 <= a < 40 \/ 64 <= a < 104)).
Proof.
  cbv zeta. split.
  - by vm_compute.
  - apply (read_battery_requested_registers true connected_transport no_battery_device).
    by vm_compute.
Defined.

(** With the default settings a poll of the six groups sends at most
    eighteen requests and backs off for at most nine seconds. *)
Example default_poll_cost :
  (length (select_groups None) * Z.to_nat (retries connected_transport + 1))%nat = 18%nat /\
  (inject_Z (Z.of_nat (length (select_groups None)))
   * (retry_delay connected_transport * inject_Z (2 ^ retries connected_transport - 1))
   == 9)%Q.
Proof. split; [reflexivity | by vm_compute]. Qed.

Example energy_poll_traffic :
  (read_energy (connected_transport, identity_device)).2
  = [ EvRead (mkRead true 0 32 1); EvPace (1 # 20);
      EvRead (mkRead true 32 32 1); EvRead (mkRead true 80 33 1) ].
Proof. by vm_compute. Qed.

Example midbox_poll_traffic :
  (read_midbox_runtime (connected_transport, identity_device)).2
  = [ EvRead (mkRead true 0 40 1); EvPace (1 # 20);
      EvRead (mkRead true 40 28 1); EvPace (1 # 20);
      EvRead (mkRead true 68 40 1); EvPace (1 # 20);
      EvRead (mkRead true 108 12 1); EvPace (1 # 20);
      EvRead (mkRead true 128 4 1) ].
Proof. by vm_compute. Qed.

(** A timeout in the first group of a poll, three times over: the poll
    fails with a read error that names the group and carries the
    timeout. *)
Example timeout_is_wrapped :
  (read_runtime (connected_transport, silent_device)).1.1
  = Raise (TransportReadError (MsgGroupFailed "power_energy")
             (Some (TransportTimeoutError (MsgTimeoutReading true 0) (Some TimeoutError)))).
Proof. reflexivity. Qed.

End MoreExamples.
